(** * work_schedule: the schedule generator of [app.js]

    A shallow embedding of [generateSchedule] and [permutations]
    (app.js, lines 98-200), of [generate] and of the functions around it,
    with the properties of the rotation and of the shift assignment.

    JavaScript values are modelled as follows.
    - Integers held in numbers (dates, worker indices, counters) are [Z];
      a number that may be [NaN] is [option Z] with [None] for [NaN].
    - The score of a permutation is a binary64 number: [spec_float] of the
      Standard Library with precision 53 and maximal exponent 1024.
    - Arrays are lists, read with [!!]; an object used as a map is a [gmap].
    - A [TypeError] raised by reading a property of [undefined] is the
      [Throw] of the completion monad below.
    - [Date] follows ECMA-262 (Day, DayFromYear, YearFromTime, MakeDay,
      TimeClip, WeekDay), counted in whole days, for a host whose local
      time is UTC. At another fixed offset only the first and the last
      day that [TimeClip] admits differ.
    - [Array.prototype.sort] is the stable sort by insertion.
    - The elements of the page exist, and writing to them raises nothing. *)

From Stdlib Require Import ZArith List Bool Lia String QArith Qabs.
From Stdlib Require Import Floats.SpecFloat.
From stdpp Require Import base option list gmap.

Local Open Scope Z_scope.

(** ** Completions: a value, or a thrown TypeError *)

Inductive completion (A : Type) : Type :=
| Normal (a : A)
| Throw.
Arguments Normal {A} a.
Arguments Throw {A}.

#[global] Instance completion_ret : MRet completion := @Normal.
#[global] Instance completion_bind : MBind completion := λ A B k c,
  match c with
  | Normal a => k a
  | Throw => Throw
  end.

#[global] Instance completion_fmap : FMap completion := λ A B f c,
  match c with
  | Normal a => Normal (f a)
  | Throw => Throw
  end.

#[global] Instance completion_eq_dec {A} `{EqDecision A} :
  EqDecision (completion A).
Proof. solve_decision. Defined.

(** [o] is the result of reading an array element or a property; using it
    as an object throws when it is [undefined]. *)
Definition defined {A} (o : option A) : completion A :=
  match o with
  | Some a => Normal a
  | None => Throw
  end.

(** [arr[i]] for an integer-valued number [i]: [undefined] out of range. *)
Definition at_index {A} (arr : list A) (i : Z) : option A :=
  if 0 <=? i then arr !! Z.to_nat i else None.

(** ** Numbers: binary64 *)

Module JSNum.

Definition num := spec_float.

Definition ofZ (z : Z) : num := binary_normalize 53 1024 z 0 false.
Definition add : num → num → num := SFadd 53 1024.
Definition sub : num → num → num := SFsub 53 1024.
Definition mul : num → num → num := SFmul 53 1024.
Definition ltb : num → num → bool := SFltb.
Definition eqb : num → num → bool := SFeqb.

Definition zero : num := S754_zero false.
Definition Infinity : num := S754_infinity false.
Definition NegInfinity : num := S754_infinity true.
Definition NaN : num := S754_nan.

(** The literal [0.1]: the binary64 number nearest to one tenth,
    0x1.999999999999ap-4. *)
Definition tenth : num := S754_finite false 7205759403792794 (-56).

(** [Math.max(...row)] and [Math.min(...row)] on an array of integers. *)
Definition Math_max (row : list Z) : num :=
  match row with
  | [] => NegInfinity
  | x :: r => ofZ (foldl Z.max x r)
  end.

Definition Math_min (row : list Z) : num :=
  match row with
  | [] => Infinity
  | x :: r => ofZ (foldl Z.min x r)
  end.

End JSNum.

(** ** Date: ECMA-262 day arithmetic *)

Module JSDate.

Definition DayFromYear (y : Z) : Z :=
  365 * (y - 1970) + (y - 1969) / 4 - (y - 1901) / 100 + (y - 1601) / 400.

Definition DaysInYear (y : Z) : Z :=
  if negb (y mod 4 =? 0) then 365
  else if negb (y mod 100 =? 0) then 366
  else if negb (y mod 400 =? 0) then 365
  else 366.

Definition InLeapYear (y : Z) : Z := if DaysInYear y =? 366 then 1 else 0.

(** The largest [y] with [DayFromYear y <= d]: an estimate from the mean
    length of a year, moved by at most one year. *)
Definition YearFromDay (d : Z) : Z :=
  let y := 1970 + (400 * d) / 146097 in
  if d <? DayFromYear y then y - 1
  else if DayFromYear (y + 1) <=? d then y + 1
  else y.

Definition DayWithinYear (d : Z) : Z := d - DayFromYear (YearFromDay d).

(** The day within the year on which month [mn] (0-based) starts. *)
Definition MonthStart (mn leap : Z) : Z :=
  match mn with
  | 0 => 0
  | 1 => 31
  | 2 => 59 + leap
  | 3 => 90 + leap
  | 4 => 120 + leap
  | 5 => 151 + leap
  | 6 => 181 + leap
  | 7 => 212 + leap
  | 8 => 243 + leap
  | 9 => 273 + leap
  | 10 => 304 + leap
  | _ => 334 + leap
  end.

Definition MonthFromDay (d : Z) : Z :=
  let dwy := DayWithinYear d in
  let leap := InLeapYear (YearFromDay d) in
  if dwy <? 31 then 0
  else if dwy <? 59 + leap then 1
  else if dwy <? 90 + leap then 2
  else if dwy <? 120 + leap then 3
  else if dwy <? 151 + leap then 4
  else if dwy <? 181 + leap then 5
  else if dwy <? 212 + leap then 6
  else if dwy <? 243 + leap then 7
  else if dwy <? 273 + leap then 8
  else if dwy <? 304 + leap then 9
  else if dwy <? 334 + leap then 10
  else 11.

Definition DateFromDay (d : Z) : Z :=
  DayWithinYear d - MonthStart (MonthFromDay d) (InLeapYear (YearFromDay d)) + 1.

Definition WeekDay (d : Z) : Z := (d + 4) mod 7.

(** [MakeDay(year, month, date)] for integers. *)
Definition MakeDay (year month date : Z) : Z :=
  let ym := year + month / 12 in
  let mn := month mod 12 in
  DayFromYear ym + MonthStart mn (InLeapYear ym) + date - 1.

(** [TimeClip]: a time value is a date only within 100,000,000 days of
    the epoch; outside it is [NaN]. *)
Definition TimeClip (d : Z) : option Z :=
  if Z.abs d <=? 100000000 then Some d else None.

(** The year [new Date] takes for [year]: 0 to 99 mean 1900 to 1999. *)
Definition fullYear (year : Z) : Z :=
  if (0 <=? year) && (year <=? 99) then 1900 + year else year.

(** [new Date(year, month, date)] *)
Definition newDate (year month date : Z) : option Z :=
  TimeClip (MakeDay (fullYear year) month date).

Definition getDate (t : option Z) : option Z := DateFromDay <$> t.
Definition getDay (t : option Z) : option Z := WeekDay <$> t.

End JSDate.

(** ** The program *)

Import JSNum JSDate.

(** [SHIFTS], by [id]. *)
Definition SHIFTS : list Z := [7; 9; 13].

(** [OFF_PATTERNS]: the days of the week (0 = Sunday) each role rests. *)
Definition OFF_PATTERNS : list (list Z) := [[0; 1]; [2; 3]; [4; 5]; [6]].

(** An element of [days]; [dayOfWeek] is [NaN] for a date out of range. *)
Record Day := mkDay { date : Z; dayOfWeek : option Z }.

(** The value stored at [schedule[day.date]]. *)
Record DaySchedule := mkDaySchedule { off : Z; shifts : gmap Z Z }.

(** [new Date(year, month, 0).getDate()] *)
Definition daysInMonth (year month : Z) : option Z :=
  getDate (newDate year month 0).

(** Lines 103-106: the loop runs for [d = 1 .. daysInMonth], and not at all
    when [daysInMonth] is [NaN]. *)
Definition buildDays (year month : Z) : list Day :=
  match daysInMonth year month with
  | Some n => (λ d, mkDay d (getDay (newDate year (month - 1) d))) <$> seqZ 1 n
  | None => []
  end.

(** Lines 109-118: [weeks] and [currentWeek] are the two accumulators. *)
Fixpoint groupWeeks (days : list Day) (weeks : list (list Day))
    (currentWeek : list Day) : list (list Day) :=
  match days with
  | [] => if 0 <? Z.of_nat (length currentWeek) then weeks ++ [currentWeek] else weeks
  | day :: rest =>
      if bool_decide (dayOfWeek day = Some 0) && (0 <? Z.of_nat (length currentWeek))
      then groupWeeks rest (weeks ++ [currentWeek]) [day]
      else groupWeeks rest weeks (currentWeek ++ [day])
  end.

(** [pattern.includes(dow)] *)
Definition includes (pattern : list Z) (dow : option Z) : bool :=
  existsb (λ x, bool_decide (dow = Some x)) pattern.

(** Line 137 *)
Definition role (w wi : Z) : Z := Z.rem (w + wi) 4.

(** Lines 135-142: the scan over the workers still to try, with its
    [break]; [-1] when no worker matches. *)
Fixpoint scanOff (ws : list Z) (wi : Z) (dow : option Z) : completion Z :=
  match ws with
  | [] => Normal (-1)
  | w :: ws' =>
      pattern ← defined (at_index OFF_PATTERNS (role w wi));
      if includes pattern dow then Normal w else scanOff ws' wi dow
  end.

Definition findOffWorker (wi : Z) (dow : option Z) : completion Z :=
  scanOff [0; 1; 2; 3] wi dow.

(** Lines 190-200. The recursion is on a shorter array each time; [fuel]
    bounds its depth and [permutations] gives the length of the array. *)
Fixpoint permutations_fuel {A} (fuel : nat) (arr : list A) : list (list A) :=
  match fuel with
  | O => [arr]
  | S fuel' =>
      if (length arr <=? 1)%nat then [arr]
      else
        flat_map (λ i,
          match arr !! i with
          | Some x => (λ perm, x :: perm) <$>
                        permutations_fuel fuel' (take i arr ++ drop (S i) arr)
          | None => []
          end) (seq 0 (length arr))
  end.

Definition permutations {A} (arr : list A) : list (list A) :=
  permutations_fuel (length arr) arr.

(** [shiftCounts[perm[s]]], used as an object. *)
Definition countsRow (shiftCounts : list (list Z)) (perm : list Z) (s : nat)
    : completion (list Z) :=
  w ← defined (perm !! s);
  defined (at_index shiftCounts w).

(** Lines 159-161: [score += shiftCounts[perm[s]][s]] for the slots in [ss].
    An element past the end of the row is [undefined], and adding it gives
    [NaN]. *)
Fixpoint addCounts (shiftCounts : list (list Z)) (perm : list Z) (ss : list nat)
    (score : num) : completion num :=
  match ss with
  | [] => Normal score
  | s :: ss' =>
      row ← countsRow shiftCounts perm s;
      addCounts shiftCounts perm ss'
        (add score (match row !! s with Some c => ofZ c | None => NaN end))
  end.

(** Lines 163-167: [score += (maxCount - minCount) * 0.1]. *)
Fixpoint addSpreads (shiftCounts : list (list Z)) (perm : list Z) (ss : list nat)
    (score : num) : completion num :=
  match ss with
  | [] => Normal score
  | s :: ss' =>
      row ← countsRow shiftCounts perm s;
      addSpreads shiftCounts perm ss'
        (add score (mul (sub (Math_max row) (Math_min row)) tenth))
  end.

(** Lines 158-167 *)
Definition scorePerm (shiftCounts : list (list Z)) (perm : list Z) : completion num :=
  score ← addCounts shiftCounts perm [0; 1; 2]%nat zero;
  addSpreads shiftCounts perm [0; 1; 2]%nat score.

(** Lines 156-172: the loop over [perms] with [bestPerm] and [bestScore]. *)
Fixpoint pickBest (shiftCounts : list (list Z)) (perms : list (list Z))
    (bestPerm : option (list Z)) (bestScore : num) : completion (option (list Z)) :=
  match perms with
  | [] => Normal bestPerm
  | perm :: perms' =>
      score ← scorePerm shiftCounts perm;
      if ltb score bestScore
      then pickBest shiftCounts perms' (Some perm) score
      else pickBest shiftCounts perms' bestPerm bestScore
  end.

(** Lines 174-177: [shifts[bestPerm[s]] = SHIFTS[s].id] and
    [shiftCounts[bestPerm[s]][s]++]. The rows keep their three elements
    (lemma [assignDays_rows]), so the element incremented exists. *)
Fixpoint commit (bestPerm : option (list Z)) (ss : list nat)
    (shifts : gmap Z Z) (shiftCounts : list (list Z))
    : completion (gmap Z Z * list (list Z)) :=
  match ss with
  | [] => Normal (shifts, shiftCounts)
  | s :: ss' =>
      perm ← defined bestPerm;
      id ← defined (SHIFTS !! s);
      w ← defined (perm !! s);
      row ← defined (at_index shiftCounts w);
      commit bestPerm ss' (<[w := id]> shifts)
        (<[Z.to_nat w := alter Z.succ s row]> shiftCounts)
  end.

(** Lines 131-183: the body of the loop over the days of week [wi]. *)
Definition assignDay (wi : Z) (day : Day)
    (st : list (list Z) * gmap Z DaySchedule)
    : completion (list (list Z) * gmap Z DaySchedule) :=
  let '(shiftCounts, schedule) := st in
  offWorker ← findOffWorker wi (dayOfWeek day);
  let workingWorkers := filter (λ w, w ≠ offWorker) [0; 1; 2; 3] in
  let perms := permutations workingWorkers in
  bestPerm ← pickBest shiftCounts perms (perms !! 0%nat) Infinity;
  '(shifts, shiftCounts') ← commit bestPerm [0; 1; 2]%nat ∅ shiftCounts;
  Normal (shiftCounts', <[date day := mkDaySchedule offWorker shifts]> schedule).

Fixpoint assignWeek (wi : Z) (week : list Day)
    (st : list (list Z) * gmap Z DaySchedule)
    : completion (list (list Z) * gmap Z DaySchedule) :=
  match week with
  | [] => Normal st
  | day :: week' => st' ← assignDay wi day st; assignWeek wi week' st'
  end.

(** Lines 128-184: the loop over the weeks, from week index [wi] on. *)
Fixpoint assignWeeks (wi : Z) (weeks : list (list Day))
    (st : list (list Z) * gmap Z DaySchedule)
    : completion (list (list Z) * gmap Z DaySchedule) :=
  match weeks with
  | [] => Normal st
  | week :: weeks' => st' ← assignWeek wi week st; assignWeeks (wi + 1) weeks' st'
  end.

(** Lines 121-126 *)
Definition initialCounts : list (list Z) :=
  [[0; 0; 0]; [0; 0; 0]; [0; 0; 0]; [0; 0; 0]].

Definition generateSchedule (year month : Z) : completion (gmap Z DaySchedule) :=
  let days := buildDays year month in
  let weeks := groupWeeks days [] [] in
  st ← assignWeeks 0 weeks (initialCounts, ∅);
  Normal st.2.

(** Lines 2-7: the object [state]. *)
Record AppState := mkAppState {
  st_year : Z;
  st_month : Z;
  st_names : list string;
  st_schedule : option (gmap Z DaySchedule)
}.

(** Lines 72-79: the names read from the four inputs, [inputs] being their
    values. *)
Definition readNames (inputs : list string) : list string :=
  zip_with (λ v dflt, if String.eqb v EmptyString then dflt else v) inputs
    ["직원A"; "직원B"; "직원C"; "직원D"]%string.

(** ** Notions used to state the properties *)

(** Well-formed input: a month from 1 to 12 of a year strictly between the
    years of the first and of the last date the host represents (20 April
    -271821 and 13 September 275760), so that every day of the month is a
    date. *)
Definition usable (year month : Z) : Prop :=
  -271821 < year < 275760 ∧ 1 <= month <= 12.

(** Worker [w], in the role of week [wi], rests on day of the week [dow]:
    the test of line 138. *)
Definition rests (w wi : Z) (dow : option Z) : bool :=
  match at_index OFF_PATTERNS (role w wi) with
  | Some pattern => includes pattern dow
  | None => false
  end.

(** The number of days of week [wi], Sunday to Saturday, on which the scan
    finds worker [w]. *)
Definition offDays (wi w : Z) : nat :=
  length (filter (λ dow, findOffWorker wi dow = Normal w)
            (Some <$> [0; 1; 2; 3; 4; 5; 6])).

Definition isSunday (day : Day) : Prop := dayOfWeek day = Some 0.

(** The shape of the partition into weeks: no week is empty, no day but
    the first of a week is a Sunday, every week after the first starts on
    a Sunday. *)
Definition wellGrouped (weeks : list (list Day)) : Prop :=
  Forall (λ week, week ≠ [] ∧ Forall (λ day, ¬ isSunday day) (tail week)) weeks ∧
  Forall (λ week, ∃ day, head week = Some day ∧ isSunday day) (tail weeks).

(** The length of month [m] (1-based), [leap] being 1 in a leap year. *)
Definition monthLength (m leap : Z) : Z :=
  match m with
  | 2 => 28 + leap
  | 4 | 6 | 9 | 11 => 30
  | _ => 31
  end.

(** The days of a month of [n] days whose first day falls on [dow0]. *)
Definition monthDays (dow0 n : Z) : list Day :=
  (λ d, mkDay d (Some ((dow0 + d - 1) mod 7))) <$> seqZ 1 n.

(** The days in the order the two nested loops visit them, each with the
    index of its week. *)
Fixpoint indexWeeks (wi : Z) (weeks : list (list Day)) : list (Z * Day) :=
  match weeks with
  | [] => []
  | week :: weeks' => ((λ day, (wi, day)) <$> week) ++ indexWeeks (wi + 1) weeks'
  end.

(** A visit in a week of index at least 0, to a day with a day of the week. *)
Definition validVisit (v : Z * Day) : Prop :=
  0 <= v.1 ∧ ∃ dow, dayOfWeek v.2 = Some dow ∧ 0 <= dow <= 6.

(** The loop body run over such a sequence of visits. *)
Fixpoint assignDays (visits : list (Z * Day))
    (st : list (list Z) * gmap Z DaySchedule)
    : completion (list (list Z) * gmap Z DaySchedule) :=
  match visits with
  | [] => Normal st
  | (wi, day) :: visits' => st' ← assignDay wi day st; assignDays visits' st'
  end.

(** Each visit with the [shiftCounts] the loop body finds on entry. *)
Fixpoint preStates (visits : list (Z * Day))
    (st : list (list Z) * gmap Z DaySchedule)
    : list (Z * Day * list (list Z)) :=
  match visits with
  | [] => []
  | (wi, day) :: visits' =>
      (wi, day, st.1) ::
      match assignDay wi day st with
      | Normal st' => preStates visits' st'
      | Throw => []
      end
  end.

(** The object [shifts] built from [bestPerm = [a, b, c]]. *)
Definition shiftsOf (perm : list Z) : gmap Z Z :=
  match perm with
  | a :: b :: c :: _ => <[c := 13]> (<[b := 9]> (<[a := 7]> ∅))
  | _ => ∅
  end.

(** What the loop body records for [day] in week [wi]: the worker the scan
    finds, and [shifts] built from one ordering of the others. *)
Definition entryOf (wi : Z) (day : Day) (ds : DaySchedule) : Prop :=
  findOffWorker wi (dayOfWeek day) = Normal (off ds) ∧
  ∃ perm, perm ∈ permutations (filter (λ w, w ≠ off ds) [0; 1; 2; 3]) ∧
          shifts ds = shiftsOf perm.

(** The invariant of a [DaySchedule]: the worker off is one of the four,
    [shifts] is defined on exactly the three others, its values are shift
    identifiers, no two workers hold the same one, and every shift is held. *)
Definition dayInvariant (ds : DaySchedule) : Prop :=
  0 <= off ds <= 3 ∧
  (∀ w, is_Some (shifts ds !! w) ↔ 0 <= w <= 3 ∧ w ≠ off ds) ∧
  (∀ w id, shifts ds !! w = Some id → id ∈ SHIFTS) ∧
  (∀ w w' id, shifts ds !! w = Some id → shifts ds !! w' = Some id → w = w') ∧
  (∀ id, id ∈ SHIFTS → ∃ w, shifts ds !! w = Some id).

(** The check that, in a month of [n] days starting on [dow0], the workers
    on duty on day 1 hold the shifts in ascending order. *)
Definition firstDayAscending (dow0 n : Z) : bool :=
  match assignWeeks 0 (groupWeeks (monthDays dow0 n) [] []) (initialCounts, ∅)
        ≫= (λ st, Normal st.2) with
  | Normal schedule =>
      match schedule !! 1 with
      | Some ds =>
          bool_decide (shifts ds = shiftsOf (filter (λ w, w ≠ off ds) [0; 1; 2; 3]))
      | None => true
      end
  | Throw => true
  end.

(** The score as the specification words it, in exact arithmetic: the
    counts of (candidate, slot) over the three slots, plus one tenth of
    (max - min) of each candidate's counts. *)
Definition countOf (shiftCounts : list (list Z)) (w : Z) (s : nat) : Z :=
  default 0 (at_index shiftCounts w ≫= (.!! s)).

Definition spreadOf (shiftCounts : list (list Z)) (w : Z) : Z :=
  match at_index shiftCounts w with
  | Some (x :: r) => foldl Z.max x r - foldl Z.min x r
  | _ => 0
  end.

Definition spec_score (shiftCounts : list (list Z)) (perm : list Z) : Q :=
  match perm with
  | a :: b :: c :: _ =>
      inject_Z (countOf shiftCounts a 0 + countOf shiftCounts b 1
                + countOf shiftCounts c 2)
      + (1 # 10) * inject_Z (spreadOf shiftCounts a + spreadOf shiftCounts b
                             + spreadOf shiftCounts c)
  | _ => 0
  end.

(** The first part of the score alone: the counts of the three slots. *)
Definition baseOf (shiftCounts : list (list Z)) (perm : list Z) : Z :=
  match perm with
  | a :: b :: c :: _ =>
      countOf shiftCounts a 0 + countOf shiftCounts b 1 + countOf shiftCounts c 2
  | _ => 0
  end.

#[global] Instance Qlt_dec (x y : Q) : Decision (x < y)%Q.
Proof. unfold Qlt. apply _. Defined.

(** [best], at index [i], is the first of [perms] of lowest score. *)
Definition firstMin (score : list Z → Q) (perms : list (list Z)) (i : nat)
    (best : list Z) : Prop :=
  perms !! i = Some best ∧
  ∀ (j : nat) q, perms !! j = Some q →
    (score best <= score q)%Q ∧ ((j < i)%nat → (score best < score q)%Q).

(** The check that the binary64 scores of [perms] are below [Infinity] and
    order the orderings as the exact scores do. *)
Definition scoresAgree (shiftCounts : list (list Z)) (perms : list (list Z)) : bool :=
  let scored := (λ p, (scorePerm shiftCounts p, spec_score shiftCounts p)) <$> perms in
  forallb (λ '(cp, xp),
    match cp with
    | Normal sp =>
        ltb sp Infinity &&
        forallb (λ '(cq, xq),
          match cq with
          | Normal sq => bool_decide (ltb sp sq = true ↔ (xp < xq)%Q)
          | Throw => false
          end) scored
    | Throw => false
    end) scored.

(** The rational number that a finite binary64 number stands for. *)
Definition toQ (x : num) : option Q :=
  match x with
  | S754_zero _ => Some 0%Q
  | S754_finite s m e =>
      Some (inject_Z (if s then Z.neg m else Z.pos m) * Qpower 2 e)%Q
  | _ => None
  end.

(** The binary64 number [x] is finite and within [10^-12] of [q]. *)
Definition closeTo (x : num) (q : Q) : Prop :=
  ∃ r, toQ x = Some r ∧ (Qabs (r - q) <= 1 # 1000000000000)%Q.

(** The check that the binary64 score of every ordering of [perms] is
    within [10^-12] of its exact score. *)
Definition scoresClose (shiftCounts : list (list Z)) (perms : list (list Z)) : bool :=
  forallb (λ p,
    match scorePerm shiftCounts p with
    | Normal sp =>
        match toQ sp with
        | Some r => Qle_bool (Qabs (r - spec_score shiftCounts p)) (1 # 1000000000000)
        | None => false
        end
    | Throw => false
    end) perms.

(** The two checks for a visit and the [shiftCounts] found on entry. *)
Definition visitAgrees (v : Z * Day * list (list Z)) : bool :=
  let '(wi, day, shiftCounts) := v in
  match findOffWorker wi (dayOfWeek day) with
  | Normal o =>
      bool_decide (0 <= o <= 3) && bool_decide (length shiftCounts = 4%nat) &&
      scoresAgree shiftCounts (permutations (filter (λ w, w ≠ o) [0; 1; 2; 3])) &&
      scoresClose shiftCounts (permutations (filter (λ w, w ≠ o) [0; 1; 2; 3]))
  | Throw => false
  end.

(** The same checks for every visit of a month of [n] days starting on
    [dow0]. *)
Definition monthAgrees (dow0 n : Z) : bool :=
  forallb visitAgrees
    (preStates (indexWeeks 0 (groupWeeks (monthDays dow0 n) [] [])) (initialCounts, ∅)).

(** ** The rest of the program

    The functions around [generateSchedule], less what they write to the
    page or to the workbook: [changeMonth], the counting of [renderSummary],
    and the rows that [renderTable] and [exportToExcel] build. *)

(** [DAY_NAMES] *)
Definition DAY_NAMES : list string :=
  ["일"; "월"; "화"; "수"; "목"; "금"; "토"]%string.

(** Lines 2-7: [state] as the script starts. *)
Definition initialState : AppState :=
  mkAppState 2026 2 ["직원A"; "직원B"; "직원C"; "직원D"]%string None.

(** Lines 56-66; the call of [updateMonthDisplay] that ends it only writes
    the page. *)
Definition changeMonth (delta : Z) (st : AppState) : AppState :=
  let month := st_month st + delta in
  if month <? 1
  then mkAppState (st_year st - 1) 12 (st_names st) (st_schedule st)
  else if 12 <? month
  then mkAppState (st_year st + 1) 1 (st_names st) (st_schedule st)
  else mkAppState (st_year st) month (st_names st) (st_schedule st).

(** Lines 282-285 of [renderSummary]: the days of the week of the month. *)
Definition summaryDays (year month : Z) : list (option Z) :=
  match daysInMonth year month with
  | Some n => (λ d, getDay (newDate year (month - 1) d)) <$> seqZ 1 n
  | None => []
  end.

(** Lines 288-292: a week for every Sunday, and one more unless [days[0]]
    is 0. *)
Definition weekCount (year month : Z) : Z :=
  let days := summaryDays year month in
  let sundays := foldl (λ count dow, if bool_decide (dow = Some 0) then count + 1
                                     else count) 0 days in
  if bool_decide (days !! 0%nat = Some (Some 0)) then sundays else sundays + 1.

(** The variables of the loop of lines 296-325. *)
Record StatsLoop := mkStatsLoop {
  l_workDays : Z; l_offDays : Z;
  l_shift7 : Z; l_shift9 : Z; l_shift13 : Z;
  l_currentStreak : Z; l_maxStreak : Z;
  l_totalStreaks : Z; l_consecutivePairs : Z
}.

(** What [renderSummary] keeps of them for a worker. *)
Record Stats := mkStats {
  stats_name : option string;
  stats_workDays : Z; stats_offDays : Z;
  stats_shift7 : Z; stats_shift9 : Z; stats_shift13 : Z;
  stats_hours : Z; stats_maxStreak : Z; stats_consecutivePairs : Z
}.

(** Lines 307-322: the body of the loop, for day [d]. *)
Definition statsStep (schedule : gmap Z DaySchedule) (idx : Z)
    (acc : StatsLoop) (d : Z) : StatsLoop :=
  match schedule !! d with
  | None => acc
  | Some ds =>
      if bool_decide (off ds = idx)
      then
        let streak := l_currentStreak acc + 1 in
        mkStatsLoop (l_workDays acc) (l_offDays acc + 1)
          (l_shift7 acc) (l_shift9 acc) (l_shift13 acc)
          streak (if l_maxStreak acc <? streak then streak else l_maxStreak acc)
          (l_totalStreaks acc) (l_consecutivePairs acc)
      else
        let shiftId := shifts ds !! idx in
        mkStatsLoop (l_workDays acc + 1) (l_offDays acc)
          (if bool_decide (shiftId = Some 7) then l_shift7 acc + 1 else l_shift7 acc)
          (if bool_decide (shiftId = Some 9) then l_shift9 acc + 1 else l_shift9 acc)
          (if bool_decide (shiftId = Some 13) then l_shift13 acc + 1
           else l_shift13 acc)
          0 (l_maxStreak acc)
          (if 0 <? l_currentStreak acc then l_totalStreaks acc + 1
           else l_totalStreaks acc)
          (if 2 <=? l_currentStreak acc then l_consecutivePairs acc + 1
           else l_consecutivePairs acc)
  end.

(** The days [1 .. daysInMonth] that the loops of the renderers run over:
    none when [daysInMonth] is [NaN]. *)
Definition monthDates (year month : Z) : list Z :=
  match daysInMonth year month with
  | Some n => seqZ 1 n
  | None => []
  end.

(** Lines 295-328: the statistics of the worker of index [idx], the loop
    running over [dates]. *)
Definition statsOfDates (schedule : gmap Z DaySchedule) (dates : list Z)
    (idx : Z) (name : option string) : Stats :=
  let acc := foldl (statsStep schedule idx)
               (mkStatsLoop 0 0 0 0 0 0 0 0 0) dates in
  mkStats name (l_workDays acc) (l_offDays acc)
    (l_shift7 acc) (l_shift9 acc) (l_shift13 acc)
    (l_workDays acc * 8) (l_maxStreak acc)
    (if 2 <=? l_currentStreak acc then l_consecutivePairs acc + 1
     else l_consecutivePairs acc).

Definition workerStats (year month : Z) (schedule : gmap Z DaySchedule)
    (idx : Z) (name : option string) : Stats :=
  statsOfDates schedule (monthDates year month) idx name.

(** [state.names.map((name, idx) => ...)] *)
Definition summaryStats (year month : Z) (names : list string)
    (schedule : gmap Z DaySchedule) : list Stats :=
  imap (λ idx name, workerStats year month schedule (Z.of_nat idx) (Some name)) names.

(** The four name cells of a row of the table. *)
Record DayCells := mkDayCells {
  w7 : option string; w9 : option string; w13 : option string;
  wOff : option string
}.

(** Lines 431-440 of [renderTable] and 506-515 of [exportToExcel]: the
    body of the loop over the workers. [state.names[w]] is [undefined] past
    the end of the names. *)
Definition cellStep (names : list string) (ds : DaySchedule)
    (cells : DayCells) (w : Z) : DayCells :=
  if bool_decide (w = off ds)
  then mkDayCells (w7 cells) (w9 cells) (w13 cells) (at_index names w)
  else
    let shiftId := shifts ds !! w in
    if bool_decide (shiftId = Some 7)
    then mkDayCells (at_index names w) (w9 cells) (w13 cells) (wOff cells)
    else if bool_decide (shiftId = Some 9)
    then mkDayCells (w7 cells) (at_index names w) (w13 cells) (wOff cells)
    else if bool_decide (shiftId = Some 13)
    then mkDayCells (w7 cells) (w9 cells) (at_index names w) (wOff cells)
    else cells.

Definition dayCells (names : list string) (ds : DaySchedule) : DayCells :=
  foldl (cellStep names ds)
    (mkDayCells (Some EmptyString) (Some EmptyString) (Some EmptyString)
       (Some EmptyString))
    [0; 1; 2; 3].

(** A row of the table: the date, [DAY_NAMES[dow]] and the name cells. *)
Record DayRow := mkDayRow {
  r_date : Z; r_dayName : option string; r_cells : DayCells
}.

(** Lines 426-455 of [renderTable] and 501-525 of [exportToExcel]: a row
    per day; reading [ds.off] throws when the schedule has no entry. *)
Fixpoint dayRowsOf (year month : Z) (names : list string)
    (schedule : gmap Z DaySchedule) (dates : list Z) : completion (list DayRow) :=
  match dates with
  | [] => Normal []
  | d :: dates' =>
      let dow := getDay (newDate year (month - 1) d) in
      ds ← defined (schedule !! d);
      rows ← dayRowsOf year month names schedule dates';
      Normal (mkDayRow d (dow ≫= at_index DAY_NAMES) (dayCells names ds) :: rows)
  end.

Definition dayRows (year month : Z) (names : list string)
    (schedule : gmap Z DaySchedule) : completion (list DayRow) :=
  dayRowsOf year month names schedule (monthDates year month).

(** A row of the second sheet: name, work days, days off, hours and the
    three counts of shifts. *)
Record SummaryRow := mkSummaryRow {
  s_name : option string;
  s_workDays : Z; s_offDays : Z; s_hours : Z;
  s_s7 : Z; s_s9 : Z; s_s13 : Z
}.

(** Lines 533-544: the loop over the days for worker [w], on the counters
    [workDays, offDays, s7, s9, s13]. *)
Fixpoint exportCount (schedule : gmap Z DaySchedule) (w : Z) (dates : list Z)
    (acc : Z * Z * Z * Z * Z) : completion (Z * Z * Z * Z * Z) :=
  match dates with
  | [] => Normal acc
  | d :: dates' =>
      let '(workDays, offDays, s7, s9, s13) := acc in
      ds ← defined (schedule !! d);
      if bool_decide (off ds = w)
      then exportCount schedule w dates' (workDays, offDays + 1, s7, s9, s13)
      else
        let sid := shifts ds !! w in
        exportCount schedule w dates'
          (workDays + 1, offDays,
           if bool_decide (sid = Some 7) then s7 + 1 else s7,
           if bool_decide (sid = Some 9) then s9 + 1 else s9,
           if bool_decide (sid = Some 13) then s13 + 1 else s13)
  end.

(** Lines 531-546: the rows of the second sheet under its header. *)
Fixpoint exportSummary (year month : Z) (names : list string)
    (schedule : gmap Z DaySchedule) (ws : list Z) : completion (list SummaryRow) :=
  match ws with
  | [] => Normal []
  | w :: ws' =>
      '(workDays, offDays, s7, s9, s13) ←
        exportCount schedule w (monthDates year month) (0, 0, 0, 0, 0);
      rows ← exportSummary year month names schedule ws';
      Normal (mkSummaryRow (at_index names w) workDays offDays (workDays * 8)
                s7 s9 s13 :: rows)
  end.

(** Lines 462-546 of [exportToExcel]: nothing is built when no schedule was
    generated ([None], after the alert); otherwise the day rows of the first
    sheet and the rows of the second. The headers, the widths and the
    writing of the file are left out. *)
Definition exportToExcel (st : AppState)
    : completion (option (list DayRow * list SummaryRow)) :=
  match st_schedule st with
  | None => Normal None
  | Some schedule =>
      rows ← dayRows (st_year st) (st_month st) (st_names st) schedule;
      summaryRows ← exportSummary (st_year st) (st_month st) (st_names st)
                      schedule [0; 1; 2; 3];
      Normal (Some (rows, summaryRows))
  end.

(** *** [renderCalendar], and [generate] with its renderers *)

(** Lines 247-254: an entry of a cell of the calendar. [e_shift] is [None]
    for [null] (the worker off), and else [daySchedule.shifts[w]]: a shift,
    or [Some None] for [undefined]. [e_sortKey] is [None] for [undefined]. *)
Record Entry := mkEntry {
  e_worker : Z;
  e_shift : option (option Z);
  e_sortKey : option Z
}.

Definition calendarEntry (ds : DaySchedule) (w : Z) : Entry :=
  if bool_decide (w = off ds)
  then mkEntry w None (Some 999)
  else mkEntry w (Some (shifts ds !! w)) (shifts ds !! w).

Definition calendarEntries (ds : DaySchedule) : list Entry :=
  calendarEntry ds <$> [0; 1; 2; 3].

(** Line 255: the comparison [a.sortKey - b.sortKey]; the result [NaN],
    with an [undefined] key, counts as 0 in [sort]. *)
Definition compareEntries (a b : Entry) : Z :=
  match e_sortKey a, e_sortKey b with
  | Some x, Some y => x - y
  | _, _ => 0
  end.

(** [entries.sort(...)]: the host's sort is stable, and this is the stable
    sort by insertion. With keys that are all numbers every host gives this
    order; with an [undefined] key the order is the host's choice, and only
    the elements matter to what is proved below (lemma [sortEntries_perm]). *)
Fixpoint insertEntry (x : Entry) (sorted : list Entry) : list Entry :=
  match sorted with
  | [] => [x]
  | y :: rest =>
      if compareEntries x y <? 0 then x :: y :: rest else y :: insertEntry x rest
  end.

Definition sortEntries (entries : list Entry) : list Entry :=
  foldl (λ sorted x, insertEntry x sorted) [] entries.

(** Lines 257-268: the line of an entry, the shift ([None] for the worker
    off) and the name. [SHIFTS.find(...)] is [undefined] when no shift has
    the identifier, and reading its [label] throws. *)
Definition entryLine (names : list string) (e : Entry)
    : completion (option Z * option string) :=
  match e_shift e with
  | None => Normal (None, at_index names (e_worker e))
  | Some shift =>
      shiftInfo ← defined (List.find (λ s, bool_decide (Some s = shift)) SHIFTS);
      Normal (Some shiftInfo, at_index names (e_worker e))
  end.

Fixpoint entryLines (names : list string) (entries : list Entry)
    : completion (list (option Z * option string)) :=
  match entries with
  | [] => Normal []
  | e :: entries' =>
      line ← entryLine names e;
      lines ← entryLines names entries';
      Normal (line :: lines)
  end.

(** A cell of the calendar: the date, its day of the week and the lines of
    its entries. *)
Record CalendarCell := mkCalendarCell {
  c_date : Z; c_dow : option Z; c_lines : list (option Z * option string)
}.

(** Lines 229-272: a cell per day, with no line when the schedule has no
    entry for the day. The headers, the empty cells before day 1 and the
    mark of today are left out. *)
Fixpoint calendarCells (year month : Z) (names : list string)
    (schedule : gmap Z DaySchedule) (dates : list Z)
    : completion (list CalendarCell) :=
  match dates with
  | [] => Normal []
  | d :: dates' =>
      let dow := getDay (newDate year (month - 1) d) in
      lines ← match schedule !! d with
              | Some daySchedule =>
                  entryLines names (sortEntries (calendarEntries daySchedule))
              | None => Normal []
              end;
      cells ← calendarCells year month names schedule dates';
      Normal (mkCalendarCell d dow lines :: cells)
  end.

Definition renderCalendar (year month : Z) (names : list string)
    (schedule : gmap Z DaySchedule) : completion (list CalendarCell) :=
  calendarCells year month names schedule (monthDates year month).

(** Lines 404-459: the rows of the table. *)
Definition renderTable (year month : Z) (names : list string)
    (schedule : gmap Z DaySchedule) : completion (list DayRow) :=
  dayRows year month names schedule.

(** Lines 276-380: the number of weeks and the statistics of each worker;
    nothing in [renderSummary] throws. *)
Definition renderSummary (year month : Z) (names : list string)
    (schedule : gmap Z DaySchedule) : Z * list Stats :=
  (weekCount year month, summaryStats year month names schedule).

(** Lines 383-401: [generate] reads the names, calls [generateSchedule] and
    stores the schedule in [state], then renders. The result is the state it
    leaves and its completion: an error raised while rendering leaves the
    names and the schedule stored. What is written to the page is left
    out. *)
Definition generate (inputs : list string) (st : AppState)
    : AppState * completion unit :=
  let st1 := mkAppState (st_year st) (st_month st) (readNames inputs)
               (st_schedule st) in
  match generateSchedule (st_year st1) (st_month st1) with
  | Throw => (st1, Throw)
  | Normal schedule =>
      let st2 := mkAppState (st_year st1) (st_month st1) (st_names st1)
                   (Some schedule) in
      (st2,
       _ ← renderCalendar (st_year st2) (st_month st2) (st_names st2) schedule;
       _ ← renderTable (st_year st2) (st_month st2) (st_names st2) schedule;
       let _ := renderSummary (st_year st2) (st_month st2) (st_names st2) schedule in
       Normal tt)
  end.

(** ** Checks over the shapes of a month

    The run of [generateSchedule] depends on the month only through the day
    of the week [dow0] of its first day and its number of days [n]. What
    follows computes, for one such shape, the statistics that
    [renderSummary] derives from the schedule of the run, and checks them. *)

Definition monthRun (dow0 n : Z)
    : completion (list (list Z) * gmap Z DaySchedule) :=
  assignWeeks 0 (groupWeeks (monthDays dow0 n) [] []) (initialCounts, ∅).

Definition monthStats (dow0 n : Z) : completion (list (list Z) * list Stats) :=
  st ← monthRun dow0 n;
  Normal (st.1, (λ w, statsOfDates st.2 (seqZ 1 n) w None) <$> [0; 1; 2; 3]).

(** The final [shiftCounts] holds, for each worker, the three counts of
    shifts of the statistics. *)
Definition tallyAgrees (dow0 n : Z) : bool :=
  match monthStats dow0 n with
  | Normal (shiftCounts, stats) =>
      bool_decide (shiftCounts =
        (λ s, [stats_shift7 s; stats_shift9 s; stats_shift13 s]) <$> stats)
  | Throw => false
  end.

(** Every work day has one of the three shifts, each shift is held 7 to 9
    times and no two counts differ by more than 2. *)
Definition balancedStats (s : Stats) : bool :=
  (stats_shift7 s + stats_shift9 s + stats_shift13 s =? stats_workDays s) &&
  (7 <=? stats_shift7 s) && (stats_shift7 s <=? 9) &&
  (7 <=? stats_shift9 s) && (stats_shift9 s <=? 9) &&
  (7 <=? stats_shift13 s) && (stats_shift13 s <=? 9) &&
  (Z.abs (stats_shift7 s - stats_shift9 s) <=? 2) &&
  (Z.abs (stats_shift7 s - stats_shift13 s) <=? 2) &&
  (Z.abs (stats_shift9 s - stats_shift13 s) <=? 2).

Definition shiftsBalanced (dow0 n : Z) : bool :=
  match monthStats dow0 n with
  | Normal (_, stats) => forallb balancedStats stats
  | Throw => false
  end.

(** 7 to 10 days off and 21 to 24 work days, which add up to [n]; a
    longest rest of 2 or 3 days and two rests at least of 2 days or more. *)
Definition boundedStats (n : Z) (s : Stats) : bool :=
  (stats_workDays s + stats_offDays s =? n) &&
  (7 <=? stats_offDays s) && (stats_offDays s <=? 10) &&
  (21 <=? stats_workDays s) && (stats_workDays s <=? 24) &&
  (2 <=? stats_maxStreak s) && (stats_maxStreak s <=? 3) &&
  (2 <=? stats_consecutivePairs s).

Definition restsBounded (dow0 n : Z) : bool :=
  match monthStats dow0 n with
  | Normal (_, stats) => forallb (boundedStats n) stats
  | Throw => false
  end.

(** The sum of a column of the statistics. *)
Definition total (f : Stats → Z) (stats : list Stats) : Z :=
  foldr Z.add 0 (f <$> stats).

(** Over the four workers the days off add up to [n], and so does each
    count of shifts. *)
Definition totalsAgree (dow0 n : Z) : bool :=
  match monthStats dow0 n with
  | Normal (_, stats) =>
      (total stats_offDays stats =? n) && (total stats_shift7 stats =? n) &&
      (total stats_shift9 stats =? n) && (total stats_shift13 stats =? n) &&
      (total stats_workDays stats =? 3 * n)
  | Throw => false
  end.

(** ** The store

    [generateSchedule] once more, with the objects that it creates and
    then changes in place held in a store: the four rows of [shiftCounts]
    and the object [schedule]. A location stands for the identity of an
    object, and a new object takes a location that the store does not hold.
    The arrays that are only built and read ([days], [weeks], [perms]) and
    the object [shifts] of a day are values, as above. *)

Module Heap.

Abbreviation loc := positive.

(** What a location holds: an array of numbers, or an object whose keys
    are dates. *)
Inductive cell :=
| Numbers (elems : list Z)
| Entries (entries : gmap Z DaySchedule).

Abbreviation store := (gmap loc cell).

(** A computation on the store; the store it leaves is the one reached,
    also when it throws. *)
Definition Eff (A : Type) : Type := store → completion A * store.

#[global] Instance Eff_ret : MRet Eff := λ A a σ, (Normal a, σ).

#[global] Instance Eff_bind : MBind Eff := λ A B k m σ,
  match m σ with
  | (Normal a, σ') => k a σ'
  | (Throw, σ') => (Throw, σ')
  end.

Definition lift {A} (c : completion A) : Eff A := λ σ, (c, σ).

(** An array literal or [{}]: a new object, at a location not in use. *)
Definition alloc (c : cell) : Eff loc := λ σ,
  let l := fresh (dom σ) in (Normal l, <[l := c]> σ).

Definition readNumbers (l : loc) : Eff (list Z) := λ σ,
  match σ !! l with
  | Some (Numbers elems) => (Normal elems, σ)
  | _ => (Throw, σ)
  end.

(** [row[s]++] *)
Definition increment (l : loc) (s : nat) : Eff unit := λ σ,
  match σ !! l with
  | Some (Numbers elems) =>
      (Normal tt, <[l := Numbers (alter Z.succ s elems)]> σ)
  | _ => (Throw, σ)
  end.

(** [schedule[d] = ds] *)
Definition setEntry (l : loc) (d : Z) (ds : DaySchedule) : Eff unit := λ σ,
  match σ !! l with
  | Some (Entries entries) => (Normal tt, <[l := Entries (<[d := ds]> entries)]> σ)
  | _ => (Throw, σ)
  end.

(** [shiftCounts[perm[s]]], read in the store. *)
Definition countsRow (shiftCounts : list loc) (perm : list Z) (s : nat)
    : Eff (list Z) :=
  w ← lift (defined (perm !! s));
  row ← lift (defined (at_index shiftCounts w));
  readNumbers row.

Fixpoint addCounts (shiftCounts : list loc) (perm : list Z) (ss : list nat)
    (score : num) : Eff num :=
  match ss with
  | [] => mret score
  | s :: ss' =>
      row ← countsRow shiftCounts perm s;
      addCounts shiftCounts perm ss'
        (add score (match row !! s with Some c => ofZ c | None => NaN end))
  end.

Fixpoint addSpreads (shiftCounts : list loc) (perm : list Z) (ss : list nat)
    (score : num) : Eff num :=
  match ss with
  | [] => mret score
  | s :: ss' =>
      row ← countsRow shiftCounts perm s;
      addSpreads shiftCounts perm ss'
        (add score (mul (sub (Math_max row) (Math_min row)) tenth))
  end.

Definition scorePerm (shiftCounts : list loc) (perm : list Z) : Eff num :=
  score ← addCounts shiftCounts perm [0; 1; 2]%nat zero;
  addSpreads shiftCounts perm [0; 1; 2]%nat score.

Fixpoint pickBest (shiftCounts : list loc) (perms : list (list Z))
    (bestPerm : option (list Z)) (bestScore : num) : Eff (option (list Z)) :=
  match perms with
  | [] => mret bestPerm
  | perm :: perms' =>
      score ← scorePerm shiftCounts perm;
      if ltb score bestScore
      then pickBest shiftCounts perms' (Some perm) score
      else pickBest shiftCounts perms' bestPerm bestScore
  end.

(** Lines 174-177: [shifts] is the object of the day; the rows of
    [shiftCounts] are changed in the store. *)
Fixpoint commit (bestPerm : option (list Z)) (ss : list nat)
    (shifts : gmap Z Z) (shiftCounts : list loc) : Eff (gmap Z Z) :=
  match ss with
  | [] => mret shifts
  | s :: ss' =>
      perm ← lift (defined bestPerm);
      id ← lift (defined (SHIFTS !! s));
      w ← lift (defined (perm !! s));
      row ← lift (defined (at_index shiftCounts w));
      _ ← increment row s;
      commit bestPerm ss' (<[w := id]> shifts) shiftCounts
  end.

(** Lines 131-183, on the rows [shiftCounts] and the object [schedule]. *)
Definition assignDay (wi : Z) (day : Day) (shiftCounts : list loc)
    (schedule : loc) : Eff unit :=
  offWorker ← lift (findOffWorker wi (dayOfWeek day));
  let workingWorkers := filter (λ w, w ≠ offWorker) [0; 1; 2; 3] in
  let perms := permutations workingWorkers in
  bestPerm ← pickBest shiftCounts perms (perms !! 0%nat) Infinity;
  shifts ← commit bestPerm [0; 1; 2]%nat ∅ shiftCounts;
  setEntry schedule (date day) (mkDaySchedule offWorker shifts).

Fixpoint assignWeek (wi : Z) (week : list Day) (shiftCounts : list loc)
    (schedule : loc) : Eff unit :=
  match week with
  | [] => mret tt
  | day :: week' =>
      _ ← assignDay wi day shiftCounts schedule;
      assignWeek wi week' shiftCounts schedule
  end.

Fixpoint assignWeeks (wi : Z) (weeks : list (list Day)) (shiftCounts : list loc)
    (schedule : loc) : Eff unit :=
  match weeks with
  | [] => mret tt
  | week :: weeks' =>
      _ ← assignWeek wi week shiftCounts schedule;
      assignWeeks (wi + 1) weeks' shiftCounts schedule
  end.

(** Lines 98-187: [schedule] (line 100) and the rows of [shiftCounts]
    (lines 121-126) are new objects of the call; the array [shiftCounts]
    itself, which is never changed, is the list of the locations of its
    rows. The result is the reference to [schedule]. *)
Definition generateSchedule (year month : Z) : Eff loc :=
  let days := buildDays year month in
  schedule ← alloc (Entries ∅);
  let weeks := groupWeeks days [] [] in
  row0 ← alloc (Numbers [0; 0; 0]);
  row1 ← alloc (Numbers [0; 0; 0]);
  row2 ← alloc (Numbers [0; 0; 0]);
  row3 ← alloc (Numbers [0; 0; 0]);
  _ ← assignWeeks 0 weeks [row0; row1; row2; row3] schedule;
  mret schedule.

End Heap.

(** The rows at the locations [shiftCounts] are [counts]. *)
Definition holdsCounts (σ : Heap.store) (shiftCounts : list Heap.loc)
    (counts : list (list Z)) : Prop :=
  NoDup shiftCounts ∧
  Forall2 (λ l row, σ !! l = Some (Heap.Numbers row)) shiftCounts counts.

(** The state of the loops in the store: the rows hold [st.1], and the
    object at [schedule], which is none of the rows, holds [st.2]. *)
Definition holdsState (σ : Heap.store) (shiftCounts : list Heap.loc)
    (schedule : Heap.loc) (st : list (list Z) * gmap Z DaySchedule) : Prop :=
  holdsCounts σ shiftCounts (st.1) ∧ (schedule ∉ shiftCounts) ∧
  σ !! schedule = Some (Heap.Entries (st.2)).

(** * Properties *)

(** ** The calendar *)

Section Calendar.

Local Ltac zdiv := Z.to_euclidean_division_equations; lia.

Local Ltac bools :=
  repeat match goal with
  | H : negb _ = true |- _ => apply negb_true_iff in H
  | H : negb _ = false |- _ => apply negb_false_iff in H
  | H : (_ =? _) = true |- _ => apply Z.eqb_eq in H
  | H : (_ =? _) = false |- _ => apply Z.eqb_neq in H
  | H : (_ <? _) = true |- _ => apply Z.ltb_lt in H
  | H : (_ <? _) = false |- _ => apply Z.ltb_ge in H
  | H : (_ <=? _) = true |- _ => apply Z.leb_le in H
  | H : (_ <=? _) = false |- _ => apply Z.leb_gt in H
  end.

Lemma DaysInYear_range y : 365 <= DaysInYear y <= 366.
Proof. unfold DaysInYear. repeat case_match; lia. Qed.

Lemma InLeapYear_DaysInYear y : DaysInYear y = 365 + InLeapYear y.
Proof.
  unfold InLeapYear. pose proof (DaysInYear_range y).
  case_match; bools; lia.
Qed.

Lemma DayFromYear_succ y : DayFromYear (y + 1) = DayFromYear y + DaysInYear y.
Proof. unfold DayFromYear, DaysInYear. repeat case_match; bools; zdiv. Qed.

Lemma DayFromYear_mono y y' : y <= y' → DayFromYear y <= DayFromYear y'.
Proof. unfold DayFromYear. zdiv. Qed.

(** [YearFromDay] is the YearFromTime of ECMA-262. *)
Lemma YearFromDay_spec d :
  DayFromYear (YearFromDay d) <= d < DayFromYear (YearFromDay d + 1).
Proof.
  unfold YearFromDay. repeat case_match; bools; unfold DayFromYear in *; zdiv.
Qed.

Lemma YearFromDay_unique d y :
  DayFromYear y <= d < DayFromYear (y + 1) → YearFromDay d = y.
Proof.
  intros Hy. pose proof (YearFromDay_spec d) as Hs.
  destruct (Z.lt_trichotomy (YearFromDay d) y) as [Hlt | [-> | Hgt]]; [|done|].
  - pose proof (DayFromYear_mono (YearFromDay d + 1) y). lia.
  - pose proof (DayFromYear_mono (y + 1) (YearFromDay d)). lia.
Qed.

(** The date read back from the [k]-th day of year [y]. *)
Lemma YearFromDay_within y k :
  0 <= k < DaysInYear y → YearFromDay (DayFromYear y + k) = y.
Proof. intros Hk. apply YearFromDay_unique. rewrite DayFromYear_succ. lia. Qed.

Lemma DayFromYear_range y :
  -271821 < y < 275760 →
  -99999744 <= DayFromYear y ∧ DayFromYear (y + 1) <= 99999745.
Proof. unfold DayFromYear. zdiv. Qed.

Lemma InLeapYear_range y : 0 <= InLeapYear y <= 1.
Proof. unfold InLeapYear. case_match; lia. Qed.

Lemma monthLength_range m leap : 0 <= leap <= 1 → 28 <= monthLength m leap <= 31.
Proof. intros. unfold monthLength. repeat case_match; lia. Qed.

Local Ltac months m :=
  let H := fresh in
  assert (m = 0 ∨ m = 1 ∨ m = 2 ∨ m = 3 ∨ m = 4 ∨ m = 5 ∨ m = 6 ∨ m = 7 ∨
          m = 8 ∨ m = 9 ∨ m = 10 ∨ m = 11) as H by lia;
  destruct_or!; subst m.

Lemma MakeDay_month yr mn d :
  0 <= mn <= 11 →
  MakeDay yr mn d = DayFromYear yr + MonthStart mn (InLeapYear yr) + d - 1.
Proof.
  intros Hm. unfold MakeDay.
  by rewrite (Z.div_small mn 12), (Z.mod_small mn 12), Z.add_0_r by lia.
Qed.

(** Day 0 of the next month is the last day of this one. *)
Lemma MakeDay_zero yr m :
  1 <= m <= 12 →
  MakeDay yr m 0 = MakeDay yr (m - 1) (monthLength m (InLeapYear yr)).
Proof.
  intros Hm. rewrite (MakeDay_month yr (m - 1)) by lia.
  destruct (decide (m = 12)) as [-> | Hne].
  - unfold MakeDay. change (12 / 12) with 1. change (12 mod 12) with 0.
    rewrite DayFromYear_succ, InLeapYear_DaysInYear. simpl. lia.
  - rewrite MakeDay_month by lia.
    assert (∃ mn, mn = m - 1) as [mn Hmn] by eauto.
    replace m with (mn + 1) by lia. replace (mn + 1 - 1) with mn by lia.
    assert (0 <= mn <= 10) as Hr by lia. clear Hmn Hm Hne.
    assert (mn = 0 ∨ mn = 1 ∨ mn = 2 ∨ mn = 3 ∨ mn = 4 ∨ mn = 5 ∨ mn = 6 ∨
            mn = 7 ∨ mn = 8 ∨ mn = 9 ∨ mn = 10) as Hc by lia.
    destruct_or!; subst mn; simpl; lia.
Qed.

Lemma MonthStart_within mn leap d :
  0 <= mn <= 11 → 0 <= leap <= 1 → 1 <= d <= monthLength (mn + 1) leap →
  0 <= MonthStart mn leap + d - 1 < 365 + leap.
Proof. intros Hm Hl. months mn; simpl; lia. Qed.

(** Reading back the day of the month of a date built by [MakeDay]. *)
Lemma DateFromDay_MakeDay yr mn d :
  0 <= mn <= 11 → 1 <= d <= monthLength (mn + 1) (InLeapYear yr) →
  DateFromDay (MakeDay yr mn d) = d.
Proof.
  intros Hm Hd. pose proof (InLeapYear_range yr) as Hl.
  pose proof (MonthStart_within mn _ d Hm Hl Hd) as Hk.
  rewrite MakeDay_month by done.
  set (k := MonthStart mn (InLeapYear yr) + d - 1) in *.
  replace (DayFromYear yr + MonthStart mn (InLeapYear yr) + d - 1)
    with (DayFromYear yr + k) by (unfold k; lia).
  assert (YearFromDay (DayFromYear yr + k) = yr) as Hy
    by (apply YearFromDay_within; rewrite InLeapYear_DaysInYear; lia).
  unfold DateFromDay, MonthFromDay, DayWithinYear. rewrite Hy.
  replace (DayFromYear yr + k - DayFromYear yr) with k by lia.
  unfold k in *. clear k Hy Hk.
  months mn; simpl in Hd |- *; repeat case_match; bools; simpl; lia.
Qed.

Lemma MakeDay_range yr mn d :
  -271821 < yr < 275760 → 0 <= mn <= 11 →
  1 <= d <= monthLength (mn + 1) (InLeapYear yr) →
  TimeClip (MakeDay yr mn d) = Some (MakeDay yr mn d).
Proof.
  intros Hy Hm Hd. pose proof (InLeapYear_range yr) as Hl.
  pose proof (MonthStart_within mn _ d Hm Hl Hd) as Hk.
  pose proof (DayFromYear_range yr Hy) as Hr.
  rewrite DayFromYear_succ, InLeapYear_DaysInYear in Hr.
  unfold TimeClip. rewrite MakeDay_month by done.
  case_match; bools; [done | lia].
Qed.

Lemma WeekDay_range d : 0 <= WeekDay d <= 6.
Proof. unfold WeekDay. zdiv. Qed.

Lemma WeekDay_MakeDay yr mn d :
  WeekDay (MakeDay yr mn d) = (WeekDay (MakeDay yr mn 1) + d - 1) mod 7.
Proof. unfold WeekDay, MakeDay. zdiv. Qed.

Lemma fullYear_range year :
  -271821 < year < 275760 → -271821 < fullYear year < 275760.
Proof. unfold fullYear. case_match; lia. Qed.

Lemma daysInMonth_usable year month :
  usable year month →
  daysInMonth year month = Some (monthLength month (InLeapYear (fullYear year))).
Proof.
  intros [Hy Hm]. apply fullYear_range in Hy.
  unfold daysInMonth, newDate.
  pose proof (monthLength_range month _ (InLeapYear_range (fullYear year))) as Hn.
  rewrite MakeDay_zero by done.
  rewrite MakeDay_range by (rewrite ?Z.sub_add; lia). simpl.
  by rewrite DateFromDay_MakeDay by (rewrite ?Z.sub_add; lia).
Qed.

(** The days of a usable month: 28 to 31 of them, numbered from 1, on
    consecutive days of the week. *)
Lemma buildDays_usable year month :
  usable year month →
  ∃ dow0 n, 0 <= dow0 <= 6 ∧ 28 <= n <= 31 ∧
    daysInMonth year month = Some n ∧ buildDays year month = monthDays dow0 n.
Proof.
  intros Hu. pose proof (daysInMonth_usable _ _ Hu) as Hn.
  destruct Hu as [Hy Hm]. apply fullYear_range in Hy.
  pose proof (monthLength_range month _ (InLeapYear_range (fullYear year))) as Hr.
  exists (WeekDay (MakeDay (fullYear year) (month - 1) 1)),
    (monthLength month (InLeapYear (fullYear year))).
  split; [apply WeekDay_range|]. split; [done|]. split; [done|].
  unfold buildDays, monthDays. rewrite Hn.
  apply list_fmap_ext. intros i d Hd.
  apply lookup_seqZ in Hd as [-> Hi]. f_equal.
  unfold newDate.
  rewrite MakeDay_range by (rewrite ?Z.sub_add; lia). simpl.
  by rewrite WeekDay_MakeDay.
Qed.

End Calendar.

(** ** The rotation of the rest days *)

Section Rotation.

Lemma role_mod w wi : 0 <= w → 0 <= wi → role w wi = (w + wi) mod 4.
Proof. intros. unfold role. apply Z.rem_mod_nonneg; lia. Qed.

Lemma role_range w wi : 0 <= w → 0 <= wi → 0 <= role w wi <= 3.
Proof. intros. rewrite role_mod by done. Z.to_euclidean_division_equations; lia. Qed.

(** Roles repeat every four weeks. *)
Lemma role_period w wi : 0 <= w → 0 <= wi → role w wi = role w (wi mod 4).
Proof.
  intros Hw Hwi. rewrite !role_mod by (try done; apply Z.mod_pos; lia).
  by rewrite Zplus_mod_idemp_r.
Qed.

Lemma scanOff_period ws wi dow :
  Forall (λ w, 0 <= w) ws → 0 <= wi →
  scanOff ws wi dow = scanOff ws (wi mod 4) dow.
Proof.
  intros Hws Hwi. induction Hws as [|w ws Hw _ IH]; [done|].
  simpl. by rewrite <- role_period, IH.
Qed.

Lemma findOffWorker_period wi dow :
  0 <= wi → findOffWorker wi dow = findOffWorker (wi mod 4) dow.
Proof.
  intros. apply scanOff_period; [|done]. repeat constructor; lia.
Qed.

Lemma rests_period w wi dow :
  0 <= w → 0 <= wi → rests w wi dow = rests w (wi mod 4) dow.
Proof. intros. unfold rests. by rewrite <- role_period. Qed.

Local Ltac week_cases wi dow :=
  let k := fresh "k" in
  let Hk := fresh "Hk" in
  assert (0 <= wi mod 4 < 4) as Hk by (apply Z.mod_pos_bound; lia);
  set (k := wi mod 4) in *; clearbody k;
  assert (k = 0 ∨ k = 1 ∨ k = 2 ∨ k = 3) as ? by lia;
  assert (dow = 0 ∨ dow = 1 ∨ dow = 2 ∨ dow = 3 ∨ dow = 4 ∨ dow = 5 ∨ dow = 6)
    as ? by lia;
  destruct_or!; subst k dow.

(** The scan ends at a worker from 0 to 3, and that worker is the only
    one whose role rests on the day. *)
Lemma findOffWorker_spec wi dow :
  0 <= wi → 0 <= dow <= 6 →
  ∃ w, findOffWorker wi (Some dow) = Normal w ∧ 0 <= w <= 3 ∧
       ∀ w', 0 <= w' <= 3 → rests w' wi (Some dow) = true ↔ w' = w.
Proof.
  intros Hwi Hdow.
  rewrite findOffWorker_period by done.
  assert (∃ w, findOffWorker (wi mod 4) (Some dow) = Normal w ∧ 0 <= w <= 3 ∧
    ∀ w', 0 <= w' <= 3 → rests w' (wi mod 4) (Some dow) = true ↔ w' = w)
    as (w & Hf & Hw & Hu).
  { week_cases wi dow; (eexists; split; [vm_compute; reflexivity|]; split; [lia|]);
      intros w' Hw';
      assert (w' = 0 ∨ w' = 1 ∨ w' = 2 ∨ w' = 3) as ? by lia;
      destruct_or!; subst w'; vm_compute; split; (done || lia || congruence). }
  exists w. split; [done|]. split; [done|].
  intros w' Hw'. rewrite rests_period by lia. by apply Hu.
Qed.

End Rotation.

(** ** The enumeration of the orderings *)

Section Permutations.
Context {A : Type}.

Lemma length_without (arr : list A) i :
  (i < length arr)%nat →
  length (take i arr ++ drop (S i) arr) = Nat.pred (length arr).
Proof. intros. rewrite length_app, length_take, length_drop. lia. Qed.

(** The equation of the source: enough fuel is given. *)
Lemma permutations_unfold (arr : list A) :
  permutations arr =
    if (length arr <=? 1)%nat then [arr]
    else flat_map (λ i,
           match arr !! i with
           | Some x => (λ perm, x :: perm) <$>
                         permutations (take i arr ++ drop (S i) arr)
           | None => []
           end) (seq 0 (length arr)).
Proof.
  unfold permutations at 1. destruct arr as [|x arr]; [done|].
  cbn [length permutations_fuel]. case_match; [done|].
  rewrite !flat_map_concat_map. f_equal.
  apply map_ext_in. intros i Hi%in_seq. case_match; [|done].
  unfold permutations. by rewrite length_without by (simpl; lia).
Qed.

Lemma permutations_three (a b c : A) :
  permutations [a; b; c] =
    [[a; b; c]; [a; c; b]; [b; a; c]; [b; c; a]; [c; a; b]; [c; b; a]].
Proof. reflexivity. Qed.

End Permutations.

(** ** One day *)

Section OneDay.

Lemma bind_Normal {A B} (a : A) (k : A → completion B) : Normal a ≫= k = k a.
Proof. reflexivity. Qed.

Lemma at_index_Some {A} (l : list A) i :
  0 <= i < Z.of_nat (length l) → is_Some (at_index l i).
Proof.
  intros Hi. unfold at_index. case_match; [|lia].
  apply lookup_lt_is_Some. lia.
Qed.

(** The three workers on duty, in ascending order. *)
Lemma workingWorkers_cases o :
  0 <= o <= 3 →
  ∃ a b c, filter (λ w, w ≠ o) [0; 1; 2; 3] = [a; b; c] ∧
           0 <= a ∧ a < b ∧ b < c ∧ c <= 3 ∧ a ≠ o ∧ b ≠ o ∧ c ≠ o.
Proof.
  intros Ho. assert (o = 0 ∨ o = 1 ∨ o = 2 ∨ o = 3) as ? by lia.
  destruct_or!; subst o; eexists _, _, _; (split; [reflexivity|lia]).
Qed.

Lemma countsRow_Normal shiftCounts perm (s : nat) w :
  length shiftCounts = 4%nat → perm !! s = Some w → 0 <= w <= 3 →
  ∃ row, countsRow shiftCounts perm s = Normal row ∧
         at_index shiftCounts w = Some row.
Proof.
  intros Hlen Hs Hw. unfold countsRow. rewrite Hs. simpl.
  destruct (at_index_Some shiftCounts w) as [row Hrow]; [lia|].
  exists row. by rewrite Hrow.
Qed.

Lemma scorePerm_Normal shiftCounts a b c rest :
  length shiftCounts = 4%nat → 0 <= a <= 3 → 0 <= b <= 3 → 0 <= c <= 3 →
  ∃ score, scorePerm shiftCounts (a :: b :: c :: rest) = Normal score.
Proof.
  intros Hlen Ha Hb Hc.
  destruct (countsRow_Normal shiftCounts (a :: b :: c :: rest) 0 a) as (ra & Hra & _); [done..|].
  destruct (countsRow_Normal shiftCounts (a :: b :: c :: rest) 1 b) as (rb & Hrb & _); [done..|].
  destruct (countsRow_Normal shiftCounts (a :: b :: c :: rest) 2 c) as (rc & Hrc & _); [done..|].
  unfold scorePerm. cbn [addCounts addSpreads]. rewrite Hra, Hrb, Hrc. simpl. eauto.
Qed.

(** The loop keeps one of the orderings it has seen. *)
Lemma pickBest_elem shiftCounts perms best bestScore :
  Forall (λ perm, ∃ score, scorePerm shiftCounts perm = Normal score) perms →
  ∃ perm, pickBest shiftCounts perms (Some best) bestScore = Normal (Some perm) ∧
          perm ∈ best :: perms.
Proof.
  intros Hperms. revert best bestScore.
  induction Hperms as [|p perms [score Hp] _ IH]; intros best bestScore.
  - exists best. split; [done|]. apply elem_of_cons. by left.
  - simpl. rewrite Hp. simpl. case_match.
    + destruct (IH p score) as (perm & -> & Hperm).
      exists perm. split; [done|]. rewrite !elem_of_cons in *. tauto.
    + destruct (IH best bestScore) as (perm & -> & Hperm).
      exists perm. split; [done|]. rewrite !elem_of_cons in *. tauto.
Qed.

Lemma commit_three shiftCounts a b c rest :
  length shiftCounts = 4%nat → 0 <= a <= 3 → 0 <= b <= 3 → 0 <= c <= 3 →
  ∃ shiftCounts',
    commit (Some (a :: b :: c :: rest)) [0; 1; 2]%nat ∅ shiftCounts
      = Normal (shiftsOf (a :: b :: c :: rest), shiftCounts') ∧
    length shiftCounts' = 4%nat.
Proof.
  intros Hlen Ha Hb Hc. cbn [commit]. simpl.
  destruct (at_index_Some shiftCounts a) as [ra ->]; [lia|]. simpl.
  set (c1 := <[Z.to_nat a := _]> shiftCounts).
  assert (length c1 = 4%nat) as H1 by (unfold c1; by rewrite length_insert).
  destruct (at_index_Some c1 b) as [rb ->]; [lia|]. simpl.
  set (c2 := <[Z.to_nat b := _]> c1).
  assert (length c2 = 4%nat) as H2 by (unfold c2; by rewrite length_insert).
  destruct (at_index_Some c2 c) as [rc ->]; [lia|]. simpl.
  eexists. split; [reflexivity|]. by rewrite length_insert.
Qed.

Lemma permutations_working o perm :
  0 <= o <= 3 → perm ∈ permutations (filter (λ w, w ≠ o) [0; 1; 2; 3]) →
  ∃ a b c, perm = [a; b; c] ∧ 0 <= a <= 3 ∧ 0 <= b <= 3 ∧ 0 <= c <= 3 ∧
           a ≠ b ∧ a ≠ c ∧ b ≠ c ∧ a ≠ o ∧ b ≠ o ∧ c ≠ o.
Proof.
  intros Ho Hperm.
  destruct (workingWorkers_cases o Ho) as (a & b & c & Hww & Hr).
  rewrite Hww, permutations_three in Hperm.
  repeat (apply elem_of_cons in Hperm as [-> | Hperm]);
    [eexists _, _, _; (split; [reflexivity| lia]) ..|].
  by apply elem_of_nil in Hperm.
Qed.

(** The loop body succeeds on a day with a day of the week, and records
    the worker the scan found and an ordering of the three others. *)
Lemma assignDay_entry wi day dow shiftCounts schedule :
  0 <= wi → dayOfWeek day = Some dow → 0 <= dow <= 6 →
  length shiftCounts = 4%nat →
  ∃ shiftCounts' ds,
    assignDay wi day (shiftCounts, schedule)
      = Normal (shiftCounts', <[date day := ds]> schedule) ∧
    length shiftCounts' = 4%nat ∧ entryOf wi day ds.
Proof.
  intros Hwi Hdow Hr Hlen.
  destruct (findOffWorker_spec wi dow Hwi Hr) as (o & Ho & Hor & _).
  unfold assignDay. rewrite Hdow, Ho, bind_Normal.
  set (perms := permutations (filter (λ w, w ≠ o) [0; 1; 2; 3])).
  assert (∀ perm, perm ∈ perms → ∃ a b c, perm = [a; b; c] ∧ 0 <= a <= 3 ∧
    0 <= b <= 3 ∧ 0 <= c <= 3) as Hperms.
  { intros perm Hp. destruct (permutations_working o perm Hor Hp)
      as (a & b & c & ? & ? & ? & ? & _). eauto 10. }
  assert (∃ p0, perms !! 0%nat = Some p0) as [p0 Hp0].
  { unfold perms. destruct (workingWorkers_cases o Hor) as (a & b & c & -> & _).
    rewrite permutations_three. eauto. }
  rewrite Hp0.
  destruct (pickBest_elem shiftCounts perms p0 Infinity) as (best & -> & Hbest).
  { apply Forall_forall. intros perm Hp.
    destruct (Hperms perm Hp) as (a & b & c & -> & ? & ? & ?).
    by apply scorePerm_Normal. }
  assert (best ∈ perms) as Hin.
  { apply elem_of_cons in Hbest as [-> | ?]; [|done].
    by apply list_elem_of_lookup_2 in Hp0. }
  destruct (Hperms best Hin) as (a & b & c & -> & Ha & Hb & Hc).
  destruct (commit_three shiftCounts a b c [] Hlen Ha Hb Hc) as (c' & Hcommit & Hlen').
  rewrite bind_Normal, Hcommit, bind_Normal.
  eexists c', (mkDaySchedule o _). split; [reflexivity|]. split; [done|].
  split; [by rewrite Hdow|]. exists [a; b; c]. split; done.
Qed.

End OneDay.

(** ** The partition into weeks *)

Section Weeks.

Lemma groupWeeks_concat days weeks currentWeek :
  concat (groupWeeks days weeks currentWeek) = concat weeks ++ currentWeek ++ days.
Proof.
  revert weeks currentWeek.
  induction days as [|day days IH]; intros weeks currentWeek; simpl.
  - destruct currentWeek; simpl; rewrite ?concat_app; simpl;
      by rewrite ?app_nil_r.
  - case_match; rewrite IH, ?concat_app; simpl;
      by rewrite ?app_nil_r, <- ?app_assoc.
Qed.

Lemma wellGrouped_snoc weeks currentWeek :
  currentWeek ≠ [] →
  wellGrouped (weeks ++ [currentWeek]) ↔
    Forall (λ week, week ≠ [] ∧ Forall (λ day, ¬ isSunday day) (tail week)) weeks ∧
    Forall (λ day, ¬ isSunday day) (tail currentWeek) ∧
    Forall (λ week, ∃ day, head week = Some day ∧ isSunday day) (tail weeks) ∧
    (weeks ≠ [] → ∃ day, head currentWeek = Some day ∧ isSunday day).
Proof.
  intros Hne. unfold wellGrouped.
  rewrite Forall_app, Forall_singleton.
  destruct weeks as [|week weeks]; simpl.
  - rewrite !Forall_nil. intuition congruence.
  - rewrite Forall_app, Forall_singleton. intuition congruence.
Qed.

Lemma groupWeeks_wellGrouped_acc days weeks currentWeek :
  currentWeek ≠ [] → wellGrouped (weeks ++ [currentWeek]) →
  wellGrouped (groupWeeks days weeks currentWeek).
Proof.
  revert weeks currentWeek.
  induction days as [|day days IH]; intros weeks currentWeek Hne HG; simpl.
  - destruct currentWeek; [done|]. done.
  - assert ((0 <? Z.of_nat (length currentWeek)) = true) as ->
      by (destruct currentWeek; [done|]; apply Z.ltb_lt; simpl; lia).
    rewrite andb_true_r. case_bool_decide as Hsun.
    + apply IH; [done|]. apply wellGrouped_snoc; [done|].
      apply wellGrouped_snoc in HG as (Hw & Hc & Ht & Hh); [|done].
      split_and!.
      * apply Forall_app. split; [done|]. by apply Forall_singleton.
      * done.
      * destruct weeks as [|week weeks]; simpl; [done|].
        apply Forall_app. split; [done|]. apply Forall_singleton. by apply Hh.
      * intros _. by exists day.
    + apply IH; [by destruct currentWeek|]. apply wellGrouped_snoc; [by destruct currentWeek|].
      apply wellGrouped_snoc in HG as (Hw & Hc & Ht & Hh); [|done].
      split_and!; [done| |done|].
      * destruct currentWeek as [|d0 cw]; [done|]. simpl in *.
        apply Forall_app. split; [done|]. by apply Forall_singleton.
      * intros Hweeks. destruct (Hh Hweeks) as (d0 & Hd0 & Hs).
        exists d0. split; [|done]. by destruct currentWeek.
Qed.

(** No week is empty, no day but the first of a week is a Sunday, and
    every week after the first starts on a Sunday. *)
Lemma groupWeeks_wellGrouped days : wellGrouped (groupWeeks days [] []).
Proof.
  destruct days as [|day days]; simpl.
  - by split.
  - rewrite andb_false_r. apply groupWeeks_wellGrouped_acc; [done|].
    split; simpl; repeat constructor; done.
Qed.

End Weeks.

(** ** The loops over the weeks and their days *)

Section Run.

Lemma assignDays_app visits1 visits2 st :
  assignDays (visits1 ++ visits2) st
    = assignDays visits1 st ≫= assignDays visits2.
Proof.
  revert st. induction visits1 as [|[wi day] visits1 IH]; intros st; [done|].
  simpl. destruct (assignDay wi day st) as [st'|]; [|done].
  rewrite !bind_Normal. apply IH.
Qed.

Lemma assignWeek_visits wi week st :
  assignWeek wi week st = assignDays ((λ day, (wi, day)) <$> week) st.
Proof.
  revert st. induction week as [|day week IH]; intros st; [done|].
  simpl. destruct (assignDay wi day st) as [st'|]; [|done].
  rewrite !bind_Normal. apply IH.
Qed.

(** The nested loops visit the days of [indexWeeks] in order. *)
Lemma assignWeeks_visits wi weeks st :
  assignWeeks wi weeks st = assignDays (indexWeeks wi weeks) st.
Proof.
  revert wi st. induction weeks as [|week weeks IH]; intros wi st; [done|].
  simpl. rewrite assignDays_app, assignWeek_visits.
  destruct (assignDays _ st) as [st'|]; [|done].
  rewrite !bind_Normal. apply IH.
Qed.

Lemma indexWeeks_days wi weeks : (indexWeeks wi weeks).*2 = concat weeks.
Proof.
  revert wi. induction weeks as [|week weeks IH]; intros wi; [done|].
  simpl. rewrite fmap_app, IH. f_equal.
  rewrite <- list_fmap_compose. by rewrite list_fmap_id.
Qed.

Lemma elem_of_indexWeeks wi weeks v :
  v ∈ indexWeeks wi weeks ↔
  ∃ (i : nat) week, weeks !! i = Some week ∧ v.2 ∈ week ∧ v.1 = wi + Z.of_nat i.
Proof.
  revert wi. induction weeks as [|week weeks IH]; intros wi; simpl.
  - split; [by intros ?%elem_of_nil|]. by intros (i & week & ? & _).
  - rewrite elem_of_app, list_elem_of_fmap, IH. split.
    + intros [(day & -> & Hday) | (i & wk & Hi & Hday & Hv)].
      * exists 0%nat, week. simpl. split_and!; [done..|lia].
      * exists (S i), wk. split_and!; [done..|lia].
    + intros (i & wk & Hi & Hday & Hv). destruct i as [|i]; simpl in Hi.
      * left. injection Hi as ->. exists v.2. split; [|done].
        destruct v as [v1 v2]. simpl in *. f_equal. lia.
      * right. exists i, wk. split_and!; [done..|lia].
Qed.

(** A run over days with distinct dates and with days of the week
    succeeds, and leaves at every date what its day recorded. *)
Lemma assignDays_entries visits shiftCounts schedule :
  length shiftCounts = 4%nat → Forall validVisit visits →
  NoDup (date <$> visits.*2) →
  ∃ shiftCounts' schedule',
    assignDays visits (shiftCounts, schedule) = Normal (shiftCounts', schedule') ∧
    length shiftCounts' = 4%nat ∧
    (∀ d, d ∉ date <$> visits.*2 → schedule' !! d = schedule !! d) ∧
    (∀ wi day, (wi, day) ∈ visits →
       ∃ ds, schedule' !! date day = Some ds ∧ entryOf wi day ds).
Proof.
  intros Hlen Hvalid. revert shiftCounts schedule Hlen.
  induction Hvalid as [|[wi day] visits (Hwi & dow & Hdow & Hr) _ IH];
    intros shiftCounts schedule Hlen Hnodup.
  - exists shiftCounts, schedule. split_and!; [done..|].
    by intros wi day ?%elem_of_nil.
  - rewrite !fmap_cons in *. cbn [assignDays snd].
    apply NoDup_cons in Hnodup as [Hfresh Hnodup].
    destruct (assignDay_entry wi day dow shiftCounts schedule)
      as (c1 & ds & -> & Hlen1 & Hentry); [done..|].
    destruct (IH c1 (<[date day := ds]> schedule) Hlen1 Hnodup)
      as (c' & s' & Hrun & Hlen' & Hkeep & Hentries).
    exists c', s'. rewrite bind_Normal. split_and!; [done..| |].
    + intros d Hd. apply not_elem_of_cons in Hd as [Hne Hd].
      rewrite Hkeep by done. by rewrite lookup_insert_ne.
    + intros wi' day' [Heq | Hin]%elem_of_cons.
      * injection Heq as -> ->. exists ds. split; [|done].
        rewrite Hkeep by done. by rewrite lookup_insert_eq.
      * by apply Hentries.
Qed.

(** The rows of [shiftCounts] keep their length. *)
Lemma commit_rows bestPerm ss shifts shiftCounts shifts' shiftCounts' (n : nat) :
  commit bestPerm ss shifts shiftCounts = Normal (shifts', shiftCounts') →
  Forall (λ row, length row = n) shiftCounts →
  Forall (λ row, length row = n) shiftCounts'.
Proof.
  revert shifts shiftCounts. induction ss as [|s ss IH]; intros shifts shiftCounts.
  - by intros [= _ <-].
  - cbn [commit]. destruct bestPerm as [perm|]; [|done].
    cbn [defined]. rewrite bind_Normal.
    destruct (SHIFTS !! s) as [id|]; [|done]. cbn [defined]. rewrite bind_Normal.
    destruct (perm !! s) as [w|]; [|done]. cbn [defined]. rewrite bind_Normal.
    destruct (at_index shiftCounts w) as [row|] eqn:Hrow; [|done].
    cbn [defined]. rewrite bind_Normal. intros Hrun Hrows. apply (IH _ _ Hrun).
    apply Forall_insert; [done|]. rewrite length_alter.
    unfold at_index in Hrow. case_match; [|done].
    by apply (proj1 (Forall_lookup _ _) Hrows (Z.to_nat w)).
Qed.

Lemma assignDay_rows wi day shiftCounts schedule shiftCounts' schedule' (n : nat) :
  assignDay wi day (shiftCounts, schedule) = Normal (shiftCounts', schedule') →
  Forall (λ row, length row = n) shiftCounts →
  Forall (λ row, length row = n) shiftCounts'.
Proof.
  unfold assignDay.
  destruct (findOffWorker wi (dayOfWeek day)) as [o|]; [|done]. rewrite bind_Normal.
  destruct (pickBest _ _ _ _) as [bestPerm|]; [|done]. rewrite bind_Normal.
  destruct (commit _ _ _ _) as [[shifts c']|] eqn:Hcommit; [|done].
  rewrite bind_Normal. intros [= <- _]. by apply (commit_rows _ _ _ _ _ _ _ Hcommit).
Qed.

Lemma assignDays_rows visits shiftCounts schedule shiftCounts' schedule' :
  assignDays visits (shiftCounts, schedule) = Normal (shiftCounts', schedule') →
  Forall (λ row, length row = 3%nat) shiftCounts →
  Forall (λ row, length row = 3%nat) shiftCounts'.
Proof.
  revert shiftCounts schedule.
  induction visits as [|[wi day] visits IH]; intros shiftCounts schedule.
  - by intros [= <- _].
  - cbn [assignDays].
    destruct (assignDay wi day (shiftCounts, schedule)) as [[c1 s1]|] eqn:Hday;
      [|done].
    rewrite bind_Normal. intros Hrun Hrows. apply (IH _ _ Hrun).
    by apply (assignDay_rows _ _ _ _ _ _ _ Hday).
Qed.

End Run.

(** ** A whole month *)

Section Month.

Lemma monthDays_dates dow0 n : date <$> monthDays dow0 n = seqZ 1 n.
Proof.
  unfold monthDays. rewrite <- list_fmap_compose. apply list_fmap_id.
Qed.

Lemma monthDays_dayOfWeek dow0 n day :
  day ∈ monthDays dow0 n →
  1 <= date day <= n ∧ dayOfWeek day = Some ((dow0 + date day - 1) mod 7).
Proof.
  intros (d & -> & Hd)%list_elem_of_fmap. apply elem_of_seqZ in Hd.
  simpl. split; [lia|done].
Qed.

Lemma shiftsOf_lookup a b c w :
  a ≠ b → a ≠ c → b ≠ c →
  shiftsOf [a; b; c] !! w =
    if decide (w = a) then Some 7
    else if decide (w = b) then Some 9
    else if decide (w = c) then Some 13
    else None.
Proof.
  intros Hab Hac Hbc. unfold shiftsOf.
  repeat case_decide; subst;
    rewrite ?lookup_insert_eq, ?lookup_insert_ne, ?lookup_insert_eq by done;
    done.
Qed.

(** What an entry recorded by the loop body says. *)
Lemma entryOf_invariant wi day dow ds :
  0 <= wi → dayOfWeek day = Some dow → 0 <= dow <= 6 → entryOf wi day ds →
  0 <= off ds <= 3 ∧
  (∀ w, 0 <= w <= 3 → rests w wi (Some dow) = true ↔ w = off ds) ∧
  (∀ w, is_Some (shifts ds !! w) ↔ 0 <= w <= 3 ∧ w ≠ off ds) ∧
  (∀ w id, shifts ds !! w = Some id → id ∈ SHIFTS) ∧
  (∀ w w' id, shifts ds !! w = Some id → shifts ds !! w' = Some id → w = w') ∧
  (∀ id, id ∈ SHIFTS → ∃ w, shifts ds !! w = Some id).
Proof.
  intros Hwi Hdow Hr [Hoff (perm & Hperm & Hshifts)].
  destruct (findOffWorker_spec wi dow Hwi Hr) as (o & Ho & Hor & Huniq).
  rewrite Hdow, Ho in Hoff. injection Hoff as Hoff. rewrite <- Hoff in *.
  destruct (permutations_working o perm Hor Hperm)
    as (a & b & c & -> & Ha & Hb & Hc & Hab & Hac & Hbc & Hao & Hbo & Hco).
  split; [done|]. split; [done|].
  assert (∀ w, shifts ds !! w =
    if decide (w = a) then Some 7 else if decide (w = b) then Some 9
    else if decide (w = c) then Some 13 else None) as Hl
    by (intros w; rewrite Hshifts; by apply shiftsOf_lookup).
  split_and!.
  - intros w. rewrite Hl. unfold is_Some.
    repeat case_decide; subst; (split; [intros [? ?]| intros ?]);
      first [done | lia | by eexists].
  - intros w id. rewrite Hl. unfold SHIFTS.
    repeat case_decide; intros [=]; subst; rewrite !elem_of_cons; tauto.
  - intros w w' id. rewrite !Hl.
    repeat case_decide; intros [=] [=]; subst; lia.
  - intros id. unfold SHIFTS. rewrite !elem_of_cons, elem_of_nil.
    intros [-> | [-> | [-> | []]]]; [exists a | exists b | exists c];
      rewrite Hl; repeat case_decide; done.
Qed.

(** The call for a usable month: the days are those of a month of 28 to
    31 days, the call succeeds, the schedule has exactly their dates, and
    at each date what the loop body recorded on its visit. *)
Lemma generateSchedule_usable year month :
  usable year month →
  ∃ dow0 n schedule,
    0 <= dow0 <= 6 ∧ 28 <= n <= 31 ∧
    daysInMonth year month = Some n ∧
    buildDays year month = monthDays dow0 n ∧
    (indexWeeks 0 (groupWeeks (buildDays year month) [] [])).*2 = monthDays dow0 n ∧
    generateSchedule year month = Normal schedule ∧
    (∀ d, is_Some (schedule !! d) ↔ 1 <= d <= n) ∧
    (∀ wi day,
       (wi, day) ∈ indexWeeks 0 (groupWeeks (buildDays year month) [] []) →
       validVisit (wi, day) ∧
       ∃ ds, schedule !! date day = Some ds ∧ entryOf wi day ds).
Proof.
  intros Hu.
  destruct (buildDays_usable year month Hu) as (dow0 & n & Hdow0 & Hn & Hdim & Hdays).
  set (visits := indexWeeks 0 (groupWeeks (buildDays year month) [] [])).
  assert (visits.*2 = monthDays dow0 n) as Hvis.
  { unfold visits. rewrite indexWeeks_days, groupWeeks_concat. simpl.
    by rewrite Hdays. }
  assert (Forall validVisit visits) as Hvalid.
  { apply Forall_forall. intros [wi day] Hv. split.
    - apply elem_of_indexWeeks in Hv as (i & _ & _ & _ & ->). simpl. lia.
    - assert (day ∈ visits.*2) as Hday
        by (apply list_elem_of_fmap; by exists (wi, day)).
      rewrite Hvis in Hday. apply monthDays_dayOfWeek in Hday as [_ Hd].
      eexists. split; [exact Hd|]. simpl. Z.to_euclidean_division_equations; lia. }
  destruct (assignDays_entries visits initialCounts ∅) as
    (c' & schedule & Hrun & _ & Hkeep & Hentries); [done|done| |].
  { rewrite Hvis, monthDays_dates. apply NoDup_seqZ. }
  exists dow0, n, schedule. do 5 (split; [done|]). split_and!.
  - unfold generateSchedule. cbv zeta. rewrite assignWeeks_visits.
    fold visits. by rewrite Hrun.
  - intros d. rewrite Hvis, monthDays_dates in Hkeep. split.
    + intros Hd. destruct (decide (1 <= d <= n)) as [|Hout]; [done|].
      rewrite Hkeep, lookup_empty in Hd; [by destruct Hd|].
      rewrite elem_of_seqZ. lia.
    + intros Hd.
      assert (d ∈ date <$> visits.*2) as (day & -> & Hday)%list_elem_of_fmap
        by (rewrite Hvis, monthDays_dates, elem_of_seqZ; lia).
      apply list_elem_of_fmap in Hday as ([wi day'] & -> & Hv).
      destruct (Hentries wi day' Hv) as (ds & Hds & _). by exists ds.
  - intros wi day Hv. split; [|by apply Hentries].
    by apply (proj1 (Forall_forall _ _) Hvalid).
Qed.

End Month.

(** ** The claims about the schedule of a month *)

Lemma usable_2026_02 : usable 2026 2.
Proof. unfold usable. lia. Qed.

(** Every date of the schedule is the date of a visited day. *)
Lemma schedule_entry year month schedule d ds :
  usable year month →
  generateSchedule year month = Normal schedule →
  schedule !! d = Some ds →
  ∃ wi day dow,
    (wi, day) ∈ indexWeeks 0 (groupWeeks (buildDays year month) [] []) ∧
    date day = d ∧ 0 <= wi ∧ dayOfWeek day = Some dow ∧ 0 <= dow <= 6 ∧
    entryOf wi day ds.
Proof.
  intros Hu Hgen Hd.
  destruct (generateSchedule_usable year month Hu)
    as (dow0 & n & schedule' & _ & _ & _ & _ & Hvis & Hgen' & Hdom & Hentries).
  rewrite Hgen in Hgen'. injection Hgen' as <-.
  assert (d ∈ date <$> monthDays dow0 n) as (day & -> & Hday)%list_elem_of_fmap.
  { rewrite monthDays_dates, elem_of_seqZ.
    assert (1 <= d <= n) by (apply Hdom; by rewrite Hd). lia. }
  rewrite <- Hvis in Hday. apply list_elem_of_fmap in Hday as ([wi day'] & -> & Hv).
  destruct (Hentries wi day' Hv) as ((Hwi & dow & Hdow & Hr) & ds' & Hds & Hentry).
  simpl in *. rewrite Hd in Hds. injection Hds as <-.
  exists wi, day', dow. done.
Qed.

(** C1. In every schedule that [generateSchedule] returns for a usable
    month, every day has one worker from 0 to 3 off, and the three other
    workers hold the shifts 7, 9 and 13, each shift held by exactly one. *)
Theorem day_invariant year month schedule d ds :
  usable year month →
  generateSchedule year month = Normal schedule →
  schedule !! d = Some ds →
  dayInvariant ds.
Proof.
  intros Hu Hgen Hd.
  destruct (schedule_entry year month schedule d ds Hu Hgen Hd)
    as (wi & day & dow & _ & _ & Hwi & Hdow & Hr & Hentry).
  destruct (entryOf_invariant wi day dow ds Hwi Hdow Hr Hentry)
    as (Hoff & _ & Hrest).
  by split.
Qed.

Lemma day_invariant_witness :
  ∃ schedule ds,
    generateSchedule 2026 2 = Normal schedule ∧ schedule !! 1 = Some ds ∧
    dayInvariant ds.
Proof.
  eexists _, _. split; [vm_compute; reflexivity|]. split; [vm_compute; reflexivity|].
  eapply (day_invariant 2026 2 _ 1); [exact usable_2026_02| |];
    vm_compute; reflexivity.
Defined.

(** C5. For a usable month the call raises nothing and returns a schedule
    whose dates are exactly 1 to the number of days of the month. *)
Theorem generateSchedule_complete year month :
  usable year month →
  ∃ n schedule,
    daysInMonth year month = Some n ∧
    n = monthLength month (InLeapYear (fullYear year)) ∧
    generateSchedule year month = Normal schedule ∧
    ∀ d, is_Some (schedule !! d) ↔ 1 <= d <= n.
Proof.
  intros Hu.
  destruct (generateSchedule_usable year month Hu)
    as (dow0 & n & schedule & _ & _ & Hn & _ & _ & Hgen & Hdom & _).
  exists n, schedule. split; [done|]. split; [|done].
  rewrite daysInMonth_usable in Hn by done. by injection Hn.
Qed.

Lemma generateSchedule_complete_witness :
  ∃ n schedule,
    daysInMonth 2026 2 = Some n ∧
    n = monthLength 2 (InLeapYear (fullYear 2026)) ∧
    generateSchedule 2026 2 = Normal schedule ∧
    ∀ d, is_Some (schedule !! d) ↔ 1 <= d <= n.
Proof. exact (generateSchedule_complete 2026 2 usable_2026_02). Defined.

Lemma includes_elem pattern dow :
  includes pattern (Some dow) = true ↔ dow ∈ pattern.
Proof.
  unfold includes. rewrite existsb_exists. split.
  - intros (x & Hx%list_elem_of_In & Heq%bool_decide_eq_true). by injection Heq as ->.
  - intros Hd. exists dow. split; [by apply list_elem_of_In|]. by apply bool_decide_eq_true.
Qed.

Lemma OFF_PATTERNS_role w wi :
  0 <= w → 0 <= wi →
  ∃ pattern, at_index OFF_PATTERNS (role w wi) = Some pattern ∧
             OFF_PATTERNS !! Z.to_nat ((w + wi) mod 4) = Some pattern.
Proof.
  intros Hw Hwi. pose proof (role_range w wi Hw Hwi) as Hr.
  rewrite <- role_mod by done. unfold at_index.
  assert (role w wi = 0 ∨ role w wi = 1 ∨ role w wi = 2 ∨ role w wi = 3) as Hc by lia.
  destruct_or!; rewrite Hc; simpl; eauto.
Qed.

Lemma rests_elem w wi dow pattern :
  at_index OFF_PATTERNS (role w wi) = Some pattern →
  rests w wi (Some dow) = true ↔ dow ∈ pattern.
Proof. intros Hp. unfold rests. rewrite Hp. apply includes_elem. Qed.

(** The four patterns partition the days of the week. *)
Lemma OFF_PATTERNS_partition dow :
  0 <= dow <= 6 →
  ∃ r, 0 <= r <= 3 ∧
    ∀ r', 0 <= r' <= 3 →
      (∃ pattern, at_index OFF_PATTERNS r' = Some pattern ∧ dow ∈ pattern) ↔ r' = r.
Proof.
  intros Hdow. exists (dow / 2). split; [Z.to_euclidean_division_equations; lia|].
  intros r' Hr'.
  assert (dow = 0 ∨ dow = 1 ∨ dow = 2 ∨ dow = 3 ∨ dow = 4 ∨ dow = 5 ∨ dow = 6)
    as ? by lia.
  assert (r' = 0 ∨ r' = 1 ∨ r' = 2 ∨ r' = 3) as ? by lia.
  destruct_or!; subst dow r'; split.
  all: try (intros (pattern & Hp & Hin); cbv in Hp; injection Hp as <-;
            rewrite ?elem_of_cons, ?elem_of_nil in Hin; cbv;
            first [reflexivity | exfalso; lia]).
  all: intros Heq;
    first [ exfalso; cbv in Heq; discriminate
          | eexists; split; [reflexivity|]; rewrite !elem_of_cons; auto ].
Qed.

(** The roles of the four workers in a week are the four roles. *)
Lemma role_permutation wi r :
  0 <= wi → 0 <= r <= 3 →
  ∃ w, 0 <= w <= 3 ∧ role w wi = r ∧
       ∀ w', 0 <= w' <= 3 → role w' wi = r → w' = w.
Proof.
  intros Hwi Hr. exists ((r - wi) mod 4).
  assert (0 <= (r - wi) mod 4 <= 3) as Hw by (Z.to_euclidean_division_equations; lia).
  split; [done|]. split.
  - rewrite role_mod by lia. Z.to_euclidean_division_equations; lia.
  - intros w' Hw'. rewrite role_mod by lia. Z.to_euclidean_division_equations; lia.
Qed.

(** C9. For a week index and a day of the week, the scan over the workers
    finds a worker from 0 to 3, the only one whose role rests that day: the
    four patterns partition the days of the week and the roles of the four
    workers are the four roles. No schedule of a usable month holds -1. *)
Theorem off_worker_found wi dow :
  0 <= wi → 0 <= dow <= 6 →
  (∃ r, 0 <= r <= 3 ∧
     ∀ r', 0 <= r' <= 3 →
       (∃ pattern, at_index OFF_PATTERNS r' = Some pattern ∧ dow ∈ pattern) ↔ r' = r) ∧
  (∀ r, 0 <= r <= 3 →
     ∃ w, 0 <= w <= 3 ∧ role w wi = r ∧
          ∀ w', 0 <= w' <= 3 → role w' wi = r → w' = w) ∧
  (∃ w, findOffWorker wi (Some dow) = Normal w ∧ 0 <= w <= 3 ∧ w ≠ -1 ∧
        ∀ w', 0 <= w' <= 3 → rests w' wi (Some dow) = true ↔ w' = w) ∧
  (∀ year month schedule d ds,
     usable year month → generateSchedule year month = Normal schedule →
     schedule !! d = Some ds → off ds ≠ -1).
Proof.
  intros Hwi Hdow. split_and!.
  - by apply OFF_PATTERNS_partition.
  - intros r Hr. by apply role_permutation.
  - destruct (findOffWorker_spec wi dow Hwi Hdow) as (w & Hw & Hr & Hu).
    exists w. split_and!; [done|lia|lia|lia|done].
  - intros year month schedule d ds Hu Hgen Hd.
    destruct (schedule_entry year month schedule d ds Hu Hgen Hd)
      as (wi' & day & dow' & _ & _ & Hwi' & Hdow' & Hr & Hentry).
    destruct (entryOf_invariant wi' day dow' ds Hwi' Hdow' Hr Hentry) as (Hoff & _).
    lia.
Qed.

Lemma off_worker_found_witness :
  (∃ r, 0 <= r <= 3 ∧
     ∀ r', 0 <= r' <= 3 →
       (∃ pattern, at_index OFF_PATTERNS r' = Some pattern ∧ 6 ∈ pattern) ↔ r' = r) ∧
  (∀ r, 0 <= r <= 3 →
     ∃ w, 0 <= w <= 3 ∧ role w 5 = r ∧
          ∀ w', 0 <= w' <= 3 → role w' 5 = r → w' = w) ∧
  (∃ w, findOffWorker 5 (Some 6) = Normal w ∧ 0 <= w <= 3 ∧ w ≠ -1 ∧
        ∀ w', 0 <= w' <= 3 → rests w' 5 (Some 6) = true ↔ w' = w) ∧
  (∀ year month schedule d ds,
     usable year month → generateSchedule year month = Normal schedule →
     schedule !! d = Some ds → off ds ≠ -1).
Proof. apply (off_worker_found 5 6); lia. Defined.

(** The worker in role [r] is the one the scan finds on the days of the
    pattern of [r]. *)
Lemma findOffWorker_role w wi dow pattern :
  0 <= w <= 3 → 0 <= wi → 0 <= dow <= 6 →
  at_index OFF_PATTERNS (role w wi) = Some pattern → dow ∈ pattern →
  findOffWorker wi (Some dow) = Normal w.
Proof.
  intros Hw Hwi Hdow Hp Hin.
  destruct (findOffWorker_spec wi dow Hwi Hdow) as (o & Ho & _ & Hu).
  rewrite Ho. f_equal. symmetry. apply Hu; [done|]. by apply (rests_elem _ _ _ pattern).
Qed.

(** The entry of a day visited in week [wi]. *)
Lemma week_entry year month schedule (i : nat) week day :
  usable year month → generateSchedule year month = Normal schedule →
  groupWeeks (buildDays year month) [] [] !! i = Some week → day ∈ week →
  ∃ ds dow, schedule !! date day = Some ds ∧ dayOfWeek day = Some dow ∧
            0 <= dow <= 6 ∧ entryOf (Z.of_nat i) day ds.
Proof.
  intros Hu Hgen Hweek Hday.
  destruct (generateSchedule_usable year month Hu)
    as (dow0 & n & schedule' & _ & _ & _ & _ & _ & Hgen' & _ & Hentries).
  rewrite Hgen in Hgen'. injection Hgen' as <-.
  destruct (Hentries (Z.of_nat i) day) as ((_ & dow & Hdow & Hr) & ds & Hds & Hentry).
  { apply elem_of_indexWeeks. exists i, week. simpl. split_and!; [done..|lia]. }
  exists ds, dow. done.
Qed.

(** C7. A worker in role 3 in week [wi] is in role 0 in week [wi + 1]: the
    scan finds this worker on the Saturday of week [wi] and on the Sunday
    and the Monday of week [wi + 1], and the schedule of a usable month
    marks the worker off on those days of its weeks [wi] and [wi + 1]. *)
Theorem saturday_sunday_monday w wi :
  0 <= w <= 3 → 0 <= wi → role w wi = 3 →
  role w (wi + 1) = 0 ∧
  findOffWorker wi (Some 6) = Normal w ∧
  findOffWorker (wi + 1) (Some 0) = Normal w ∧
  findOffWorker (wi + 1) (Some 1) = Normal w ∧
  (∀ year month schedule week day,
     usable year month → generateSchedule year month = Normal schedule →
     groupWeeks (buildDays year month) [] [] !! Z.to_nat wi = Some week →
     day ∈ week → dayOfWeek day = Some 6 →
     ∃ ds, schedule !! date day = Some ds ∧ off ds = w) ∧
  (∀ year month schedule week day,
     usable year month → generateSchedule year month = Normal schedule →
     groupWeeks (buildDays year month) [] [] !! Z.to_nat (wi + 1) = Some week →
     day ∈ week → dayOfWeek day = Some 0 ∨ dayOfWeek day = Some 1 →
     ∃ ds, schedule !! date day = Some ds ∧ off ds = w).
Proof.
  intros Hw Hwi Hrole.
  assert (role w (wi + 1) = 0) as Hnext.
  { rewrite role_mod in * by lia. Z.to_euclidean_division_equations; lia. }
  assert (findOffWorker wi (Some 6) = Normal w) as Hsat.
  { apply (findOffWorker_role w wi 6 [6]); [lia..| |by apply list_elem_of_singleton].
    by rewrite Hrole. }
  assert (∀ dow, dow = 0 ∨ dow = 1 → findOffWorker (wi + 1) (Some dow) = Normal w) as Hsun.
  { intros dow Hdow. apply (findOffWorker_role w (wi + 1) dow [0; 1]); [lia..| |].
    - by rewrite Hnext.
    - rewrite !elem_of_cons. tauto. }
  split_and!; [done|done|by apply Hsun; left|by apply Hsun; right| |].
  - intros year month schedule week day Hu Hgen Hweek Hday Hdow.
    destruct (week_entry year month schedule _ week day Hu Hgen Hweek Hday)
      as (ds & dow & Hds & Hdow' & _ & Hoff & _).
    exists ds. split; [done|]. rewrite Z2Nat.id, Hdow, Hsat in Hoff by done.
    by injection Hoff.
  - intros year month schedule week day Hu Hgen Hweek Hday Hdow.
    destruct (week_entry year month schedule _ week day Hu Hgen Hweek Hday)
      as (ds & dow & Hds & Hdow' & _ & Hoff & _).
    exists ds. split; [done|]. rewrite Z2Nat.id in Hoff by lia.
    destruct Hdow as [Hdow | Hdow]; rewrite Hdow, Hsun in Hoff by tauto;
      by injection Hoff.
Qed.

Lemma saturday_sunday_monday_witness :
  role 2 1 = 3 ∧ role 2 (1 + 1) = 0 ∧
  findOffWorker 1 (Some 6) = Normal 2 ∧
  findOffWorker (1 + 1) (Some 0) = Normal 2 ∧
  findOffWorker (1 + 1) (Some 1) = Normal 2.
Proof.
  assert (role 2 1 = 3) as H by reflexivity. split; [exact H|].
  destruct (saturday_sunday_monday 2 1) as (H1 & H2 & H3 & H4 & _); [lia|lia|exact H|].
  by split_and!.
Defined.



(** The weeks of a month of 28 to 31 days have at most 7 days. *)
Lemma monthDays_weeks_short dow0 n :
  0 <= dow0 <= 6 → 28 <= n <= 31 →
  Forall (λ week, (length week <= 7)%nat) (groupWeeks (monthDays dow0 n) [] []).
Proof.
  intros Hd Hn.
  assert (dow0 = 0 ∨ dow0 = 1 ∨ dow0 = 2 ∨ dow0 = 3 ∨ dow0 = 4 ∨ dow0 = 5 ∨ dow0 = 6)
    as ? by lia.
  assert (n = 28 ∨ n = 29 ∨ n = 30 ∨ n = 31) as ? by lia.
  destruct_or!; subst dow0 n; vm_compute; repeat constructor.
Qed.

(** C4. The days of a usable month are numbered 1 to the number of days of
    the month, each with its day of the week. The weeks, concatenated, are
    the days in order; no week is empty; a day starts a week exactly when it
    is a Sunday or the first day of the month; no week has more than 7 days. *)
Theorem calendar_partition year month :
  usable year month →
  let days := buildDays year month in
  let weeks := groupWeeks days [] [] in
  (∃ n, daysInMonth year month = Some n ∧
        n = monthLength month (InLeapYear (fullYear year)) ∧
        date <$> days = seqZ 1 n) ∧
  (∀ day, day ∈ days →
     dayOfWeek day = getDay (newDate year (month - 1) (date day)) ∧
     ∃ dow, dayOfWeek day = Some dow ∧ 0 <= dow <= 6) ∧
  concat weeks = days ∧
  (∀ (i j : nat) week day, weeks !! i = Some week → week !! j = Some day →
     j = 0%nat ↔ (dayOfWeek day = Some 0 ∨ (i = 0%nat ∧ j = 0%nat))) ∧
  (∀ week, week ∈ weeks → week ≠ [] ∧ (length week <= 7)%nat).
Proof.
  intros Hu days weeks.
  destruct (buildDays_usable year month Hu) as (dow0 & n & Hdow0 & Hn & Hdim & Hdays).
  pose proof (groupWeeks_wellGrouped days) as [Hin Hhead]. fold weeks in Hin, Hhead.
  split_and!.
  - exists n. split; [done|]. split.
    + rewrite daysInMonth_usable in Hdim by done. by injection Hdim.
    + unfold days. by rewrite Hdays, monthDays_dates.
  - intros day Hday. split.
    + unfold days, buildDays in Hday. rewrite Hdim in Hday.
      by apply list_elem_of_fmap in Hday as (d & -> & _).
    + unfold days in Hday. rewrite Hdays in Hday.
      apply monthDays_dayOfWeek in Hday as [_ Hd]. eexists. split; [exact Hd|].
      Z.to_euclidean_division_equations; lia.
  - unfold weeks. by rewrite groupWeeks_concat.
  - intros i j week day Hweek Hdaylk.
    pose proof (proj1 (Forall_lookup _ _) Hin i week Hweek) as [Hne Htail].
    split.
    + intros ->. destruct i as [|i]; [by right|]. left.
      assert (tail weeks !! i = Some week) as Ht by (by rewrite lookup_tail).
      destruct (proj1 (Forall_lookup _ _) Hhead i week Ht) as (d0 & Hd0 & Hsun).
      rewrite <- head_lookup in Hdaylk. by simplify_eq.
    + intros [Hsun | [_ ->]]; [|done]. destruct j as [|j]; [done|]. exfalso.
      assert (tail week !! j = Some day) as Ht by (by rewrite lookup_tail).
      by apply (proj1 (Forall_lookup _ _) Htail j day Ht).
  - intros week Hweek. split.
    + by apply (proj1 (Forall_forall _ _) Hin week Hweek).
    + unfold weeks, days in Hweek. rewrite Hdays in Hweek.
      by apply (proj1 (Forall_forall _ _) (monthDays_weeks_short dow0 n Hdow0 Hn)).
Qed.

Lemma calendar_partition_witness :
  let days := buildDays 2026 1 in
  let weeks := groupWeeks days [] [] in
  (∃ n, daysInMonth 2026 1 = Some n ∧
        n = monthLength 1 (InLeapYear (fullYear 2026)) ∧
        date <$> days = seqZ 1 n) ∧
  (∀ day, day ∈ days →
     dayOfWeek day = getDay (newDate 2026 (1 - 1) (date day)) ∧
     ∃ dow, dayOfWeek day = Some dow ∧ 0 <= dow <= 6) ∧
  concat weeks = days ∧
  (∀ (i j : nat) week day, weeks !! i = Some week → week !! j = Some day →
     j = 0%nat ↔ (dayOfWeek day = Some 0 ∨ (i = 0%nat ∧ j = 0%nat))) ∧
  (∀ week, week ∈ weeks → week ≠ [] ∧ (length week <= 7)%nat).
Proof. apply (calendar_partition 2026 1). unfold usable. lia. Defined.

(** January 2026 starts on a Thursday: its first week has 3 days and its
    last, like the others, 7. *)
Example weeks_2026_01 :
  length <$> groupWeeks (buildDays 2026 1) [] [] = [3; 7; 7; 7; 7]%nat.
Proof. reflexivity. Qed.

(** ** The four-week cycle *)

Section Cycle.

Lemma length_filter_fmap {A B} (f : A → B) (P : A → Prop) (Q : B → Prop)
  `{!∀ x, Decision (P x), !∀ y, Decision (Q y)} (l : list A) :
(∀ x, x ∈ l → P x ↔ Q (f x)) →
length (filter P l) = length (filter Q (f <$> l)).
Proof.
induction l as [|x l IH]; intros Hext; [done|].
rewrite fmap_cons, !filter_cons.
assert (P x ↔ Q (f x)) as Hx by (apply Hext, list_elem_of_here).
assert (length (filter P l) = length (filter Q (f <$> l))) as Hl
  by (apply IH; intros y Hy; by apply Hext, list_elem_of_further).
repeat case_decide; simpl; first [lia | tauto].
Qed.

Lemma length_filter_complement {A} (P Q : A → Prop)
  `{!∀ x, Decision (P x), !∀ x, Decision (Q x)} (l : list A) :
(∀ x, x ∈ l → Q x ↔ ¬ P x) →
(length (filter P l) + length (filter Q l) = length l)%nat.
Proof.
induction l as [|x l IH]; intros Hext; [done|].
rewrite !filter_cons.
assert (Q x ↔ ¬ P x) as Hx by (apply Hext, list_elem_of_here).
assert (length (filter P l) + length (filter Q l) = length l)%nat as Hl
  by (apply IH; intros y Hy; by apply Hext, list_elem_of_further).
repeat case_decide; simpl; first [lia | tauto].
Qed.

Lemma offDays_period wi w : 0 <= wi → offDays wi w = offDays (wi mod 4) w.
Proof.
intros Hwi. unfold offDays. f_equal. apply list_filter_iff.
intros dow. by rewrite findOffWorker_period.
Qed.

(** Four consecutive weeks give a worker 2 + 2 + 2 + 1 days of rest. *)
Lemma offDays_cycle wi w :
0 <= wi → 0 <= w <= 3 →
(offDays wi w + offDays (wi + 1) w + offDays (wi + 2) w + offDays (wi + 3) w = 7)%nat.
Proof.
intros Hwi Hw.
rewrite (offDays_period wi), (offDays_period (wi + 1)),
  (offDays_period (wi + 2)), (offDays_period (wi + 3)) by lia.
rewrite <- (Zplus_mod_idemp_l wi 1), <- (Zplus_mod_idemp_l wi 2),
  <- (Zplus_mod_idemp_l wi 3).
assert (0 <= wi mod 4 < 4) as Hk by (apply Z.mod_pos_bound; lia).
set (k := wi mod 4) in *. clearbody k.
assert (k = 0 ∨ k = 1 ∨ k = 2 ∨ k = 3) as ? by lia.
assert (w = 0 ∨ w = 1 ∨ w = 2 ∨ w = 3) as ? by lia.
destruct_or!; subst k w; reflexivity.
Qed.

(** A week of 7 days of a month runs from Sunday to Saturday. *)
Lemma monthDays_full_weeks dow0 n :
0 <= dow0 <= 6 → 28 <= n <= 31 →
Forall (λ week, length week = 7%nat →
                dayOfWeek <$> week = Some <$> [0; 1; 2; 3; 4; 5; 6])
  (groupWeeks (monthDays dow0 n) [] []).
Proof.
intros Hd Hn.
assert (dow0 = 0 ∨ dow0 = 1 ∨ dow0 = 2 ∨ dow0 = 3 ∨ dow0 = 4 ∨ dow0 = 5 ∨ dow0 = 6)
  as ? by lia.
assert (n = 28 ∨ n = 29 ∨ n = 30 ∨ n = 31) as ? by lia.
destruct_or!; subst dow0 n; apply (bool_decide_unpack _); vm_compute; exact I.
Qed.

Lemma week_rest_count (schedule : gmap Z DaySchedule) wi week w :
dayOfWeek <$> week = Some <$> [0; 1; 2; 3; 4; 5; 6] →
(∀ day, day ∈ week →
   ∃ ds, schedule !! date day = Some ds ∧
         findOffWorker wi (dayOfWeek day) = Normal (off ds)) →
length (filter (λ day, off <$> schedule !! date day = Some w) week) = offDays wi w.
Proof.
intros Hfull Hentries. unfold offDays. rewrite <- Hfull.
apply (length_filter_fmap dayOfWeek). intros day Hday.
destruct (Hentries day Hday) as (ds & -> & ->). simpl. split; congruence.
Qed.

End Cycle.

(** In the schedule of a usable month, over four consecutive weeks of 7
    days each, a worker is off on 7 days and holds a shift on 21. *)
Lemma month_window_count year month schedule pre window post w :
  usable year month →
  generateSchedule year month = Normal schedule →
  groupWeeks (buildDays year month) [] [] = pre ++ window ++ post →
  length window = 4%nat → Forall (λ week, length week = 7%nat) window →
  0 <= w <= 3 →
  length (filter (λ day, off <$> schedule !! date day = Some w)
            (concat window)) = 7%nat ∧
  length (filter (λ day, is_Some (schedule !! date day ≫= λ ds, shifts ds !! w))
            (concat window)) = 21%nat.
Proof.
  intros Hu Hgen Hweeks Hlen Hseven Hw.
  destruct (buildDays_usable year month Hu) as (dow0 & n & Hdow0 & Hn & _ & Hdays).
  pose proof (monthDays_full_weeks dow0 n Hdow0 Hn) as Hfull.
  rewrite <- Hdays, Hweeks in Hfull.
  apply Forall_app in Hfull as [_ [Hfull _]%Forall_app].
  set (p := length pre).
  assert (∀ (j : nat) week day, window !! j = Some week → day ∈ week →
    ∃ ds dow, schedule !! date day = Some ds ∧ dayOfWeek day = Some dow ∧
              0 <= dow <= 6 ∧ entryOf (Z.of_nat p + Z.of_nat j) day ds) as Hentries.
  { intros j week day Hj Hday.
    destruct (week_entry year month schedule (p + j) week day Hu Hgen)
      as (ds & dow & H); [|done|].
    - rewrite Hweeks, lookup_app_r by (unfold p; lia).
      replace (p + j - length pre)%nat with j by (unfold p; lia).
      by apply lookup_app_l_Some.
    - exists ds, dow. by rewrite <- Nat2Z.inj_add. }
  destruct window as [|w0 [|w1 [|w2 [|w3 [|]]]]]; try done.
  apply Forall_cons in Hseven as [H0 [H1 [H2 [H3 _]%Forall_cons]%Forall_cons]%Forall_cons].
  apply Forall_cons in Hfull as [F0 [F1 [F2 [F3 _]%Forall_cons]%Forall_cons]%Forall_cons].
  assert (∀ (j : nat) week, [w0; w1; w2; w3] !! j = Some week →
    length week = 7%nat → dayOfWeek <$> week = Some <$> [0; 1; 2; 3; 4; 5; 6] →
    length (filter (λ day, off <$> schedule !! date day = Some w) week)
      = offDays (Z.of_nat p + Z.of_nat j) w ∧
    (length (filter (λ day, off <$> schedule !! date day = Some w) week)
     + length (filter (λ day, is_Some (schedule !! date day ≫= λ ds, shifts ds !! w)) week)
     = 7)%nat) as Hweek.
  { intros j week Hj Hl Hf. split.
    - apply week_rest_count; [done|]. intros day Hday.
      destruct (Hentries j week day Hj Hday) as (ds & dow & Hds & _ & _ & Hoff & _).
      by exists ds.
    - rewrite <- Hl. apply length_filter_complement. intros day Hday.
      destruct (Hentries j week day Hj Hday) as (ds & dow & Hds & Hdow & Hr & Hentry).
      assert (0 <= Z.of_nat p + Z.of_nat j) as Hwi by lia.
      destruct (entryOf_invariant _ day dow ds Hwi Hdow Hr Hentry)
        as (_ & _ & Hdom & _).
      rewrite Hds. simpl. rewrite Hdom. split; [intros [_ ?]; congruence|].
      intros Hne. split; [done|]. congruence. }
  destruct (Hweek 0%nat w0 eq_refl (H0) (F0 H0)) as [C0 D0].
  destruct (Hweek 1%nat w1 eq_refl (H1) (F1 H1)) as [C1 D1].
  destruct (Hweek 2%nat w2 eq_refl (H2) (F2 H2)) as [C2 D2].
  destruct (Hweek 3%nat w3 eq_refl (H3) (F3 H3)) as [C3 D3].
  pose proof (offDays_cycle (Z.of_nat p) w (Nat2Z.is_nonneg p) Hw) as Hcycle.
  simpl concat. rewrite !filter_app, !length_app, !filter_nil. simpl length.
  change (Z.of_nat 0) with 0 in C0. rewrite Z.add_0_r in C0.
  change (Z.of_nat 1) with 1 in C1. change (Z.of_nat 2) with 2 in C2.
  change (Z.of_nat 3) with 3 in C3. lia.
Qed.

(** C6. Over four consecutive weeks, Sunday to Saturday, the scan finds
    every worker on exactly 7 days (2 + 2 + 2 + 1); and in the schedule of a
    usable month, over four consecutive weeks of 7 days each, every worker
    is off on exactly 7 days and holds a shift on exactly 21. *)
Theorem four_week_cycle w :
  0 <= w <= 3 →
  (∀ wi, 0 <= wi →
     (offDays wi w + offDays (wi + 1) w + offDays (wi + 2) w
      + offDays (wi + 3) w = 7)%nat) ∧
  (∀ year month schedule pre window post,
     usable year month →
     generateSchedule year month = Normal schedule →
     groupWeeks (buildDays year month) [] [] = pre ++ window ++ post →
     length window = 4%nat → Forall (λ week, length week = 7%nat) window →
     length (filter (λ day, off <$> schedule !! date day = Some w)
               (concat window)) = 7%nat ∧
     length (filter (λ day, is_Some (schedule !! date day ≫= λ ds, shifts ds !! w))
               (concat window)) = 21%nat).
Proof.
  intros Hw. split.
  - intros wi Hwi. by apply offDays_cycle.
  - intros year month schedule pre window post Hu Hgen Hweeks Hlen Hseven.
    by apply (month_window_count year month schedule pre window post).
Qed.

Lemma four_week_cycle_witness :
  (offDays 5 2 + offDays (5 + 1) 2 + offDays (5 + 2) 2 + offDays (5 + 3) 2 = 7)%nat ∧
  ∃ schedule,
    generateSchedule 2026 2 = Normal schedule ∧
    length (filter (λ day, off <$> schedule !! date day = Some 2)
              (concat (groupWeeks (buildDays 2026 2) [] []))) = 7%nat ∧
    length (filter (λ day, is_Some (schedule !! date day ≫= λ ds, shifts ds !! 2))
              (concat (groupWeeks (buildDays 2026 2) [] []))) = 21%nat.
Proof.
  destruct (four_week_cycle 2) as [Hscan Hmonth]; [lia|].
  split; [apply Hscan; lia|].
  eexists. split; [vm_compute; reflexivity|].
  apply (Hmonth 2026 2 _ [] (groupWeeks (buildDays 2026 2) [] []) []).
  - exact usable_2026_02.
  - vm_compute; reflexivity.
  - by rewrite app_nil_r.
  - reflexivity.
  - repeat constructor.
Defined.

(** ** The choice among the orderings *)

Section Choice.

(** Comparisons of binary64 numbers. *)
Lemma ltb_of_eqb (s s0 : num) : eqb s s0 = true → ltb s s0 = false.
Proof.
  unfold eqb, ltb, SFeqb, SFltb. by destruct (SFcompare s s0) as [[]|].
Qed.

Lemma ltb_Infinity_of_eqb (s s0 : num) :
  eqb s s0 = true → ltb s0 Infinity = false → ltb s Infinity = false.
Proof. by destruct s as [[]|[]| |[]], s0 as [[]|[]| |[]]. Qed.

(** The loop keeps [bestPerm] as long as no score is lower. *)
Lemma pickBest_keep shiftCounts perms bestPerm bestScore :
  Forall (λ perm, ∃ score, scorePerm shiftCounts perm = Normal score ∧
                           ltb score bestScore = false) perms →
  pickBest shiftCounts perms bestPerm bestScore = Normal bestPerm.
Proof.
  induction 1 as [|perm perms (score & Hs & Hlt) _ IH]; [done|].
  simpl. by rewrite Hs, bind_Normal, Hlt.
Qed.

(** When all the scores are equal the first ordering is kept. *)
Lemma pickBest_tie shiftCounts perm0 perms score0 :
  scorePerm shiftCounts perm0 = Normal score0 →
  Forall (λ perm, ∃ score, scorePerm shiftCounts perm = Normal score ∧
                           eqb score score0 = true) perms →
  pickBest shiftCounts (perm0 :: perms) (Some perm0) Infinity = Normal (Some perm0).
Proof.
  intros Hs0 Hperms. simpl. rewrite Hs0, bind_Normal.
  destruct (ltb score0 Infinity) eqn:Hinf; apply pickBest_keep;
    (eapply Forall_impl; [exact Hperms|]); intros perm (score & Hs & Heq);
    exists score; split; try done.
  - by apply ltb_of_eqb.
  - by apply (ltb_Infinity_of_eqb score score0).
Qed.

Lemma assignDay_tie wi day dow shiftCounts schedule o :
  0 <= wi → dayOfWeek day = Some dow → 0 <= dow <= 6 →
  length shiftCounts = 4%nat →
  findOffWorker wi (Some dow) = Normal o →
  (∀ p q sp sq,
     p ∈ permutations (filter (λ w, w ≠ o) [0; 1; 2; 3]) →
     q ∈ permutations (filter (λ w, w ≠ o) [0; 1; 2; 3]) →
     scorePerm shiftCounts p = Normal sp → scorePerm shiftCounts q = Normal sq →
     eqb sp sq = true) →
  ∃ a b c shiftCounts',
    filter (λ w, w ≠ o) [0; 1; 2; 3] = [a; b; c] ∧ a < b < c ∧
    assignDay wi day (shiftCounts, schedule) =
      Normal (shiftCounts',
              <[date day := mkDaySchedule o (<[c := 13]> (<[b := 9]> (<[a := 7]> ∅)))]>
                schedule).
Proof.
  intros Hwi Hdow Hr Hlen Ho Htie.
  destruct (findOffWorker_spec wi dow Hwi Hr) as (o' & Ho' & Hor & _).
  rewrite Ho in Ho'. injection Ho' as <-.
  destruct (workingWorkers_cases o Hor) as (a & b & c & Hww & Ha & Hab & Hbc & Hc & _).
  exists a, b, c. rewrite Hww in *. rewrite permutations_three in Htie.
  assert (∀ p, p ∈ [[a; b; c]; [a; c; b]; [b; a; c]; [b; c; a]; [c; a; b]; [c; b; a]] →
    ∃ s, scorePerm shiftCounts p = Normal s) as Hscore.
  { intros p Hp. repeat (apply elem_of_cons in Hp as [-> | Hp]);
      [apply scorePerm_Normal; (done || lia) ..|]. by apply elem_of_nil in Hp. }
  destruct (Hscore [a; b; c]) as [s0 Hs0]; [apply list_elem_of_here|].
  destruct (commit_three shiftCounts a b c [] Hlen) as (c' & Hcommit & _); [lia..|].
  exists c'. split; [done|]. split; [lia|].
  unfold assignDay. rewrite Hdow, Ho, bind_Normal, Hww, permutations_three.
  change (_ !! 0%nat) with (Some [a; b; c]).
  rewrite (pickBest_tie shiftCounts [a; b; c] _ s0 Hs0), bind_Normal, Hcommit; [done|].
  apply Forall_forall. intros p Hp.
  assert (p ∈ [[a; b; c]; [a; c; b]; [b; a; c]; [b; c; a]; [c; a; b]; [c; b; a]])
    as Hp' by (by apply list_elem_of_further).
  destruct (Hscore p Hp') as [s Hs]. exists s. split; [done|].
  apply (Htie p [a; b; c]); [done|apply list_elem_of_here|done|done].
Qed.

End Choice.

(** A property checked on every month of 28 to 31 days holds of each. *)
Lemma month_shapes (check : Z → Z → bool) :
  forallb (λ dow0, forallb (check dow0) (seqZ 28 4)) (seqZ 0 7) = true →
  ∀ dow0 n, 0 <= dow0 <= 6 → 28 <= n <= 31 → check dow0 n = true.
Proof.
  intros Hall dow0 n Hd Hn.
  rewrite forallb_forall in Hall.
  assert (In dow0 (seqZ 0 7)) as Hd' by (apply list_elem_of_In, elem_of_seqZ; lia).
  specialize (Hall dow0 Hd'). rewrite forallb_forall in Hall.
  apply Hall, list_elem_of_In, elem_of_seqZ. lia.
Qed.

(** On the first day of a month of 28 to 31 days the three workers on duty
    take the shifts in ascending order. *)
Lemma monthDays_first_day dow0 n schedule ds :
  0 <= dow0 <= 6 → 28 <= n <= 31 →
  assignWeeks 0 (groupWeeks (monthDays dow0 n) [] []) (initialCounts, ∅)
    ≫= (λ st, Normal st.2) = Normal schedule →
  schedule !! 1 = Some ds →
  shifts ds = shiftsOf (filter (λ w, w ≠ off ds) [0; 1; 2; 3]).
Proof.
  intros Hd Hn Hrun Hds.
  assert (firstDayAscending dow0 n = true) as Hcheck
    by (apply month_shapes; [vm_compute; reflexivity|done..]).
  unfold firstDayAscending in Hcheck. rewrite Hrun, Hds in Hcheck.
  by apply bool_decide_eq_true in Hcheck.
Qed.

(** C10. On a day on which the six orderings have equal scores, the three
    workers on duty take the shifts 7, 9 and 13 in ascending order of their
    indices; this is so on the first day of every usable month. *)
Theorem tie_ascending_order :
  (∀ wi day dow shiftCounts schedule o,
     0 <= wi → dayOfWeek day = Some dow → 0 <= dow <= 6 →
     length shiftCounts = 4%nat →
     findOffWorker wi (Some dow) = Normal o →
     (∀ p q sp sq,
        p ∈ permutations (filter (λ w, w ≠ o) [0; 1; 2; 3]) →
        q ∈ permutations (filter (λ w, w ≠ o) [0; 1; 2; 3]) →
        scorePerm shiftCounts p = Normal sp → scorePerm shiftCounts q = Normal sq →
        eqb sp sq = true) →
     ∃ a b c shiftCounts',
       filter (λ w, w ≠ o) [0; 1; 2; 3] = [a; b; c] ∧ a < b < c ∧
       assignDay wi day (shiftCounts, schedule) =
         Normal (shiftCounts',
                 <[date day := mkDaySchedule o
                                 (<[c := 13]> (<[b := 9]> (<[a := 7]> ∅)))]>
                   schedule)) ∧
  (∀ year month schedule ds,
     usable year month → generateSchedule year month = Normal schedule →
     schedule !! 1 = Some ds →
     ∃ a b c, filter (λ w, w ≠ off ds) [0; 1; 2; 3] = [a; b; c] ∧ a < b < c ∧
              shifts ds = <[c := 13]> (<[b := 9]> (<[a := 7]> ∅))).
Proof.
  split.
  - intros wi day dow shiftCounts schedule o. apply assignDay_tie.
  - intros year month schedule ds Hu Hgen Hds.
    destruct (buildDays_usable year month Hu) as (dow0 & n & Hdow0 & Hn & _ & Hdays).
    unfold generateSchedule in Hgen. rewrite Hdays in Hgen.
    pose proof (monthDays_first_day dow0 n schedule ds Hdow0 Hn Hgen Hds) as Hshifts.
    assert (0 <= off ds <= 3) as Hoff.
    { destruct (schedule_entry year month schedule 1 ds Hu)
        as (wi & day & dow & _ & _ & Hwi & Hdow & Hr & Hentry); [|done|].
      - unfold generateSchedule. by rewrite Hdays.
      - by destruct (entryOf_invariant wi day dow ds Hwi Hdow Hr Hentry). }
    destruct (workingWorkers_cases (off ds) Hoff)
      as (a & b & c & Hww & Ha & Hab & Hbc & _).
    exists a, b, c. rewrite Hshifts, Hww. split; [done|]. split; [lia|done].
Qed.

Lemma tie_ascending_order_witness :
  (∃ shiftCounts',
     assignDay 0 (mkDay 1 (Some 0)) (initialCounts, ∅) =
       Normal (shiftCounts',
               <[1 := mkDaySchedule 0 (<[3 := 13]> (<[2 := 9]> (<[1 := 7]> ∅)))]> ∅)) ∧
  (∃ schedule ds a b c,
     generateSchedule 2026 1 = Normal schedule ∧ schedule !! 1 = Some ds ∧
     filter (λ w, w ≠ off ds) [0; 1; 2; 3] = [a; b; c] ∧ a < b < c ∧
     shifts ds = <[c := 13]> (<[b := 9]> (<[a := 7]> ∅))).
Proof.
  destruct tie_ascending_order as [Htie Hfirst]. split.
  - destruct (Htie 0 (mkDay 1 (Some 0)) 0 initialCounts ∅ 0)
      as (a & b & c & shiftCounts' & Hww & _ & Hday);
      [lia|reflexivity|lia|reflexivity|reflexivity| |].
    + intros p q sp sq Hp Hq.
      change (permutations _) with
        [[1; 2; 3]; [1; 3; 2]; [2; 1; 3]; [2; 3; 1]; [3; 1; 2]; [3; 2; 1]] in Hp, Hq.
      repeat (apply elem_of_cons in Hp as [-> | Hp]); [..|by apply elem_of_nil in Hp];
        (repeat (apply elem_of_cons in Hq as [-> | Hq]);
         [..|by apply elem_of_nil in Hq]);
        intros [= <-] [= <-]; reflexivity.
    + exists shiftCounts'. injection Hww as <- <- <-. exact Hday.
  - eexists _, _.
    edestruct (Hfirst 2026 1) as (a & b & c & Hww & Hlt & Hshifts).
    + unfold usable. lia.
    + vm_compute. reflexivity.
    + vm_compute. reflexivity.
    + exists a, b, c. split; [vm_compute; reflexivity|].
      split; [vm_compute; reflexivity|]. split; [exact Hww|].
      split; [exact Hlt|exact Hshifts].
Defined.

(** ** Calls of the generator *)

(** ** The lowest score *)

Section LowestScore.

Lemma firstMin_singleton score perm : firstMin score [perm] 0 perm.
Proof.
  split; [done|]. intros [|j] q Hq; [|done]. injection Hq as <-.
  split; [apply Qle_refl|lia].
Qed.

Lemma firstMin_lower score perms i best perm :
  firstMin score perms i best → (score perm < score best)%Q →
  firstMin score (perms ++ [perm]) (length perms) perm.
Proof.
  intros [Hi Hmin] Hlt. split; [by apply list_lookup_middle|].
  intros j q Hq. apply lookup_app_Some in Hq as [Hq | [Hj Hq]].
  - destruct (Hmin j q Hq) as [Hle _].
    assert (score perm < score q)%Q by (by apply (Qlt_le_trans _ (score best))).
    split; [by apply Qlt_le_weak|done].
  - apply list_lookup_singleton_Some in Hq as [_ <-]. split; [apply Qle_refl|lia].
Qed.

Lemma firstMin_not_lower score perms i best perm :
  firstMin score perms i best → ¬ (score perm < score best)%Q →
  firstMin score (perms ++ [perm]) i best.
Proof.
  intros [Hi Hmin] Hge. split; [by apply lookup_app_l_Some|].
  intros j q Hq. apply lookup_app_Some in Hq as [Hq | [Hj Hq]]; [by apply Hmin|].
  apply list_lookup_singleton_Some in Hq as [_ <-].
  split; [by apply Qnot_lt_le|]. apply lookup_lt_Some in Hi. lia.
Qed.

(** The loop, from a best ordering of those seen so far on. *)
Lemma pickBest_firstMin_acc shiftCounts seen perms i best bestScore :
  firstMin (spec_score shiftCounts) seen i best →
  scorePerm shiftCounts best = Normal bestScore →
  (∀ p q, p ∈ seen ++ perms → q ∈ seen ++ perms →
     ∃ sp sq, scorePerm shiftCounts p = Normal sp ∧
              scorePerm shiftCounts q = Normal sq ∧
              (ltb sp sq = true ↔ (spec_score shiftCounts p < spec_score shiftCounts q)%Q)) →
  ∃ i' best',
    pickBest shiftCounts perms (Some best) bestScore = Normal (Some best') ∧
    firstMin (spec_score shiftCounts) (seen ++ perms) i' best'.
Proof.
  revert seen i best bestScore.
  induction perms as [|perm perms IH]; intros seen i best bestScore Hmin Hbest Hagree.
  - exists i, best. by rewrite app_nil_r.
  - assert (best ∈ seen ++ perm :: perms) as Hb.
    { apply elem_of_app. left. destruct Hmin as [Hi _]. by eapply list_elem_of_lookup_2. }
    assert (perm ∈ seen ++ perm :: perms) as Hp
      by (apply elem_of_app; right; apply list_elem_of_here).
    destruct (Hagree perm best Hp Hb) as (sp & sb & Hsp & Hsb & Hiff).
    rewrite Hbest in Hsb. injection Hsb as <-.
    simpl. rewrite Hsp, bind_Normal.
    rewrite (cons_middle perm seen perms), (assoc_L (++)) in Hagree |- *.
    destruct (ltb sp bestScore) eqn:Hlt.
    + apply (IH (seen ++ [perm]) (length seen)); [|done|done].
      apply (firstMin_lower _ _ i best); [done|]. by apply Hiff.
    + apply (IH (seen ++ [perm]) i); [|done|done].
      apply firstMin_not_lower; [done|]. intros Hx%Hiff. congruence.
Qed.

(** The loop of lines 153-172 ends with the first ordering of lowest score. *)
Lemma pickBest_firstMin shiftCounts perm0 perms :
  (∀ p q, p ∈ perm0 :: perms → q ∈ perm0 :: perms →
     ∃ sp sq, scorePerm shiftCounts p = Normal sp ∧
              scorePerm shiftCounts q = Normal sq ∧ ltb sp Infinity = true ∧
              (ltb sp sq = true ↔ (spec_score shiftCounts p < spec_score shiftCounts q)%Q)) →
  ∃ i best,
    pickBest shiftCounts (perm0 :: perms) (Some perm0) Infinity = Normal (Some best) ∧
    firstMin (spec_score shiftCounts) (perm0 :: perms) i best.
Proof.
  intros Hagree.
  destruct (Hagree perm0 perm0) as (s0 & _ & Hs0 & _ & Hfin & _);
    [apply list_elem_of_here..|].
  simpl. rewrite Hs0, bind_Normal, Hfin.
  apply (pickBest_firstMin_acc shiftCounts [perm0] perms 0 perm0 s0);
    [apply firstMin_singleton|done|].
  intros p q Hp Hq. destruct (Hagree p q Hp Hq) as (sp & sq & ? & ? & _ & ?).
  by exists sp, sq.
Qed.

Lemma scoresAgree_spec shiftCounts perms :
  scoresAgree shiftCounts perms = true →
  ∀ p q, p ∈ perms → q ∈ perms →
    ∃ sp sq, scorePerm shiftCounts p = Normal sp ∧
             scorePerm shiftCounts q = Normal sq ∧ ltb sp Infinity = true ∧
             (ltb sp sq = true ↔ (spec_score shiftCounts p < spec_score shiftCounts q)%Q).
Proof.
  unfold scoresAgree. cbv zeta.
  set (scored := (λ p, (scorePerm shiftCounts p, spec_score shiftCounts p)) <$> perms).
  rewrite forallb_forall. intros Hall p q Hp Hq.
  assert (∀ r, r ∈ perms →
    In (scorePerm shiftCounts r, spec_score shiftCounts r) scored) as Hscored.
  { intros r Hr. apply list_elem_of_In, list_elem_of_fmap. by exists r. }
  specialize (Hall _ (Hscored p Hp)). simpl in Hall.
  destruct (scorePerm shiftCounts p) as [sp|]; [|done].
  apply andb_true_iff in Hall as [Hfin Hall].
  rewrite forallb_forall in Hall.
  specialize (Hall _ (Hscored q Hq)). simpl in Hall.
  destruct (scorePerm shiftCounts q) as [sq|]; [|done].
  exists sp, sq. split_and!; [done..|]. by apply bool_decide_eq_true in Hall.
Qed.

Lemma scoresClose_spec shiftCounts perms :
  scoresClose shiftCounts perms = true →
  ∀ p, p ∈ perms →
    ∃ sp, scorePerm shiftCounts p = Normal sp ∧
          closeTo sp (spec_score shiftCounts p).
Proof.
  unfold scoresClose. rewrite forallb_forall. intros Hall p Hp.
  specialize (Hall p (proj1 (list_elem_of_In _ _) Hp)). cbv beta in Hall.
  destruct (scorePerm shiftCounts p) as [sp|]; [|done].
  destruct (toQ sp) as [r|] eqn:Hr; [|done].
  exists sp. split; [done|]. exists r. split; [done|]. by apply Qle_bool_iff.
Qed.

(** The spread part of the score is the same for the six orderings, whose
    candidates are the same whatever their slots: two scores differ by the
    difference of their counts. *)
Lemma spread_sum_constant shiftCounts a b c p q :
  p ∈ permutations [a; b; c] → q ∈ permutations [a; b; c] →
  (spec_score shiftCounts p - spec_score shiftCounts q ==
   inject_Z (baseOf shiftCounts p - baseOf shiftCounts q))%Q.
Proof.
  rewrite permutations_three. intros Hp Hq.
  repeat (apply elem_of_cons in Hp as [-> | Hp]); [..|by apply elem_of_nil in Hp];
    (repeat (apply elem_of_cons in Hq as [-> | Hq]); [..|by apply elem_of_nil in Hq]);
    unfold spec_score, baseOf, Z.sub, Qminus;
    rewrite ?inject_Z_plus, ?inject_Z_opp, ?inject_Z_plus; ring.
Qed.

(** The states on entry of the loop body are those of [preStates]. *)
Lemma preStates_lookup visits st (k : nat) wi day shiftCounts schedule :
  visits !! k = Some (wi, day) →
  assignDays (take k visits) st = Normal (shiftCounts, schedule) →
  (wi, day, shiftCounts) ∈ preStates visits st.
Proof.
  revert st k. induction visits as [|[wi0 day0] visits IH]; intros st k Hk Hrun; [done|].
  destruct k as [|k]; simpl in *.
  - injection Hk as -> ->. injection Hrun as ->. apply list_elem_of_here.
  - apply list_elem_of_further.
    destruct (assignDay wi0 day0 st) as [st'|]; [|done].
    rewrite bind_Normal in Hrun. by apply (IH st' k).
Qed.

Lemma monthDays_agrees dow0 n :
  0 <= dow0 <= 6 → 28 <= n <= 31 → monthAgrees dow0 n = true.
Proof. apply month_shapes. vm_compute. reflexivity. Qed.

End LowestScore.

(** C3. On every day of the run for a usable month, with [shiftCounts] as
    the loop body finds it: the candidates are the three workers not off;
    the orderings are enumerated as [a b c], [a c b], [b a c], [b c a],
    [c a b], [c b a]; the binary64 score of each is, within [10^-12], the
    counts of its three slots plus a tenth of each candidate's spread, and
    the binary64 scores order the orderings as these exact scores do; the
    ordering committed is the first of lowest score, and it is the one that
    the schedule [generateSchedule] returns holds for the day. *)
Theorem lowest_score_first year month (k : nat) wi day shiftCounts schedule :
  usable year month →
  indexWeeks 0 (groupWeeks (buildDays year month) [] []) !! k = Some (wi, day) →
  assignDays (take k (indexWeeks 0 (groupWeeks (buildDays year month) [] [])))
    (initialCounts, ∅) = Normal (shiftCounts, schedule) →
  ∃ o a b c,
    findOffWorker wi (dayOfWeek day) = Normal o ∧
    filter (λ w, w ≠ o) [0; 1; 2; 3] = [a; b; c] ∧
    let perms := [[a; b; c]; [a; c; b]; [b; a; c]; [b; c; a]; [c; a; b]; [c; b; a]] in
    permutations [a; b; c] = perms ∧
    (∀ p, p ∈ perms →
       ∃ sp, scorePerm shiftCounts p = Normal sp ∧
             closeTo sp (spec_score shiftCounts p)) ∧
    (∀ p q, p ∈ perms → q ∈ perms →
       ∃ sp sq, scorePerm shiftCounts p = Normal sp ∧
                scorePerm shiftCounts q = Normal sq ∧
                (ltb sp sq = true ↔
                 (spec_score shiftCounts p < spec_score shiftCounts q)%Q)) ∧
    ∃ (i : nat) best shiftCounts' final,
      perms !! i = Some best ∧
      (∀ (j : nat) q, perms !! j = Some q →
         (spec_score shiftCounts best <= spec_score shiftCounts q)%Q ∧
         ((j < i)%nat → (spec_score shiftCounts best < spec_score shiftCounts q)%Q)) ∧
      assignDay wi day (shiftCounts, schedule) =
        Normal (shiftCounts',
                <[date day := mkDaySchedule o (shiftsOf best)]> schedule) ∧
      generateSchedule year month = Normal final ∧
      final !! date day = Some (mkDaySchedule o (shiftsOf best)).
Proof.
  intros Hu Hk Hrun.
  destruct (generateSchedule_usable year month Hu)
    as (dow0 & n & final & Hdow0 & Hn & _ & Hdays & Hvis & Hgen & _ & Hvalid).
  set (visits := indexWeeks 0 (groupWeeks (buildDays year month) [] [])) in *.
  assert ((wi, day, shiftCounts) ∈ preStates visits (initialCounts, ∅)) as Hpre
    by (by apply (preStates_lookup _ _ k wi day shiftCounts schedule)).
  pose proof (monthDays_agrees dow0 n Hdow0 Hn) as Hall.
  unfold monthAgrees in Hall. rewrite forallb_forall in Hall.
  unfold visits in Hpre. rewrite Hdays in Hpre.
  specialize (Hall _ (proj1 (list_elem_of_In _ _) Hpre)). simpl in Hall.
  destruct (findOffWorker wi (dayOfWeek day)) as [o|] eqn:Ho; [|done].
  apply andb_true_iff in Hall as [[[Hor Hlen]%andb_true_iff Hagree]%andb_true_iff Hclose].
  apply bool_decide_eq_true in Hor, Hlen.
  destruct (workingWorkers_cases o Hor) as (a & b & c & Hww & Hr).
  rewrite Hww, permutations_three in Hagree, Hclose.
  pose proof (scoresAgree_spec _ _ Hagree) as Hscores.
  exists o, a, b, c. split; [done|]. split; [done|]. cbv zeta.
  split; [apply permutations_three|].
  split; [by apply scoresClose_spec|]. split.
  { intros p q Hp Hq. destruct (Hscores p q Hp Hq) as (sp & sq & ? & ? & _ & ?).
    by exists sp, sq. }
  destruct (pickBest_firstMin shiftCounts _ _ Hscores) as (i & best & Hpick & Hi & Hmin).
  assert (best ∈ permutations (filter (λ w, w ≠ o) [0; 1; 2; 3])) as Hbest.
  { rewrite Hww, permutations_three. by eapply list_elem_of_lookup_2. }
  destruct (permutations_working o best Hor Hbest)
    as (x & y & z & -> & Hx & Hy & Hz & _).
  destruct (commit_three shiftCounts x y z [] Hlen Hx Hy Hz) as (c' & Hcommit & Hlen').
  assert (assignDay wi day (shiftCounts, schedule) =
    Normal (c', <[date day := mkDaySchedule o (shiftsOf [x; y; z])]> schedule))
    as Hday.
  { unfold assignDay. rewrite Ho, bind_Normal, Hww, permutations_three.
    change (_ !! 0%nat) with (Some [a; b; c]).
    by rewrite Hpick, bind_Normal, Hcommit. }
  exists i, [x; y; z], c', final. do 4 (split; [done|]).
  (* the days after [day] leave its entry as it is *)
  pose proof (take_drop_middle visits k (wi, day) Hk) as Hsplit.
  assert (NoDup (date <$> visits.*2)) as Hnd
    by (rewrite Hvis, monthDays_dates; apply NoDup_seqZ).
  rewrite <- Hsplit, !fmap_app, !fmap_cons in Hnd.
  apply NoDup_app in Hnd as (_ & _ & Hnd). apply NoDup_cons in Hnd as [Hfresh Hnd].
  destruct (assignDays_entries (drop (S k) visits) c'
    (<[date day := mkDaySchedule o (shiftsOf [x; y; z])]> schedule))
    as (c'' & final' & Hrest & _ & Hkeep & _); [done| |done|].
  { apply Forall_forall. intros [wi' day'] Hv. apply Hvalid.
    rewrite <- Hsplit. apply elem_of_app. right. by apply list_elem_of_further. }
  unfold generateSchedule in Hgen. cbv zeta in Hgen.
  rewrite assignWeeks_visits in Hgen. fold visits in Hgen.
  rewrite <- Hsplit, assignDays_app, Hrun, bind_Normal in Hgen.
  cbn [assignDays] in Hgen. rewrite Hday, bind_Normal, Hrest, bind_Normal in Hgen.
  injection Hgen as <-. cbn [snd].
  rewrite Hkeep by done. apply lookup_insert_eq.
Qed.

Lemma lowest_score_first_witness :
  let shiftCounts := [[0; 0; 0]; [1; 0; 0]; [0; 1; 0]; [0; 0; 1]] in
  let schedule := <[1 := mkDaySchedule 0 (shiftsOf [1; 2; 3])]> ∅ in
  assignDays (take 1 (indexWeeks 0 (groupWeeks (buildDays 2026 2) [] [])))
    (initialCounts, ∅) = Normal (shiftCounts, schedule) ∧
  ∃ o a b c,
    findOffWorker 0 (Some 1) = Normal o ∧
    filter (λ w, w ≠ o) [0; 1; 2; 3] = [a; b; c] ∧
    (∃ sp, scorePerm shiftCounts [a; b; c] = Normal sp ∧
           closeTo sp (spec_score shiftCounts [a; b; c])) ∧
    ∃ (i : nat) best shiftCounts' final,
      [[a; b; c]; [a; c; b]; [b; a; c]; [b; c; a]; [c; a; b]; [c; b; a]] !! i
        = Some best ∧
      assignDay 0 (mkDay 2 (Some 1)) (shiftCounts, schedule) =
        Normal (shiftCounts',
                <[2 := mkDaySchedule o (shiftsOf best)]> schedule) ∧
      generateSchedule 2026 2 = Normal final ∧
      final !! 2 = Some (mkDaySchedule o (shiftsOf best)).
Proof.
  intros shiftCounts schedule.
  assert (assignDays (take 1 (indexWeeks 0 (groupWeeks (buildDays 2026 2) [] [])))
    (initialCounts, ∅) = Normal (shiftCounts, schedule)) as Hrun
    by (vm_compute; reflexivity).
  split; [exact Hrun|].
  destruct (lowest_score_first 2026 2 1 0 (mkDay 2 (Some 1)) shiftCounts schedule)
    as (o & a & b & c & Ho & Hww & _ & Hclose & _ & i & best & c' & final & Hi & _
        & Hday & Hgen & Hfinal).
  - exact usable_2026_02.
  - vm_compute. reflexivity.
  - exact Hrun.
  - exists o, a, b, c. split; [exact Ho|]. split; [exact Hww|]. split.
    + apply Hclose. apply list_elem_of_here.
    + exists i, best, c', final. split; [exact Hi|]. split; [exact Hday|].
      split; [exact Hgen|exact Hfinal].
Defined.

(** On the second day of February 2026 the orderings [2 3 1] and [3 1 2]
    both have the lowest score, and the first of them is committed. *)
Example second_day_2026_02 :
  ∃ schedule ds,
    generateSchedule 2026 2 = Normal schedule ∧ schedule !! 2 = Some ds ∧
    off ds = 0 ∧ shifts ds = shiftsOf [2; 3; 1].
Proof. eexists _, _. split_and!; vm_compute; reflexivity. Qed.

(** Away from the states a month reaches the rounding of the sums can
    separate two orderings of equal exact score: here [0 1 2] and [1 2 0]
    both score 6/10, and the loop takes the second. *)
Example rounding_separates_equal_scores :
  let shiftCounts := [[0; 1; 0]; [0; 0; 2]; [3; 0; 0]; [0; 0; 0]] in
  Qeq (spec_score shiftCounts [0; 1; 2]) (spec_score shiftCounts [1; 2; 0]) ∧
  (∀ p, p ∈ permutations [0; 1; 2] →
     Qle (spec_score shiftCounts [0; 1; 2]) (spec_score shiftCounts p)) ∧
  pickBest shiftCounts (permutations [0; 1; 2]) (Some [0; 1; 2]) Infinity
    = Normal (Some [1; 2; 0]).
Proof.
  split_and!; [reflexivity| |vm_compute; reflexivity].
  intros p Hp. change (permutations _) with
    [[0; 1; 2]; [0; 2; 1]; [1; 0; 2]; [1; 2; 0]; [2; 0; 1]; [2; 1; 0]] in Hp.
  repeat (apply elem_of_cons in Hp as [-> | Hp]); [..|by apply elem_of_nil in Hp];
    by vm_compute.
Qed.

(** ** The limits of the dates *)

(** A year from 0 to 99 stands for 1900 to 1999: the second month of year 0
    has the 28 days of February 1900, though year 0 is a leap year. *)
Example two_digit_year :
  daysInMonth 0 2 = Some 28 ∧ monthLength 2 (InLeapYear 0) = 29.
Proof. split; reflexivity. Qed.

(** The first date the host represents is 20 April of year -271821: the
    days before it have no day of the week, no worker matches, and the
    schedule holds -1 for them. *)
Example year_out_of_range :
  ¬ usable (-271821) 4 ∧
  ∃ schedule ds,
    generateSchedule (-271821) 4 = Normal schedule ∧
    schedule !! 19 = Some ds ∧ off ds = -1.
Proof.
  split; [unfold usable; lia|].
  eexists _, _. split_and!; vm_compute; reflexivity.
Qed.

(** Past the last date the host represents the number of days is [NaN] and
    the schedule is empty. *)
Example year_without_dates :
  daysInMonth 275761 1 = None ∧ generateSchedule 275761 1 = Normal ∅.
Proof. split; reflexivity. Qed.

(** February 2026 starts on a Sunday. Worker 2 is in role 3 in the week of
    index 1 and in role 0 in the next: off on Saturday 14, Sunday 15 and
    Monday 16. *)
Example three_day_rest_2026_02 :
  ∃ schedule,
    generateSchedule 2026 2 = Normal schedule ∧
    off <$> schedule !! 14 = Some 2 ∧ off <$> schedule !! 15 = Some 2 ∧
    off <$> schedule !! 16 = Some 2.
Proof. eexists. split_and!; vm_compute; reflexivity. Qed.


(** * Further properties of the program *)

(** ** [permutations] on arrays of any length *)

Section AllPermutations.
Context {A : Type}.

Lemma flat_map_bind {B} (f : nat → list B) (l : list nat) : flat_map f l = l ≫= f.
Proof. induction l as [|x l IH]; [done|]. simpl. by rewrite IH. Qed.

Lemma permutations_short (arr : list A) :
  (length arr <= 1)%nat → permutations arr = [arr].
Proof.
  intros Hlen. rewrite permutations_unfold.
  by destruct (Nat.leb_spec (length arr) 1) as [|]; [|lia].
Qed.

(** The recursive step, on the array less its element [i]. *)
Lemma permutations_step (arr : list A) :
  (1 < length arr)%nat →
  permutations arr =
    seq 0 (length arr) ≫= λ i,
      match arr !! i with
      | Some x => (x ::.) <$> permutations (delete i arr)
      | None => []
      end.
Proof.
  intros Hlen. rewrite permutations_unfold.
  destruct (Nat.leb_spec (length arr) 1) as [|_]; [lia|].
  rewrite flat_map_bind. apply list_bind_ext; [|done].
  intros i. by rewrite delete_take_drop.
Qed.

Lemma elem_of_permutations_step (arr p : list A) :
  (1 < length arr)%nat →
  p ∈ permutations arr ↔
  ∃ (i : nat) x p', arr !! i = Some x ∧ p = x :: p' ∧ p' ∈ permutations (delete i arr).
Proof.
  intros Hlen. rewrite permutations_step, list_elem_of_bind by done. split.
  - intros (i & Hp & _). destruct (arr !! i) as [x|] eqn:Hi; [|by apply elem_of_nil in Hp].
    apply list_elem_of_fmap in Hp as (p' & -> & Hp'). by exists i, x, p'.
  - intros (i & x & p' & Hi & -> & Hp'). exists i. rewrite Hi. split.
    + apply list_elem_of_fmap. by exists p'.
    + apply elem_of_seq. apply lookup_lt_Some in Hi. lia.
Qed.

(** The result holds exactly the rearrangements of the array. *)
Lemma elem_of_permutations (arr p : list A) :
  p ∈ permutations arr ↔ p ≡ₚ arr.
Proof.
  remember (length arr) as n eqn:Hn. revert arr p Hn.
  induction n as [n IH] using lt_wf_ind. intros arr p Hn.
  destruct (decide (length arr <= 1)%nat) as [Hshort | Hlong].
  - rewrite permutations_short, list_elem_of_singleton by done.
    destruct arr as [|x [|y arr]]; simpl in Hshort; [| |lia].
    + by rewrite Permutation_nil_r.
    + by rewrite Permutation_singleton_r.
  - rewrite elem_of_permutations_step by lia. split.
    + intros (i & x & p' & Hi & -> & Hp').
      rewrite (delete_Permutation arr i x Hi). f_equiv.
      apply (IH (length (delete i arr))); [|done|done].
      rewrite length_delete by eauto. apply lookup_lt_Some in Hi. lia.
    + intros Hp. destruct p as [|x p'].
      { apply Permutation_nil_l in Hp. subst arr. simpl in Hlong. lia. }
      assert (x ∈ arr) as [i Hi]%list_elem_of_lookup
        by (rewrite <- Hp; apply list_elem_of_here).
      exists i, x, p'. split; [done|]. split; [done|].
      apply (IH (length (delete i arr))); [|done|].
      * rewrite length_delete by eauto. apply lookup_lt_Some in Hi. lia.
      * apply (inj (x ::.)). by rewrite Hp, <- delete_Permutation.
Qed.

Lemma length_bind_const {B C} (f : B → list C) (l : list B) (k : nat) :
  (∀ x, x ∈ l → length (f x) = k) → length (l ≫= f) = (length l * k)%nat.
Proof.
  induction l as [|x l IH]; intros Hf; [done|].
  change ((x :: l) ≫= f) with (f x ++ (l ≫= f)).
  rewrite length_app, IH, Hf; [simpl; lia|apply list_elem_of_here|].
  intros y Hy. by apply Hf, list_elem_of_further.
Qed.

(** X2. An array of [n] elements has [n!] orderings in the result: 6 for the
    three workers on duty. *)
Theorem permutations_length (arr : list A) :
  length (permutations arr) = fact (length arr).
Proof.
  remember (length arr) as n eqn:Hn. revert arr Hn.
  induction n as [n IH] using lt_wf_ind. intros arr Hn.
  destruct (decide (length arr <= 1)%nat) as [Hshort | Hlong].
  - rewrite permutations_short by done.
    destruct arr as [|x [|y arr]]; simpl in *; subst; (done || lia).
  - rewrite permutations_step by lia.
    rewrite (length_bind_const _ _ (fact (n - 1))).
    + rewrite length_seq, <- Hn. destruct n as [|n]; [lia|].
      simpl. rewrite Nat.sub_0_r. lia.
    + intros i Hi%elem_of_seq.
      destruct (lookup_lt_is_Some_2 arr i) as [x Hx]; [lia|]. rewrite Hx.
      rewrite length_fmap. apply IH; [lia|].
      rewrite length_delete by eauto. lia.
Qed.

(** The first ordering of the result is the array itself. *)
Lemma permutations_head (arr : list A) :
  permutations arr !! 0%nat = Some arr.
Proof.
  induction arr as [|x arr IH]; [done|].
  destruct arr as [|y arr]; [done|].
  rewrite permutations_step by (simpl; lia).
  change (seq 0 (length (x :: y :: arr))) with (0%nat :: seq 1 (length (y :: arr))).
  change ((0%nat :: ?l) ≫= ?f) with (f 0%nat ++ (l ≫= f)).
  cbn [lookup list_lookup delete list_delete].
  apply lookup_app_l_Some. by rewrite list_lookup_fmap, IH.
Qed.

(** X4. Without repeated elements in the array, no ordering is repeated. *)
Theorem permutations_NoDup (arr : list A) :
  NoDup arr → NoDup (permutations arr).
Proof.
  remember (length arr) as n eqn:Hn. revert arr Hn.
  induction n as [n IH] using lt_wf_ind. intros arr Hn Hnd.
  destruct (decide (length arr <= 1)%nat) as [Hshort | Hlong].
  - rewrite permutations_short by done. apply NoDup_singleton.
  - rewrite permutations_step by lia. apply NoDup_bind.
    + intros i j p Hi%elem_of_seq Hj%elem_of_seq.
      destruct (lookup_lt_is_Some_2 arr i) as [x Hx]; [lia|].
      destruct (lookup_lt_is_Some_2 arr j) as [y Hy]; [lia|].
      rewrite Hx, Hy. intros (p1 & -> & _)%list_elem_of_fmap.
      intros (p2 & [= <- _] & _)%list_elem_of_fmap.
      by apply (NoDup_lookup arr i j x).
    + intros i Hi%elem_of_seq.
      destruct (lookup_lt_is_Some_2 arr i) as [x Hx]; [lia|]. rewrite Hx.
      apply (NoDup_fmap_2 _). apply (IH (length (delete i arr))).
      * rewrite length_delete by eauto. lia.
      * done.
      * rewrite delete_take_drop.
        rewrite <- (take_drop_middle arr i x Hx) in Hnd.
        apply NoDup_app in Hnd as (H1 & H2 & H3). apply NoDup_cons in H3 as [H3 H4].
        apply NoDup_app. split_and!; [done| |done].
        intros z Hz1 Hz2. apply (H2 z Hz1). by apply list_elem_of_further.
    + apply NoDup_seq.
Qed.

End AllPermutations.

(** X1. The result holds the rearrangements of the array, and nothing
    else. *)
Theorem permutations_complete {A} (arr p : list A) :
  p ∈ permutations arr ↔ p ≡ₚ arr.
Proof. apply elem_of_permutations. Qed.

(** X3. The first ordering of the result, the one [bestPerm] starts from, is
    the array itself. *)
Theorem permutations_first {A} (arr : list A) :
  permutations arr !! 0%nat = Some arr.
Proof. apply permutations_head. Qed.

Lemma permutations_NoDup_witness :
  NoDup [0; 1; 2] ∧ NoDup (permutations [0; 1; 2]).
Proof.
  assert (NoDup [0; 1; 2]) as Hnd by (apply (bool_decide_unpack _); by vm_compute).
  split; [exact Hnd|]. exact (permutations_NoDup [0; 1; 2] Hnd).
Defined.



(** ** [changeMonth] and [readNames] *)

(** X5. From a month 1 to 12, a step of one month forward or back gives the
    next or the previous month of the calendar, again 1 to 12; the names
    and the schedule stored are kept as they are. *)
Theorem changeMonth_one_month delta st :
  1 <= st_month st <= 12 → delta = 1 ∨ delta = -1 →
  let st' := changeMonth delta st in
  1 <= st_month st' <= 12 ∧
  12 * st_year st' + st_month st' = 12 * st_year st + st_month st + delta ∧
  st_names st' = st_names st ∧ st_schedule st' = st_schedule st.
Proof.
  intros Hm Hd. unfold changeMonth.
  repeat case_match; simpl; split_and!; try done; lia.
Qed.

Lemma changeMonth_one_month_witness :
  let st' := changeMonth 1 (mkAppState 2026 12 [] None) in
  1 <= st_month st' <= 12 ∧
  12 * st_year st' + st_month st' = 12 * 2026 + 12 + 1 ∧
  st_names st' = [] ∧ st_schedule st' = None.
Proof.
  apply (changeMonth_one_month 1 (mkAppState 2026 12 [] None)); simpl; lia.
Defined.

(** X6. Next month then previous month, or the reverse, leaves the state
    as it was. *)
Theorem changeMonth_round_trip st :
  1 <= st_month st <= 12 →
  changeMonth (-1) (changeMonth 1 st) = st ∧
  changeMonth 1 (changeMonth (-1) st) = st.
Proof.
  intros Hm. destruct st as [year month names schedule]. simpl in Hm.
  unfold changeMonth. simpl.
  split;
    repeat (match goal with
            | |- context [?a <? ?b] => destruct (Z.ltb_spec a b); simpl
            end);
    simpl in *; first [lia | f_equal; lia].
Qed.

Lemma changeMonth_round_trip_witness :
  changeMonth (-1) (changeMonth 1 initialState) = initialState ∧
  changeMonth 1 (changeMonth (-1) initialState) = initialState.
Proof. apply (changeMonth_round_trip initialState). simpl. lia. Defined.

(** X7. With its four inputs, [readNames] gives four names, none empty: an
    input left empty gives the default name of its place, another is kept. *)
Theorem readNames_defaults inputs :
  length inputs = 4%nat →
  length (readNames inputs) = 4%nat ∧
  ∀ (i : nat) name, readNames inputs !! i = Some name →
    name ≠ EmptyString ∧
    (inputs !! i = Some name ∨
     inputs !! i = Some EmptyString ∧ st_names initialState !! i = Some name).
Proof.
  intros Hlen.
  destruct inputs as [|i0 [|i1 [|i2 [|i3 [|]]]]]; try done.
  split; [done|]. intros i name.
  destruct i as [|[|[|[|]]]]; [..|done]; simpl;
    match goal with
    | |- context [String.eqb ?v EmptyString] =>
        destruct (String.eqb_spec v EmptyString) as [-> | Hne]
    end; intros [= <-]; (split; [done|]); auto.
Qed.

Lemma readNames_defaults_witness :
  readNames ["Kim"; EmptyString; "Lee"; EmptyString]%string
  = ["Kim"; "직원B"; "Lee"; "직원D"]%string ∧
  length (readNames ["Kim"; EmptyString; "Lee"; EmptyString]%string) = 4%nat.
Proof.
  split; [reflexivity|].
  apply (readNames_defaults ["Kim"; EmptyString; "Lee"; EmptyString]%string).
  reflexivity.
Defined.


(** ** The counting of [renderSummary] *)

Section Summary.

Lemma summaryDays_buildDays year month :
  summaryDays year month = dayOfWeek <$> buildDays year month.
Proof.
  unfold summaryDays, buildDays. destruct (daysInMonth year month); [|done].
  by rewrite <- list_fmap_compose.
Qed.

Lemma monthDates_buildDays year month :
  monthDates year month = date <$> buildDays year month.
Proof.
  unfold monthDates, buildDays. destruct (daysInMonth year month); [|done].
  rewrite <- list_fmap_compose. symmetry. apply list_fmap_id.
Qed.

Local Abbreviation countSunday :=
  (λ (count : Z) (dow : option Z),
     if bool_decide (dow = Some 0) then count + 1 else count).

Lemma foldl_countSunday count days :
  foldl countSunday count days = count + foldl countSunday 0 days ∧
  0 <= foldl countSunday 0 days.
Proof.
  revert count. induction days as [|dow days IH]; intros count; simpl; [lia|].
  destruct (IH (countSunday count dow)) as [-> ?].
  destruct (IH (countSunday 0 dow)) as [-> ?].
  case_bool_decide; lia.
Qed.

Lemma length_groupWeeks days weeks currentWeek :
  currentWeek ≠ [] →
  Z.of_nat (length (groupWeeks days weeks currentWeek)) =
    Z.of_nat (length weeks) + 1 + foldl countSunday 0 (dayOfWeek <$> days).
Proof.
  revert weeks currentWeek.
  induction days as [|day days IH]; intros weeks currentWeek Hne.
  - destruct currentWeek; [done|]. simpl. rewrite length_app. simpl. lia.
  - cbn [groupWeeks]. rewrite fmap_cons. cbn [foldl].
    assert ((0 <? Z.of_nat (length currentWeek)) = true) as ->
      by (destruct currentWeek; [done|]; apply Z.ltb_lt; simpl; lia).
    rewrite andb_true_r.
    destruct (foldl_countSunday (countSunday 0 (dayOfWeek day)) (dayOfWeek <$> days))
      as [-> _].
    case_bool_decide.
    + rewrite IH by done. rewrite length_app. simpl. lia.
    + rewrite IH by (by destruct currentWeek). lia.
Qed.

(** The months of 28 to 31 days have 4 to 6 weeks. *)
Lemma monthDays_weeks dow0 n :
  0 <= dow0 <= 6 → 28 <= n <= 31 →
  (4 <= length (groupWeeks (monthDays dow0 n) [] []) <= 6)%nat.
Proof.
  intros Hd Hn.
  pose proof (month_shapes (λ dow0 n,
    (4 <=? length (groupWeeks (monthDays dow0 n) [] []))%nat &&
    (length (groupWeeks (monthDays dow0 n) [] []) <=? 6)%nat)) as Hall.
  cbv beta in Hall.
  specialize (Hall ltac:(vm_compute; reflexivity) dow0 n Hd Hn).
  apply andb_true_iff in Hall as [?%Nat.leb_le ?%Nat.leb_le]. lia.
Qed.

(** The loop of [statsStep] keeps its counters consistent. *)
Lemma statsStep_invariant schedule idx acc d (k : Z) :
  l_workDays acc + l_offDays acc = k ∧
  0 <= l_shift7 acc ∧ 0 <= l_shift9 acc ∧ 0 <= l_shift13 acc ∧
  l_shift7 acc + l_shift9 acc + l_shift13 acc <= l_workDays acc ∧
  0 <= l_currentStreak acc <= l_maxStreak acc ∧ l_maxStreak acc <= l_offDays acc ∧
  0 <= l_consecutivePairs acc →
  let acc' := statsStep schedule idx acc d in
  l_workDays acc' + l_offDays acc' =
    k + (if bool_decide (is_Some (schedule !! d)) then 1 else 0) ∧
  0 <= l_shift7 acc' ∧ 0 <= l_shift9 acc' ∧ 0 <= l_shift13 acc' ∧
  l_shift7 acc' + l_shift9 acc' + l_shift13 acc' <= l_workDays acc' ∧
  0 <= l_currentStreak acc' <= l_maxStreak acc' ∧ l_maxStreak acc' <= l_offDays acc' ∧
  0 <= l_consecutivePairs acc'.
Proof.
  intros Hinv. unfold statsStep.
  destruct (schedule !! d) as [ds|]; simpl.
  - repeat case_bool_decide; simpl; repeat case_match; try congruence; lia.
  - lia.
Qed.

Lemma statsLoop_invariant schedule idx dates acc (k : Z) :
  l_workDays acc + l_offDays acc = k ∧
  0 <= l_shift7 acc ∧ 0 <= l_shift9 acc ∧ 0 <= l_shift13 acc ∧
  l_shift7 acc + l_shift9 acc + l_shift13 acc <= l_workDays acc ∧
  0 <= l_currentStreak acc <= l_maxStreak acc ∧ l_maxStreak acc <= l_offDays acc ∧
  0 <= l_consecutivePairs acc →
  let acc' := foldl (statsStep schedule idx) acc dates in
  l_workDays acc' + l_offDays acc' =
    k + Z.of_nat (length (filter (λ d, is_Some (schedule !! d)) dates)) ∧
  0 <= l_shift7 acc' ∧ 0 <= l_shift9 acc' ∧ 0 <= l_shift13 acc' ∧
  l_shift7 acc' + l_shift9 acc' + l_shift13 acc' <= l_workDays acc' ∧
  0 <= l_currentStreak acc' <= l_maxStreak acc' ∧ l_maxStreak acc' <= l_offDays acc' ∧
  0 <= l_consecutivePairs acc'.
Proof.
  revert acc k. induction dates as [|d dates IH]; intros acc k Hinv.
  - simpl. rewrite Z.add_0_r. exact Hinv.
  - cbn [foldl]. pose proof (statsStep_invariant schedule idx acc d k Hinv) as Hstep.
    cbv zeta in Hstep. apply IH in Hstep. cbv zeta in Hstep |- *.
    rewrite filter_cons.
    destruct (decide (is_Some (schedule !! d))) as [Hd | Hd].
    + rewrite bool_decide_eq_true_2 in Hstep by done. simpl length.
      destruct Hstep as [-> Hrest]. split; [lia|done].
    + rewrite bool_decide_eq_false_2 in Hstep by done.
      destruct Hstep as [-> Hrest]. split; [lia|done].
Qed.

End Summary.

(** X8. [renderSummary] counts as many weeks as [generateSchedule] builds,
    whenever the month has a day; with no day at all it counts one week
    where none is built. The count is never 0, and 4 to 6 in a usable
    month. *)
Theorem weekCount_weeks year month :
  let weeks := groupWeeks (buildDays year month) [] [] in
  1 <= weekCount year month ∧
  (buildDays year month ≠ [] → weekCount year month = Z.of_nat (length weeks)) ∧
  (buildDays year month = [] → weekCount year month = 1 ∧ weeks = []) ∧
  (usable year month → 4 <= weekCount year month <= 6).
Proof.
  cbv zeta. unfold weekCount. cbv zeta. rewrite summaryDays_buildDays.
  assert (buildDays year month ≠ [] →
    (if bool_decide ((dayOfWeek <$> buildDays year month) !! 0%nat = Some (Some 0))
     then foldl (λ count dow, if bool_decide (dow = Some 0) then count + 1 else count)
            0 (dayOfWeek <$> buildDays year month)
     else foldl (λ count dow, if bool_decide (dow = Some 0) then count + 1 else count)
            0 (dayOfWeek <$> buildDays year month) + 1)
    = Z.of_nat (length (groupWeeks (buildDays year month) [] []))) as Hweeks.
  { destruct (buildDays year month) as [|day days]; [done|]. intros _.
    cbn [groupWeeks]. rewrite andb_false_r, length_groupWeeks by done.
    rewrite fmap_cons. cbn [foldl lookup list_lookup length].
    destruct (foldl_countSunday
      (if bool_decide (dayOfWeek day = Some 0) then 0 + 1 else 0)
      (dayOfWeek <$> days)) as [-> _].
    repeat case_bool_decide; simplify_eq; first [congruence | lia]. }
  split_and!.
  - destruct (buildDays year month) as [|day days] eqn:Hdays; [done|].
    rewrite Hweeks by done. cbn [groupWeeks]. rewrite andb_false_r.
    rewrite length_groupWeeks by done.
    pose proof (proj2 (foldl_countSunday 0 (dayOfWeek <$> days))). lia.
  - done.
  - by intros ->.
  - intros Hu.
    destruct (buildDays_usable year month Hu) as (dow0 & n & Hdow0 & Hn & _ & Hdays).
    rewrite Hweeks, Hdays.
    + pose proof (monthDays_weeks dow0 n Hdow0 Hn). lia.
    + rewrite Hdays. unfold monthDays.
      rewrite (seqZ_cons 1 n) by lia. done.
Qed.

Lemma weekCount_weeks_witness :
  weekCount 2026 1 = Z.of_nat (length (groupWeeks (buildDays 2026 1) [] [])) ∧
  (weekCount 275761 1 = 1 ∧ groupWeeks (buildDays 275761 1) [] [] = []) ∧
  4 <= weekCount 2026 1 <= 6.
Proof.
  destruct (weekCount_weeks 2026 1) as (_ & Hne & _ & Hu).
  destruct (weekCount_weeks 275761 1) as (_ & _ & Hempty & _).
  split; [apply Hne; by vm_compute|]. split; [apply Hempty; reflexivity|].
  apply Hu. unfold usable. lia.
Defined.

(** X9. For any schedule, the work days and the days off that
    [renderSummary] counts for a worker add up to the days of the month
    that have an entry; the three counts of shifts are not more than the
    work days, and the longest rest not more than the days off. *)
Theorem workerStats_counts year month schedule idx name :
  let s := workerStats year month schedule idx name in
  stats_workDays s + stats_offDays s =
    Z.of_nat (length (filter (λ d, is_Some (schedule !! d)) (monthDates year month))) ∧
  0 <= stats_shift7 s ∧ 0 <= stats_shift9 s ∧ 0 <= stats_shift13 s ∧
  stats_shift7 s + stats_shift9 s + stats_shift13 s <= stats_workDays s ∧
  0 <= stats_maxStreak s <= stats_offDays s ∧
  stats_hours s = 8 * stats_workDays s ∧
  0 <= stats_consecutivePairs s.
Proof.
  cbv zeta. unfold workerStats, statsOfDates. cbv zeta.
  cbn [stats_workDays stats_offDays stats_shift7 stats_shift9 stats_shift13
       stats_hours stats_maxStreak stats_consecutivePairs].
  destruct (statsLoop_invariant schedule idx (monthDates year month)
    (mkStatsLoop 0 0 0 0 0 0 0 0 0) 0) as (H1 & H2 & H3 & H4 & H5 & H6 & H7 & H8);
    [simpl; lia|].
  split_and!; try lia. case_match; lia.
Qed.


(** ** The rows of [renderTable] and [exportToExcel] *)

Section Rows.

Lemma defined_Some {A} (a : A) : defined (Some a) = Normal a.
Proof. reflexivity. Qed.

(** With an entry for every date the rows are built, one per date. *)
Lemma dayRowsOf_complete year month names schedule dates :
  (∀ d, d ∈ dates → is_Some (schedule !! d)) →
  ∃ rows, dayRowsOf year month names schedule dates = Normal rows ∧
          r_date <$> rows = dates ∧
          ∀ row, row ∈ rows →
            r_dayName row =
              getDay (newDate year (month - 1) (r_date row)) ≫= at_index DAY_NAMES ∧
            ∃ ds, schedule !! r_date row = Some ds ∧
                  r_cells row = dayCells names ds.
Proof.
  induction dates as [|d dates IH]; intros Hall.
  - exists []. split_and!; [done..|]. by intros row ?%elem_of_nil.
  - destruct (Hall d) as [ds Hds]; [apply list_elem_of_here|].
    destruct IH as (rows & Hrows & Hdates & Hcells).
    { intros d' Hd'. by apply Hall, list_elem_of_further. }
    eexists. cbn [dayRowsOf]. rewrite Hds, defined_Some, bind_Normal, Hrows, bind_Normal.
    split; [reflexivity|]. split; [by rewrite fmap_cons, Hdates|].
    intros row [-> | Hrow]%elem_of_cons; [|by apply Hcells].
    split; [done|]. by exists ds.
Qed.

(** A date without an entry makes the loop throw. *)
Lemma dayRowsOf_missing year month names schedule dates d :
  d ∈ dates → schedule !! d = None →
  dayRowsOf year month names schedule dates = Throw.
Proof.
  intros Hd Hmiss. induction dates as [|d' dates IH]; [by apply elem_of_nil in Hd|].
  cbn [dayRowsOf]. destruct (schedule !! d') as [ds|] eqn:Hd'; [|done].
  rewrite defined_Some, bind_Normal.
  apply elem_of_cons in Hd as [-> | Hd]; [congruence|]. by rewrite IH.
Qed.

(** The counters of [exportToExcel] are those of [renderSummary]. *)
Lemma exportCount_statsStep schedule w dates acc :
  (∀ d, d ∈ dates → is_Some (schedule !! d)) →
  exportCount schedule w dates
    (l_workDays acc, l_offDays acc, l_shift7 acc, l_shift9 acc, l_shift13 acc)
  = let acc' := foldl (statsStep schedule w) acc dates in
    Normal (l_workDays acc', l_offDays acc', l_shift7 acc', l_shift9 acc',
            l_shift13 acc').
Proof.
  revert acc. induction dates as [|d dates IH]; intros acc Hall; [done|].
  destruct (Hall d) as [ds Hds]; [apply list_elem_of_here|].
  cbn [exportCount foldl]. rewrite Hds, defined_Some, bind_Normal.
  rewrite <- IH by (intros d' Hd'; by apply Hall, list_elem_of_further).
  unfold statsStep. rewrite Hds. by case_bool_decide.
Qed.

Lemma exportSummary_complete year month names schedule ws :
  (∀ d, d ∈ monthDates year month → is_Some (schedule !! d)) →
  exportSummary year month names schedule ws =
    Normal ((λ w,
      let s := workerStats year month schedule w (at_index names w) in
      mkSummaryRow (stats_name s) (stats_workDays s) (stats_offDays s)
        (stats_hours s) (stats_shift7 s) (stats_shift9 s) (stats_shift13 s)) <$> ws).
Proof.
  intros Hall. induction ws as [|w ws IH]; [done|].
  cbn [exportSummary].
  pose proof (exportCount_statsStep schedule w _
    (mkStatsLoop 0 0 0 0 0 0 0 0 0) Hall) as Hcount.
  cbv zeta in Hcount.
  change (exportCount schedule w (monthDates year month) (0, 0, 0, 0, 0) = Normal
    (let acc' := foldl (statsStep schedule w) (mkStatsLoop 0 0 0 0 0 0 0 0 0)
                   (monthDates year month) in
     (l_workDays acc', l_offDays acc', l_shift7 acc', l_shift9 acc',
      l_shift13 acc'))) in Hcount.
  rewrite Hcount. cbv zeta. rewrite bind_Normal, IH, bind_Normal. reflexivity.
Qed.

Lemma cellStep_off names ds cells w :
  w = off ds →
  cellStep names ds cells w =
    mkDayCells (w7 cells) (w9 cells) (w13 cells) (at_index names w).
Proof. intros Hw. unfold cellStep. by rewrite bool_decide_eq_true_2. Qed.

Lemma cellStep_7 names ds cells w :
  shifts ds !! w = Some 7 → w ≠ off ds →
  cellStep names ds cells w =
    mkDayCells (at_index names w) (w9 cells) (w13 cells) (wOff cells).
Proof.
  intros Hid Hw. unfold cellStep. by rewrite bool_decide_eq_false_2, Hid.
Qed.

Lemma cellStep_9 names ds cells w :
  shifts ds !! w = Some 9 → w ≠ off ds →
  cellStep names ds cells w =
    mkDayCells (w7 cells) (at_index names w) (w13 cells) (wOff cells).
Proof.
  intros Hid Hw. unfold cellStep. by rewrite bool_decide_eq_false_2, Hid.
Qed.

Lemma cellStep_13 names ds cells w :
  shifts ds !! w = Some 13 → w ≠ off ds →
  cellStep names ds cells w =
    mkDayCells (w7 cells) (w9 cells) (at_index names w) (wOff cells).
Proof.
  intros Hid Hw. unfold cellStep. by rewrite bool_decide_eq_false_2, Hid.
Qed.

(** The cells of a day that satisfies the invariant. *)
Lemma dayCells_invariant names ds :
  length names = 4%nat → dayInvariant ds →
  ∃ a b c,
    shifts ds !! a = Some 7 ∧ shifts ds !! b = Some 9 ∧ shifts ds !! c = Some 13 ∧
    0 <= a <= 3 ∧ 0 <= b <= 3 ∧ 0 <= c <= 3 ∧ NoDup [a; b; c; off ds] ∧
    dayCells names ds =
      mkDayCells (at_index names a) (at_index names b) (at_index names c)
        (at_index names (off ds)).
Proof.
  intros Hlen (Hoff & Hdom & _ & _ & Hsur).
  destruct (Hsur 7) as [a Ha]; [unfold SHIFTS; rewrite !elem_of_cons; auto|].
  destruct (Hsur 9) as [b Hb]; [unfold SHIFTS; rewrite !elem_of_cons; auto|].
  destruct (Hsur 13) as [c Hc]; [unfold SHIFTS; rewrite !elem_of_cons; auto|].
  destruct (proj1 (Hdom a)) as [Har Hao]; [by eexists|].
  destruct (proj1 (Hdom b)) as [Hbr Hbo]; [by eexists|].
  destruct (proj1 (Hdom c)) as [Hcr Hco]; [by eexists|].
  assert (a ≠ b) as Hab by congruence.
  assert (a ≠ c) as Hac by congruence.
  assert (b ≠ c) as Hbc by congruence.
  assert (NoDup [a; b; c; off ds]) as Hnd
    by (repeat constructor; rewrite ?elem_of_cons, ?elem_of_nil; lia).
  exists a, b, c. do 7 (split; [done|]).
  assert ([a; b; c; off ds] ∈ permutations [0; 1; 2; 3]) as Hperm.
  { apply elem_of_permutations, NoDup_Permutation; [done| |].
    - repeat constructor; rewrite ?elem_of_cons, ?elem_of_nil; lia.
    - intros x. rewrite !elem_of_cons, !elem_of_nil. lia. }
  set (perms := permutations [0; 1; 2; 3]) in Hperm.
  vm_compute in perms. subst perms. clear Hnd Hab Hac Hbc Har Hbr Hcr Hoff Hdom Hsur.
  unfold dayCells. cbn [foldl].
  repeat (apply elem_of_cons in Hperm as [[= -> -> -> Ho] | Hperm]);
    [ do 4 (match goal with
            | |- context [cellStep names ds (mkDayCells ?x ?y ?z ?t) ?w] =>
                first
                  [ rewrite (cellStep_off names ds (mkDayCells x y z t) w (eq_sym Ho))
                  | rewrite (cellStep_7 names ds (mkDayCells x y z t) w Ha Hao)
                  | rewrite (cellStep_9 names ds (mkDayCells x y z t) w Hb Hbo)
                  | rewrite (cellStep_13 names ds (mkDayCells x y z t) w Hc Hco) ];
                cbn [w7 w9 w13 wOff]
            end);
      rewrite Ho; reflexivity ..|].
  by apply elem_of_nil in Hperm.
Qed.

(** The entries of the schedule of a usable month satisfy the invariant. *)
Lemma generated_dayInvariant year month schedule d ds :
  usable year month → generateSchedule year month = Normal schedule →
  schedule !! d = Some ds → dayInvariant ds.
Proof.
  intros Hu Hgen Hd.
  destruct (schedule_entry year month schedule d ds Hu Hgen Hd)
    as (wi & day & dow & _ & _ & Hwi & Hdow & Hr & Hentry).
  destruct (entryOf_invariant wi day dow ds Hwi Hdow Hr Hentry) as (Hoff & _ & Hrest).
  by split.
Qed.

Lemma monthDates_usable year month :
  usable year month →
  monthDates year month = seqZ 1 (monthLength month (InLeapYear (fullYear year))).
Proof. intros Hu. unfold monthDates. by rewrite daysInMonth_usable. Qed.

(** The schedule of a usable month has its entries at the dates of the
    month, and at no other. *)
Lemma generated_dates year month schedule d :
  usable year month → generateSchedule year month = Normal schedule →
  is_Some (schedule !! d) ↔ 1 <= d <= monthLength month (InLeapYear (fullYear year)).
Proof.
  intros Hu Hgen.
  destruct (generateSchedule_usable year month Hu)
    as (dow0 & n & schedule' & _ & _ & Hn & _ & _ & Hgen' & Hdom & _).
  rewrite Hgen in Hgen'. injection Hgen' as <-.
  rewrite daysInMonth_usable in Hn by done. injection Hn as <-. apply Hdom.
Qed.

End Rows.

(** ** [generateSchedule] on any year and month *)

Section AnyMonth.

(** The scan raises nothing in a week of index at least 0. *)
Lemma scanOff_Normal ws wi dow :
  Forall (λ w, 0 <= w) ws → 0 <= wi →
  ∃ o, scanOff ws wi dow = Normal o ∧ (o = -1 ∨ o ∈ ws).
Proof.
  intros Hws Hwi. induction Hws as [|w ws Hw _ (o & IH & Ho)].
  - exists (-1). split; [done|]. by left.
  - cbn [scanOff]. destruct (OFF_PATTERNS_role w wi Hw Hwi) as (pattern & -> & _).
    rewrite defined_Some, bind_Normal. destruct (includes pattern dow).
    + exists w. split; [done|]. right. apply list_elem_of_here.
    + exists o. split; [done|].
      destruct Ho; [by left|right; by apply list_elem_of_further].
Qed.

(** Whatever [offWorker] is, three workers at least are left and every
    ordering of them starts with three distinct workers from 0 to 3, none
    of them [offWorker]. *)
Lemma permutations_workers o perm :
  perm ∈ permutations (filter (λ w, w ≠ o) [0; 1; 2; 3]) →
  ∃ a b c rest, perm = a :: b :: c :: rest ∧
                0 <= a <= 3 ∧ 0 <= b <= 3 ∧ 0 <= c <= 3 ∧
                a ≠ o ∧ b ≠ o ∧ c ≠ o ∧ NoDup [a; b; c].
Proof.
  intros Hperm%elem_of_permutations.
  assert (Forall (λ w, 0 <= w <= 3 ∧ w ≠ o) perm) as Hall.
  { rewrite Hperm. apply Forall_forall. intros w [Hne Hw]%list_elem_of_filter.
    rewrite !elem_of_cons, elem_of_nil in Hw. lia. }
  assert (NoDup perm) as Hnd.
  { rewrite Hperm. apply NoDup_filter.
    repeat constructor; rewrite ?elem_of_cons, ?elem_of_nil; lia. }
  assert (3 <= length perm)%nat as Hlen.
  { rewrite Hperm.
    assert (o = 0 ∨ o = 1 ∨ o = 2 ∨ o = 3 ∨ (o ≠ 0 ∧ o ≠ 1 ∧ o ≠ 2 ∧ o ≠ 3))
      as Ho by lia.
    destruct_or!; [subst o; simpl; lia ..|].
    rewrite !filter_cons_True by lia. simpl. lia. }
  destruct perm as [|a [|b [|c rest]]]; simpl in Hlen; [lia..|].
  apply Forall_cons in Hall as [Ha Hall]. apply Forall_cons in Hall as [Hb Hall].
  apply Forall_cons in Hall as [Hc _].
  exists a, b, c, rest. split; [done|]. do 6 (split; [lia|]).
  apply NoDup_cons in Hnd as [Ha' Hnd]. apply NoDup_cons in Hnd as [Hb' Hnd].
  apply NoDup_cons in Hnd as [Hc' _].
  apply not_elem_of_cons in Ha' as [? Ha']. apply not_elem_of_cons in Ha' as [? _].
  apply not_elem_of_cons in Hb' as [? _].
  repeat constructor; rewrite ?elem_of_cons, ?elem_of_nil; intuition congruence.
Qed.

(** The loop body raises nothing, whatever the day, and records what the
    scan found and an ordering of the other workers. *)
Lemma assignDay_Normal wi day shiftCounts schedule :
  0 <= wi → length shiftCounts = 4%nat →
  ∃ shiftCounts' ds,
    assignDay wi day (shiftCounts, schedule)
      = Normal (shiftCounts', <[date day := ds]> schedule) ∧
    length shiftCounts' = 4%nat ∧ entryOf wi day ds.
Proof.
  intros Hwi Hlen.
  destruct (scanOff_Normal [0; 1; 2; 3] wi (dayOfWeek day)) as (o & Ho & _);
    [repeat constructor; lia|done|].
  unfold assignDay, entryOf, findOffWorker. rewrite Ho, bind_Normal.
  set (perms := permutations (filter (λ w, w ≠ o) [0; 1; 2; 3])).
  assert (perms !! 0%nat = Some (filter (λ w, w ≠ o) [0; 1; 2; 3])) as Hp0
    by apply permutations_head.
  rewrite Hp0.
  destruct (pickBest_elem shiftCounts perms (filter (λ w, w ≠ o) [0; 1; 2; 3])
    Infinity) as (best & -> & Hbest).
  { apply Forall_forall. intros perm Hp.
    destruct (permutations_workers o perm Hp)
      as (a & b & c & rest & -> & ? & ? & ? & _).
    by apply scorePerm_Normal. }
  assert (best ∈ perms) as Hin.
  { apply elem_of_cons in Hbest as [-> | ?]; [|done].
    by apply list_elem_of_lookup_2 in Hp0. }
  destruct (permutations_workers o best Hin)
    as (a & b & c & rest & Heq & Ha & Hb & Hc & _).
  rewrite Heq in *.
  destruct (commit_three shiftCounts a b c rest Hlen Ha Hb Hc)
    as (c' & Hcommit & Hlen').
  rewrite bind_Normal, Hcommit, bind_Normal.
  eexists c', (mkDaySchedule o _). split; [reflexivity|]. split; [done|].
  split; [done|]. exists (a :: b :: c :: rest). split; done.
Qed.

Lemma assignDays_Normal visits shiftCounts schedule :
  length shiftCounts = 4%nat → Forall (λ v : Z * Day, 0 <= v.1) visits →
  ∃ shiftCounts' schedule',
    assignDays visits (shiftCounts, schedule) = Normal (shiftCounts', schedule') ∧
    length shiftCounts' = 4%nat ∧
    (∀ d, is_Some (schedule' !! d) ↔
          is_Some (schedule !! d) ∨ d ∈ date <$> visits.*2) ∧
    (∀ d ds, schedule' !! d = Some ds →
       schedule !! d = Some ds ∨ ∃ wi day, (wi, day) ∈ visits ∧ entryOf wi day ds).
Proof.
  intros Hlen Hvisits. revert shiftCounts schedule Hlen.
  induction Hvisits as [|[wi day] visits Hwi _ IH]; intros shiftCounts schedule Hlen.
  - exists shiftCounts, schedule. split_and!; [done..| |by left].
    intros d. rewrite elem_of_nil. tauto.
  - destruct (assignDay_Normal wi day shiftCounts schedule Hwi Hlen)
      as (c1 & ds & Hday & Hlen1 & Hentry).
    destruct (IH c1 (<[date day := ds]> schedule) Hlen1)
      as (c' & s' & Hrun & Hlen' & Hdom & Hentries).
    exists c', s'. cbn [assignDays]. rewrite Hday, bind_Normal.
    split_and!; [done..| |].
    + intros d. rewrite Hdom, !fmap_cons, elem_of_cons.
      cbn [snd]. destruct (decide (d = date day)) as [-> | Hne].
      * rewrite lookup_insert_eq. split; [auto|]. intros _. left. by eexists.
      * rewrite lookup_insert_ne by done. tauto.
    + intros d ds' [Hd | (wi' & day' & Hin & He)]%Hentries.
      * destruct (decide (d = date day)) as [-> | Hne].
        -- rewrite lookup_insert_eq in Hd. injection Hd as <-.
           right. exists wi, day. split; [apply list_elem_of_here|done].
        -- rewrite lookup_insert_ne in Hd by done. by left.
      * right. exists wi', day'. split; [by apply list_elem_of_further|done].
Qed.

(** The nested loops of [generateSchedule] raise nothing, whatever the year
    and the month, and leave an entry at the dates of the month. *)
Lemma assignWeeks_Normal year month :
  ∃ shiftCounts schedule,
    assignWeeks 0 (groupWeeks (buildDays year month) [] []) (initialCounts, ∅)
      = Normal (shiftCounts, schedule) ∧
    (∀ d, is_Some (schedule !! d) ↔ d ∈ monthDates year month) ∧
    (∀ d ds, schedule !! d = Some ds → ∃ wi day, 0 <= wi ∧ entryOf wi day ds).
Proof.
  set (visits := indexWeeks 0 (groupWeeks (buildDays year month) [] [])).
  assert (Forall (λ v : Z * Day, 0 <= v.1) visits) as Hvisits.
  { apply Forall_forall. intros v (i & _ & _ & _ & ->)%elem_of_indexWeeks. lia. }
  destruct (assignDays_Normal visits initialCounts ∅)
    as (c' & schedule & Hrun & _ & Hdom & Hentries); [done..|].
  exists c', schedule. rewrite assignWeeks_visits. split; [done|]. split.
  - intros d. rewrite Hdom, lookup_empty. unfold visits.
    rewrite indexWeeks_days, groupWeeks_concat, monthDates_buildDays. simpl.
    split; [|auto]. intros [[? [=]] | ?]; done.
  - intros d ds [Hd | (wi & day & Hin & He)]%Hentries.
    + by rewrite lookup_empty in Hd.
    + exists wi, day. split; [|done].
      by apply (proj1 (Forall_forall _ _) Hvisits (wi, day)).
Qed.

Lemma generateSchedule_Normal year month :
  ∃ schedule, generateSchedule year month = Normal schedule ∧
    (∀ d, is_Some (schedule !! d) ↔ d ∈ monthDates year month) ∧
    (∀ d ds, schedule !! d = Some ds → ∃ wi day, 0 <= wi ∧ entryOf wi day ds).
Proof.
  destruct (assignWeeks_Normal year month) as (c & schedule & Hrun & Hdom & He).
  exists schedule. unfold generateSchedule. cbv zeta. by rewrite Hrun.
Qed.

(** What an entry holds, whatever the day of the week of its day. *)
Lemma entryOf_shifts wi day ds :
  0 <= wi → entryOf wi day ds →
  (off ds = -1 ∨ 0 <= off ds <= 3) ∧
  ∃ a b c,
    0 <= a <= 3 ∧ 0 <= b <= 3 ∧ 0 <= c <= 3 ∧ NoDup [a; b; c; off ds] ∧
    shifts ds = <[c := 13]> (<[b := 9]> (<[a := 7]> ∅)).
Proof.
  intros Hwi (Hoff & perm & Hperm & Hshifts).
  destruct (scanOff_Normal [0; 1; 2; 3] wi (dayOfWeek day)) as (o & Ho & Hrange);
    [repeat constructor; lia|done|].
  unfold findOffWorker in Hoff. rewrite Ho in Hoff. injection Hoff as ->.
  split.
  { destruct Hrange as [? | Hin]; [by left|right].
    rewrite !elem_of_cons, elem_of_nil in Hin. lia. }
  destruct (permutations_workers (off ds) perm Hperm)
    as (a & b & c & rest & -> & Ha & Hb & Hc & Hao & Hbo & Hco & Hnd).
  exists a, b, c. do 3 (split; [done|]). split; [|done].
  apply NoDup_cons in Hnd as [Ha' Hnd]. apply NoDup_cons in Hnd as [Hb' _].
  apply not_elem_of_cons in Ha' as [? Ha']. apply not_elem_of_cons in Ha' as [? _].
  apply not_elem_of_cons in Hb' as [? _].
  repeat constructor; rewrite ?elem_of_cons, ?elem_of_nil; intuition congruence.
Qed.

End AnyMonth.

(** X10. Whatever the integers [year] and [month], [generateSchedule]
    raises nothing, and the schedule it returns has an entry at each date
    from 1 to the number of days that [new Date(year, month, 0)] gives, and
    at no other key; it is empty when that number is [NaN]. *)
Theorem generateSchedule_never_throws year month :
  ∃ schedule,
    generateSchedule year month = Normal schedule ∧
    (∀ d, is_Some (schedule !! d) ↔ d ∈ monthDates year month) ∧
    (daysInMonth year month = None → schedule = ∅).
Proof.
  destruct (generateSchedule_Normal year month) as (schedule & Hgen & Hdom & _).
  exists schedule. split; [done|]. split; [done|].
  intros Hnan. apply map_empty. intros d. apply eq_None_not_Some.
  rewrite Hdom. unfold monthDates. rewrite Hnan. apply not_elem_of_nil.
Qed.

(** X20. Whatever the integers [year] and [month], every entry of the
    schedule gives the shifts 7, 9 and 13 to three distinct workers from 0
    to 3 and to nobody else; [off] is a worker from 0 to 3 or -1, and holds
    no shift. *)
Theorem entries_hold_three_shifts year month :
  ∃ schedule,
    generateSchedule year month = Normal schedule ∧
    ∀ d ds, schedule !! d = Some ds →
      (off ds = -1 ∨ 0 <= off ds <= 3) ∧ shifts ds !! off ds = None ∧
      ∃ a b c,
        0 <= a <= 3 ∧ 0 <= b <= 3 ∧ 0 <= c <= 3 ∧ NoDup [a; b; c] ∧
        ∀ w, shifts ds !! w =
               if bool_decide (w = a) then Some 7
               else if bool_decide (w = b) then Some 9
               else if bool_decide (w = c) then Some 13
               else None.
Proof.
  destruct (generateSchedule_Normal year month) as (schedule & Hgen & _ & Hentries).
  exists schedule. split; [done|]. intros d ds Hd.
  destruct (Hentries d ds Hd) as (wi & day & Hwi & Hentry).
  destruct (entryOf_shifts wi day ds Hwi Hentry)
    as (Hoff & a & b & c & Ha & Hb & Hc & Hnd & Hshifts).
  apply NoDup_cons in Hnd as [Ha' Hnd]. apply NoDup_cons in Hnd as [Hb' Hnd].
  apply NoDup_cons in Hnd as [Hc' _].
  apply not_elem_of_cons in Ha' as [Hab Ha']. apply not_elem_of_cons in Ha' as [Hac Ha'].
  apply not_elem_of_cons in Ha' as [Hao _].
  apply not_elem_of_cons in Hb' as [Hbc Hb']. apply not_elem_of_cons in Hb' as [Hbo _].
  apply not_elem_of_cons in Hc' as [Hco _].
  split; [done|]. split.
  { rewrite Hshifts, !lookup_insert_ne by done. apply lookup_empty. }
  exists a, b, c. do 3 (split; [done|]). split.
  { repeat constructor; rewrite ?elem_of_cons, ?elem_of_nil; intuition congruence. }
  intros w. rewrite Hshifts. repeat case_bool_decide; subst.
  - by rewrite !lookup_insert_ne, lookup_insert_eq by done.
  - by rewrite lookup_insert_ne, lookup_insert_eq by done.
  - by rewrite lookup_insert_eq.
  - rewrite !lookup_insert_ne by done. apply lookup_empty.
Qed.

(** ** The table and the workbook *)

Section Workbook.

Lemma missing_date (schedule : gmap Z DaySchedule) dates :
  ¬ Forall (λ d, is_Some (schedule !! d)) dates →
  ∃ d, d ∈ dates ∧ schedule !! d = None.
Proof.
  intros (d & Hd & Hnone)%not_Forall_Exists%Exists_exists; [|apply _].
  exists d. split; [done|]. by apply eq_None_not_Some.
Qed.

Lemma dayRowsOf_throws year month names schedule dates :
  dayRowsOf year month names schedule dates = Throw ↔
  ∃ d, d ∈ dates ∧ schedule !! d = None.
Proof.
  destruct (decide (Forall (λ d, is_Some (schedule !! d)) dates)) as [Hall | Hnot].
  - destruct (dayRowsOf_complete year month names schedule dates)
      as (rows & -> & _); [by apply Forall_forall|].
    split; [done|]. intros (d & Hd & Hnone).
    apply (proj1 (Forall_forall _ _) Hall) in Hd. rewrite Hnone in Hd.
    by destruct Hd.
  - split; [intros _; by apply missing_date|].
    intros (d & Hd & Hnone). by apply (dayRowsOf_missing _ _ _ _ _ d).
Qed.

Lemma changeMonth_schedule delta st :
  st_schedule (changeMonth delta st) = st_schedule st ∧
  st_names (changeMonth delta st) = st_names st.
Proof. unfold changeMonth. by repeat case_match. Qed.

Lemma changeMonth_date delta st st' :
  st_year st = st_year st' → st_month st = st_month st' →
  st_year (changeMonth delta st) = st_year (changeMonth delta st') ∧
  st_month (changeMonth delta st) = st_month (changeMonth delta st').
Proof. unfold changeMonth. intros -> ->. by repeat case_match. Qed.

(** [exportToExcel] raises exactly when a date of the month of [state] has
    no entry in the schedule of [state]. *)
Lemma exportToExcel_throws st schedule :
  st_schedule st = Some schedule →
  exportToExcel st = Throw ↔
  ∃ d, d ∈ monthDates (st_year st) (st_month st) ∧ schedule !! d = None.
Proof.
  intros Hs. unfold exportToExcel, dayRows. rewrite Hs.
  destruct (decide (Forall (λ d, is_Some (schedule !! d))
    (monthDates (st_year st) (st_month st)))) as [Hall | Hnot].
  - rewrite Forall_forall in Hall.
    destruct (dayRowsOf_complete (st_year st) (st_month st) (st_names st) schedule
      (monthDates (st_year st) (st_month st)) Hall) as (rows & -> & _).
    rewrite bind_Normal, exportSummary_complete, bind_Normal by done.
    split; [done|]. intros (d & Hd & Hnone). apply Hall in Hd.
    rewrite Hnone in Hd. by destruct Hd.
  - destruct (missing_date _ _ Hnot) as (d & Hd & Hnone).
    rewrite (dayRowsOf_missing _ _ _ _ _ d) by done.
    split; [eauto|done].
Qed.

Lemma at_index_names (names : list string) :
  length names = 4%nat → at_index names <$> [0; 1; 2; 3] = Some <$> names.
Proof. by destruct names as [|n0 [|n1 [|n2 [|n3 [|]]]]]. Qed.

(** In a usable month every date has a day of the week. *)
Lemma getDay_usable year month d :
  usable year month → 1 <= d <= monthLength month (InLeapYear (fullYear year)) →
  ∃ dow, getDay (newDate year (month - 1) d) = Some dow ∧ 0 <= dow <= 6.
Proof.
  intros Hu Hd.
  destruct (buildDays_usable year month Hu) as (dow0 & n & Hdow0 & Hn & Hdim & Hdays).
  rewrite daysInMonth_usable in Hdim by done. injection Hdim as Hlen.
  unfold buildDays in Hdays. rewrite daysInMonth_usable in Hdays by done.
  rewrite Hlen in Hd, Hdays. unfold monthDays in Hdays.
  assert (seqZ 1 n !! Z.to_nat (d - 1) = Some d) as Hlook
    by (apply lookup_seqZ; lia).
  apply (f_equal (λ l, dayOfWeek <$> l !! Z.to_nat (d - 1))) in Hdays.
  rewrite !list_lookup_fmap, Hlook in Hdays. simpl in Hdays.
  injection Hdays as ->. eexists. split; [done|].
  Z.to_euclidean_division_equations; lia.
Qed.

(** The cells of a row name the four workers, each under the shift held. *)
Lemma dayCells_names names ds :
  length names = 4%nat → dayInvariant ds →
  wOff (dayCells names ds) = at_index names (off ds) ∧
  (∀ w, shifts ds !! w = Some 7 → w7 (dayCells names ds) = at_index names w) ∧
  (∀ w, shifts ds !! w = Some 9 → w9 (dayCells names ds) = at_index names w) ∧
  (∀ w, shifts ds !! w = Some 13 → w13 (dayCells names ds) = at_index names w) ∧
  [w7 (dayCells names ds); w9 (dayCells names ds); w13 (dayCells names ds);
   wOff (dayCells names ds)] ≡ₚ Some <$> names.
Proof.
  intros Hlen Hinv.
  destruct (dayCells_invariant names ds Hlen Hinv)
    as (a & b & c & Ha & Hb & Hc & Har & Hbr & Hcr & Hnd & ->).
  destruct Hinv as (Hoff & _ & _ & Hinj & _).
  cbn [w7 w9 w13 wOff]. split; [done|].
  split; [intros w Hw; by rewrite (Hinj w a 7)|].
  split; [intros w Hw; by rewrite (Hinj w b 9)|].
  split; [intros w Hw; by rewrite (Hinj w c 13)|].
  rewrite <- at_index_names by done.
  change ([at_index names a; at_index names b; at_index names c;
           at_index names (off ds)])
    with (at_index names <$> [a; b; c; off ds]).
  f_equiv. apply NoDup_Permutation; [done| |].
  - repeat constructor; rewrite ?elem_of_cons, ?elem_of_nil; lia.
  - apply NoDup_cons in Hnd as [H1 Hnd]. apply NoDup_cons in Hnd as [H2 Hnd].
    apply NoDup_cons in Hnd as [H3 _].
    repeat match goal with
           | H : _ ∉ _ :: _ |- _ => apply not_elem_of_cons in H as [? ?]
           end.
    intros x. rewrite !elem_of_cons, !elem_of_nil. lia.
Qed.

End Workbook.

(** X11. The loop over the days of [renderTable], the same as that of the
    first sheet of [exportToExcel], raises exactly when a date of the month
    has no entry in the schedule it is given; otherwise it gives one row per
    date, in order. *)
Theorem dayRows_throws year month names schedule :
  (dayRows year month names schedule = Throw ↔
   ∃ d, d ∈ monthDates year month ∧ schedule !! d = None) ∧
  (∀ rows, dayRows year month names schedule = Normal rows →
     r_date <$> rows = monthDates year month).
Proof.
  split; [apply dayRowsOf_throws|].
  intros rows Hrows.
  destruct (decide (Forall (λ d, is_Some (schedule !! d)) (monthDates year month)))
    as [Hall | Hnot].
  - rewrite Forall_forall in Hall.
    destruct (dayRowsOf_complete year month names schedule _ Hall)
      as (rows' & Hrows' & Hdates & _).
    unfold dayRows in Hrows. rewrite Hrows' in Hrows. by injection Hrows as <-.
  - apply missing_date in Hnot.
    apply (dayRowsOf_throws year month names) in Hnot.
    unfold dayRows in Hrows. by rewrite Hnot in Hrows.
Qed.

(** X12. For a usable month and four names, the table that [generate]
    renders from the schedule it has just built has a row for every date of
    the month; each row has a day name and names the four workers, each
    once: the worker off in the last cell, and the workers holding the
    shifts 7, 9 and 13 in the cells of these shifts. *)
Theorem table_rows_name_everyone year month names :
  usable year month → length names = 4%nat →
  ∃ schedule rows,
    generateSchedule year month = Normal schedule ∧
    dayRows year month names schedule = Normal rows ∧
    r_date <$> rows = seqZ 1 (monthLength month (InLeapYear (fullYear year))) ∧
    ∀ row, row ∈ rows →
      is_Some (r_dayName row) ∧
      ∃ ds, schedule !! r_date row = Some ds ∧
        wOff (r_cells row) = at_index names (off ds) ∧
        (∀ w, shifts ds !! w = Some 7 → w7 (r_cells row) = at_index names w) ∧
        (∀ w, shifts ds !! w = Some 9 → w9 (r_cells row) = at_index names w) ∧
        (∀ w, shifts ds !! w = Some 13 → w13 (r_cells row) = at_index names w) ∧
        [w7 (r_cells row); w9 (r_cells row); w13 (r_cells row); wOff (r_cells row)]
          ≡ₚ Some <$> names.
Proof.
  intros Hu Hlen.
  destruct (generateSchedule_Normal year month) as (schedule & Hgen & _ & _).
  pose proof (generated_dates year month schedule) as Hdom.
  destruct (dayRowsOf_complete year month names schedule (monthDates year month))
    as (rows & Hrows & Hdates & Hcells).
  { intros d Hd. rewrite monthDates_usable in Hd by done.
    apply Hdom; [done..|]. apply elem_of_seqZ in Hd. lia. }
  exists schedule, rows. split; [done|]. split; [done|].
  rewrite <- monthDates_usable by done.
  split; [done|]. intros row Hrow.
  destruct (Hcells row Hrow) as (Hname & ds & Hds & Hc).
  assert (1 <= r_date row <= monthLength month (InLeapYear (fullYear year))) as Hr
    by (apply (Hdom (r_date row) Hu Hgen); by rewrite Hds).
  split.
  - destruct (getDay_usable year month (r_date row) Hu Hr) as (dow & Hdow & Hrange).
    rewrite Hname, Hdow. simpl. apply at_index_Some. simpl. lia.
  - exists ds. split; [done|]. rewrite Hc. apply dayCells_names; [done|].
    by apply (generated_dayInvariant year month schedule (r_date row)).
Qed.

Lemma table_rows_name_everyone_witness :
  ∃ schedule rows,
    generateSchedule 2026 2 = Normal schedule ∧
    dayRows 2026 2 ["Kim"; "Lee"; "Park"; "Choi"]%string schedule = Normal rows ∧
    r_date <$> rows = seqZ 1 28.
Proof.
  destruct (table_rows_name_everyone 2026 2 ["Kim"; "Lee"; "Park"; "Choi"]%string
    usable_2026_02 eq_refl) as (schedule & rows & Hgen & Hrows & Hdates & _).
  exists schedule, rows. split; [exact Hgen|]. split; [exact Hrows|exact Hdates].
Defined.

(** ** [renderCalendar] and [generate] *)

Section CalendarCells.

Lemma insertEntry_perm x sorted : insertEntry x sorted ≡ₚ x :: sorted.
Proof.
  induction sorted as [|y rest IH]; [done|]. simpl. case_match; [done|].
  rewrite IH. apply Permutation_swap.
Qed.

(** The sort rearranges the entries. *)
Lemma sortEntries_perm entries : sortEntries entries ≡ₚ entries.
Proof.
  unfold sortEntries.
  assert (∀ sorted, foldl (λ sorted x, insertEntry x sorted) sorted entries
                    ≡ₚ sorted ++ entries) as Hacc.
  { induction entries as [|x entries IH]; intros sorted; simpl.
    - by rewrite app_nil_r.
    - rewrite IH, insertEntry_perm. simpl. apply Permutation_middle. }
  apply (Hacc []).
Qed.

(** The lines of a cell are built unless the line of one entry throws,
    whatever the order of the entries. *)
Lemma entryLines_throws names entries :
  entryLines names entries = Throw ↔
  ∃ e, e ∈ entries ∧ entryLine names e = Throw.
Proof.
  induction entries as [|e entries IH]; simpl.
  - split; [done|]. by intros (e & ?%elem_of_nil & _).
  - destruct (entryLine names e) as [line|] eqn:He.
    + rewrite bind_Normal. destruct (entryLines names entries) as [lines|].
      * rewrite bind_Normal. split; [done|].
        intros (e' & [-> | Hin]%elem_of_cons & He'); [congruence|].
        assert (Normal lines = Throw) as Habs; [|done].
        apply IH. by exists e'.
      * split; [|done]. intros _.
        destruct (proj1 IH eq_refl) as (e' & Hin & He').
        exists e'. split; [by apply list_elem_of_further|done].
    + split; [|done]. intros _. exists e. split; [apply list_elem_of_here|done].
Qed.

(** The line of the entry of worker [w] throws when [w] is not the worker
    off and holds none of the three shifts. *)
Lemma entryLine_throws names ds w :
  entryLine names (calendarEntry ds w) = Throw ↔
  w ≠ off ds ∧ ∀ id, id ∈ SHIFTS → shifts ds !! w ≠ Some id.
Proof.
  unfold calendarEntry, entryLine, SHIFTS. case_bool_decide as Hw; simpl.
  { split; [done|]. by intros [? _]. }
  destruct (shifts ds !! w) as [id|]; simpl.
  - assert (∀ s, bool_decide (Some s = Some id) = bool_decide (s = id)) as Hdec
      by (intros s; apply bool_decide_ext; split; congruence).
    rewrite !Hdec.
    destruct (decide (id = 7)) as [-> | H7].
    { simpl. split; [done|]. intros [_ Hid].
      destruct (Hid 7); [|done]. rewrite !elem_of_cons. auto. }
    rewrite (bool_decide_eq_false_2 (7 = id)) by done.
    destruct (decide (id = 9)) as [-> | H9].
    { simpl. split; [done|]. intros [_ Hid].
      destruct (Hid 9); [|done]. rewrite !elem_of_cons. auto. }
    rewrite (bool_decide_eq_false_2 (9 = id)) by done.
    destruct (decide (id = 13)) as [-> | H13].
    { simpl. split; [done|]. intros [_ Hid].
      destruct (Hid 13); [|done]. rewrite !elem_of_cons. auto. }
    rewrite (bool_decide_eq_false_2 (13 = id)) by done. simpl.
    split; [|done]. intros _. split; [done|]. intros id' Hin [= <-].
    rewrite !elem_of_cons, elem_of_nil in Hin. lia.
  - split; [|done]. intros _. split; [done|]. by intros id _.
Qed.

Lemma calendarCell_throws names ds :
  entryLines names (sortEntries (calendarEntries ds)) = Throw ↔
  ∃ w, 0 <= w <= 3 ∧ w ≠ off ds ∧ ∀ id, id ∈ SHIFTS → shifts ds !! w ≠ Some id.
Proof.
  rewrite entryLines_throws. split.
  - intros (e & He & Hthrow). rewrite sortEntries_perm in He.
    apply list_elem_of_fmap in He as (w & -> & Hw).
    exists w. split; [|by apply (entryLine_throws names)].
    rewrite !elem_of_cons, elem_of_nil in Hw. lia.
  - intros (w & Hw & Hthrow). exists (calendarEntry ds w). split.
    + rewrite sortEntries_perm. apply list_elem_of_fmap. exists w. split; [done|].
      rewrite !elem_of_cons. lia.
    + by apply entryLine_throws.
Qed.

Lemma calendarCells_throws year month names schedule dates :
  calendarCells year month names schedule dates = Throw ↔
  ∃ d ds w, d ∈ dates ∧ schedule !! d = Some ds ∧ 0 <= w <= 3 ∧ w ≠ off ds ∧
            ∀ id, id ∈ SHIFTS → shifts ds !! w ≠ Some id.
Proof.
  induction dates as [|d dates IH]; cbn [calendarCells].
  - split; [done|]. by intros (d & ds & w & ?%elem_of_nil & _).
  - destruct (schedule !! d) as [ds|] eqn:Hd.
    + destruct (entryLines names (sortEntries (calendarEntries ds))) as [lines|]
        eqn:Hlines.
      * rewrite bind_Normal.
        destruct (calendarCells year month names schedule dates) as [cells|].
        -- rewrite bind_Normal. split; [done|].
           intros (d' & ds' & w & [-> | Hin]%elem_of_cons & Hd' & Hw).
           ++ rewrite Hd in Hd'. injection Hd' as <-.
              assert (entryLines names (sortEntries (calendarEntries ds)) = Throw)
                as Habs by (apply calendarCell_throws; by exists w).
              congruence.
           ++ assert (Normal cells = Throw) as Habs; [|done].
              apply IH. by exists d', ds', w.
        -- split; [|done]. intros _.
           destruct (proj1 IH eq_refl) as (d' & ds' & w & Hin & Hrest).
           exists d', ds', w. split; [by apply list_elem_of_further|done].
      * split; [|done]. intros _.
        apply calendarCell_throws in Hlines as (w & Hw).
        exists d, ds, w. split; [apply list_elem_of_here|done].
    + rewrite bind_Normal.
      destruct (calendarCells year month names schedule dates) as [cells|].
      * rewrite bind_Normal. split; [done|].
        intros (d' & ds' & w & [-> | Hin]%elem_of_cons & Hd' & Hw); [congruence|].
        assert (Normal cells = Throw) as Habs; [|done].
        apply IH. by exists d', ds', w.
      * split; [|done]. intros _.
        destruct (proj1 IH eq_refl) as (d' & ds' & w & Hin & Hrest).
        exists d', ds', w. split; [by apply list_elem_of_further|done].
Qed.

(** In an entry of [generateSchedule] a worker from 0 to 3 is neither off
    nor on a shift exactly when nobody is off. *)
Lemma entry_without_shift wi day ds :
  0 <= wi → entryOf wi day ds →
  (∃ w, 0 <= w <= 3 ∧ w ≠ off ds ∧ ∀ id, id ∈ SHIFTS → shifts ds !! w ≠ Some id)
  ↔ off ds = -1.
Proof.
  intros Hwi Hentry.
  destruct (entryOf_shifts wi day ds Hwi Hentry)
    as (Hoff & a & b & c & Ha & Hb & Hc & Hnd & Hshifts).
  apply NoDup_cons in Hnd as [Ha' Hnd]. apply NoDup_cons in Hnd as [Hb' Hnd].
  apply NoDup_cons in Hnd as [Hc' _].
  apply not_elem_of_cons in Ha' as [Hab Ha']. apply not_elem_of_cons in Ha' as [Hac Ha'].
  apply not_elem_of_cons in Ha' as [Hao _].
  apply not_elem_of_cons in Hb' as [Hbc Hb']. apply not_elem_of_cons in Hb' as [Hbo _].
  apply not_elem_of_cons in Hc' as [Hco _].
  assert (∀ w, (∀ id, id ∈ SHIFTS → shifts ds !! w ≠ Some id) ↔
               w ≠ a ∧ w ≠ b ∧ w ≠ c) as Hnone.
  { intros w. rewrite Hshifts. unfold SHIFTS. split.
    - intros Hid. split_and!; intros ->.
      + apply (Hid 7); [rewrite !elem_of_cons; auto|].
        by rewrite !lookup_insert_ne, lookup_insert_eq by congruence.
      + apply (Hid 9); [rewrite !elem_of_cons; auto|].
        by rewrite lookup_insert_ne, lookup_insert_eq by congruence.
      + apply (Hid 13); [rewrite !elem_of_cons; auto|].
        by rewrite lookup_insert_eq.
    - intros (? & ? & ?) id _. by rewrite !lookup_insert_ne, lookup_empty by congruence. }
  split.
  - intros (w & Hw & Hwo & Hid%Hnone). lia.
  - intros Ho. exists (6 - a - b - c). rewrite Hnone. lia.
Qed.

End CalendarCells.

Section Generate.

Lemma calendarEntry_off ds w :
  w = off ds → calendarEntry ds w = mkEntry w None (Some 999).
Proof. intros Hw. unfold calendarEntry. by rewrite bool_decide_eq_true_2. Qed.

Lemma calendarEntry_shift ds w id :
  shifts ds !! w = Some id → w ≠ off ds →
  calendarEntry ds w = mkEntry w (Some (Some id)) (Some id).
Proof.
  intros Hid Hw. unfold calendarEntry. by rewrite bool_decide_eq_false_2, Hid.
Qed.

(** The lines of the cell of a day that satisfies the invariant: the
    shifts in ascending order, then the worker off. *)
Lemma calendarLines_invariant names ds :
  dayInvariant ds →
  ∃ a b c,
    shifts ds !! a = Some 7 ∧ shifts ds !! b = Some 9 ∧ shifts ds !! c = Some 13 ∧
    entryLines names (sortEntries (calendarEntries ds)) =
      Normal [(Some 7, at_index names a); (Some 9, at_index names b);
              (Some 13, at_index names c); (None, at_index names (off ds))].
Proof.
  intros (Hoff & Hdom & _ & _ & Hsur).
  destruct (Hsur 7) as [a Ha]; [unfold SHIFTS; rewrite !elem_of_cons; auto|].
  destruct (Hsur 9) as [b Hb]; [unfold SHIFTS; rewrite !elem_of_cons; auto|].
  destruct (Hsur 13) as [c Hc]; [unfold SHIFTS; rewrite !elem_of_cons; auto|].
  destruct (proj1 (Hdom a)) as [Har Hao]; [by eexists|].
  destruct (proj1 (Hdom b)) as [Hbr Hbo]; [by eexists|].
  destruct (proj1 (Hdom c)) as [Hcr Hco]; [by eexists|].
  assert (a ≠ b) as Hab by congruence.
  assert (a ≠ c) as Hac by congruence.
  assert (b ≠ c) as Hbc by congruence.
  exists a, b, c. do 3 (split; [done|]).
  assert ([a; b; c; off ds] ∈ permutations [0; 1; 2; 3]) as Hperm.
  { apply elem_of_permutations, NoDup_Permutation.
    - repeat constructor; rewrite ?elem_of_cons, ?elem_of_nil; lia.
    - repeat constructor; rewrite ?elem_of_cons, ?elem_of_nil; lia.
    - intros x. rewrite !elem_of_cons, !elem_of_nil. lia. }
  set (perms := permutations [0; 1; 2; 3]) in Hperm.
  vm_compute in perms. subst perms. clear Hab Hac Hbc Har Hbr Hcr Hoff Hdom Hsur.
  unfold calendarEntries. cbn [fmap list_fmap].
  repeat (apply elem_of_cons in Hperm as [[= -> -> -> Ho] | Hperm]);
    [ do 4 (match goal with
            | |- context [calendarEntry ds ?w] =>
                first
                  [ rewrite (calendarEntry_off ds w (eq_sym Ho))
                  | rewrite (calendarEntry_shift ds w 7 Ha Hao)
                  | rewrite (calendarEntry_shift ds w 9 Hb Hbo)
                  | rewrite (calendarEntry_shift ds w 13 Hc Hco) ]
            end);
      rewrite Ho; reflexivity ..|].
  by apply elem_of_nil in Hperm.
Qed.

(** With lines for the entry of every date the cells are built, one per
    date. *)
Lemma calendarCells_complete year month names schedule dates :
  calendarCells year month names schedule dates ≠ Throw →
  ∃ cells,
    calendarCells year month names schedule dates = Normal cells ∧
    c_date <$> cells = dates ∧
    ∀ cell, cell ∈ cells →
      c_dow cell = getDay (newDate year (month - 1) (c_date cell)) ∧
      match schedule !! c_date cell with
      | Some ds => entryLines names (sortEntries (calendarEntries ds))
      | None => Normal []
      end = Normal (c_lines cell).
Proof.
  induction dates as [|d dates IH]; cbn [calendarCells]; intros Hok.
  - exists []. split_and!; [done..|]. by intros cell ?%elem_of_nil.
  - destruct (match schedule !! d with
              | Some ds => entryLines names (sortEntries (calendarEntries ds))
              | None => Normal []
              end) as [lines|] eqn:Hlines; [|done].
    rewrite bind_Normal in Hok |- *.
    destruct (calendarCells year month names schedule dates) as [cells|]; [|done].
    destruct IH as (cells' & [= <-] & Hdates & Hcells); [done|].
    rewrite bind_Normal. eexists. split; [reflexivity|].
    split; [by rewrite fmap_cons, Hdates|].
    intros cell [-> | Hin]%elem_of_cons; [by split|by apply Hcells].
Qed.

(** What [generate] does, whatever the year and the month of [state]. *)
Lemma generate_result inputs st :
  ∃ schedule,
    generateSchedule (st_year st) (st_month st) = Normal schedule ∧
    (∀ d, is_Some (schedule !! d) ↔ d ∈ monthDates (st_year st) (st_month st)) ∧
    (generate inputs st).1 =
      mkAppState (st_year st) (st_month st) (readNames inputs) (Some schedule) ∧
    (generate inputs st).2 =
      (renderCalendar (st_year st) (st_month st) (readNames inputs) schedule
       ≫= λ _, Normal tt) ∧
    ((generate inputs st).2 = Throw ↔
     ∃ d ds, schedule !! d = Some ds ∧ off ds = -1).
Proof.
  destruct (generateSchedule_Normal (st_year st) (st_month st))
    as (schedule & Hgen & Hdom & Hentries).
  exists schedule. split; [done|]. split; [done|].
  destruct (dayRowsOf_complete (st_year st) (st_month st) (readNames inputs) schedule
    (monthDates (st_year st) (st_month st))) as (rows & Hrows & _).
  { intros d Hd. by apply Hdom. }
  assert ((generate inputs st).2 =
    (renderCalendar (st_year st) (st_month st) (readNames inputs) schedule
     ≫= λ _, Normal tt)) as Hcompletion.
  { unfold generate. cbn [st_year st_month st_names]. rewrite Hgen. cbn [snd].
    unfold renderTable, dayRows. rewrite Hrows.
    by destruct (renderCalendar _ _ _ _). }
  split; [unfold generate; cbn [st_year st_month st_names]; by rewrite Hgen|].
  split; [done|]. rewrite Hcompletion.
  assert (renderCalendar (st_year st) (st_month st) (readNames inputs) schedule
          = Throw ↔ ∃ d ds, schedule !! d = Some ds ∧ off ds = -1) as <-.
  { unfold renderCalendar. rewrite calendarCells_throws. split.
    - intros (d & ds & w & _ & Hd & Hw).
      destruct (Hentries d ds Hd) as (wi & day & Hwi & Hentry).
      exists d, ds. split; [done|].
      apply (entry_without_shift wi day ds Hwi Hentry). by exists w.
    - intros (d & ds & Hd & Ho).
      destruct (Hentries d ds Hd) as (wi & day & Hwi & Hentry).
      apply (entry_without_shift wi day ds Hwi Hentry) in Ho as (w & Hw).
      exists d, ds, w. split; [|done]. apply Hdom. by rewrite Hd. }
  by destruct (renderCalendar _ _ _ _).
Qed.

(** For a usable month [generate] raises nothing. *)
Lemma generate_usable inputs st :
  usable (st_year st) (st_month st) →
  ∃ schedule,
    generateSchedule (st_year st) (st_month st) = Normal schedule ∧
    generate inputs st =
      (mkAppState (st_year st) (st_month st) (readNames inputs) (Some schedule),
       Normal tt).
Proof.
  intros Hu.
  destruct (generate_result inputs st) as (schedule & Hgen & _ & Hst & _ & Hthrow).
  exists schedule. split; [done|].
  destruct (generate inputs st) as [st' [[]|]]; simpl in *; [by rewrite Hst|].
  destruct (proj1 Hthrow eq_refl) as (d & ds & Hd & Ho).
  destruct (generated_dayInvariant _ _ schedule d ds Hu Hgen Hd) as [Hoff _]. lia.
Qed.

End Generate.

(** X13. Whatever the year and the month of [state], [generate] stores the
    names read and the schedule that [generateSchedule] returns. It raises,
    in [renderCalendar] and after having stored them, exactly when an entry
    of the schedule has nobody off, and never for a usable month. On the
    state it leaves, [exportToExcel] raises nothing: it builds one row per
    date of the month and, for four inputs, four rows of statistics under
    the names read. *)
Theorem generate_exportToExcel inputs st :
  length inputs = 4%nat →
  ∃ schedule rows summaryRows,
    generateSchedule (st_year st) (st_month st) = Normal schedule ∧
    (generate inputs st).1 =
      mkAppState (st_year st) (st_month st) (readNames inputs) (Some schedule) ∧
    ((generate inputs st).2 = Throw ↔
     ∃ d ds, schedule !! d = Some ds ∧ off ds = -1) ∧
    (usable (st_year st) (st_month st) → (generate inputs st).2 = Normal tt) ∧
    exportToExcel (generate inputs st).1 = Normal (Some (rows, summaryRows)) ∧
    r_date <$> rows = monthDates (st_year st) (st_month st) ∧
    s_name <$> summaryRows = Some <$> readNames inputs.
Proof.
  intros Hlen.
  destruct (generate_result inputs st) as (schedule & Hgen & Hdom & Hst & _ & Hthrow).
  destruct (dayRowsOf_complete (st_year st) (st_month st) (readNames inputs) schedule
    (monthDates (st_year st) (st_month st))) as (rows & Hrows & Hdates & _).
  { intros d Hd. by apply Hdom. }
  eexists schedule, rows, _. do 3 (split; [done|]). split.
  { intros Hu. destruct (generate_usable inputs st Hu) as (schedule' & _ & ->).
    reflexivity. }
  rewrite Hst. unfold exportToExcel, dayRows.
  cbn [st_schedule st_year st_month st_names].
  rewrite Hrows, bind_Normal, exportSummary_complete, bind_Normal
    by (intros d Hd; by apply Hdom).
  split; [reflexivity|]. split; [done|].
  rewrite <- at_index_names.
  - reflexivity.
  - destruct inputs as [|i0 [|i1 [|i2 [|i3 [|]]]]]; done.
Qed.

Lemma generate_exportToExcel_witness :
  ∃ schedule rows summaryRows,
    generateSchedule 2026 2 = Normal schedule ∧
    generate ["Kim"; EmptyString; "Park"; "Choi"]%string initialState =
      (mkAppState 2026 2 ["Kim"; "직원B"; "Park"; "Choi"]%string (Some schedule),
       Normal tt) ∧
    exportToExcel (mkAppState 2026 2 ["Kim"; "직원B"; "Park"; "Choi"]%string
                     (Some schedule))
      = Normal (Some (rows, summaryRows)) ∧
    r_date <$> rows = monthDates 2026 2.
Proof.
  destruct (generate_exportToExcel ["Kim"; EmptyString; "Park"; "Choi"]%string
              initialState eq_refl)
    as (schedule & rows & summaryRows & Hgen & Hst & _ & Hok & Hexp & Hdates & _).
  exists schedule, rows, summaryRows. split; [exact Hgen|].
  rewrite Hst in Hexp. split; [|split; [exact Hexp|exact Hdates]].
  rewrite (surjective_pairing (generate _ initialState)), Hst.
  rewrite (Hok usable_2026_02). reflexivity.
Defined.

(** In April of year -271821, whose first days the host cannot represent,
    [generate] stores the schedule and then raises in [renderCalendar]. *)
Example generate_year_out_of_range :
  ∃ schedule,
    generate ["Kim"; "Lee"; "Park"; "Choi"]%string (mkAppState (-271821) 4 [] None)
    = (mkAppState (-271821) 4 ["Kim"; "Lee"; "Park"; "Choi"]%string (Some schedule),
       Throw).
Proof. eexists. vm_compute. reflexivity. Qed.

(** X14. [changeMonth] keeps the schedule of the month it leaves. After
    [generate] for a usable month and a change to another usable month,
    [exportToExcel] raises exactly when the new month is longer than the
    one the schedule was generated for. *)
Theorem stale_schedule inputs st delta :
  usable (st_year st) (st_month st) →
  usable (st_year (changeMonth delta st)) (st_month (changeMonth delta st)) →
  ∃ st',
    generate inputs st = (st', Normal tt) ∧
    st_year (changeMonth delta st') = st_year (changeMonth delta st) ∧
    st_month (changeMonth delta st') = st_month (changeMonth delta st) ∧
    st_schedule (changeMonth delta st') = st_schedule st' ∧
    (exportToExcel (changeMonth delta st') = Throw ↔
     monthLength (st_month st) (InLeapYear (fullYear (st_year st))) <
     monthLength (st_month (changeMonth delta st))
       (InLeapYear (fullYear (st_year (changeMonth delta st))))).
Proof.
  intros Hu Hu''.
  destruct (generate_usable inputs st Hu) as (schedule & Hs & Hgenerate).
  set (st' := mkAppState (st_year st) (st_month st) (readNames inputs)
                (Some schedule)) in *.
  exists st'. split; [done|].
  destruct (changeMonth_date delta st' st) as [Hyear Hmonth]; [done..|].
  destruct (changeMonth_schedule delta st') as [Hkeep _].
  do 3 (split; [done|]).
  rewrite (exportToExcel_throws (changeMonth delta st') schedule) by done.
  rewrite Hyear, Hmonth, monthDates_usable by done.
  pose proof (generated_dates (st_year st) (st_month st) schedule) as Hdom.
  pose proof (monthLength_range (st_month st) _
    (InLeapYear_range (fullYear (st_year st)))) as Hr.
  pose proof (monthLength_range (st_month (changeMonth delta st)) _
    (InLeapYear_range (fullYear (st_year (changeMonth delta st))))) as Hr''.
  split.
  - intros (d & Hd%elem_of_seqZ & Hnone).
    assert (¬ (1 <= d <= monthLength (st_month st)
                              (InLeapYear (fullYear (st_year st))))) as Hout.
    { intros Hin. apply (Hdom d Hu Hs) in Hin. rewrite Hnone in Hin.
      by destruct Hin. }
    lia.
  - intros Hlt.
    exists (monthLength (st_month (changeMonth delta st))
              (InLeapYear (fullYear (st_year (changeMonth delta st))))).
    split; [apply elem_of_seqZ; lia|]. apply eq_None_not_Some.
    intros Hin%(Hdom _ Hu Hs). lia.
Qed.

Lemma stale_schedule_witness :
  (∃ st', generate ["Kim"; "Lee"; "Park"; "Choi"]%string initialState
            = (st', Normal tt) ∧
          exportToExcel (changeMonth 1 st') = Throw) ∧
  (∃ st', generate ["Kim"; "Lee"; "Park"; "Choi"]%string
            (mkAppState 2026 3 [] None) = (st', Normal tt) ∧
          exportToExcel (changeMonth 1 st') ≠ Throw).
Proof.
  split.
  - destruct (stale_schedule ["Kim"; "Lee"; "Park"; "Choi"]%string initialState 1)
      as (st' & Hgen & _ & _ & _ & Hthrow);
      [exact usable_2026_02|unfold usable; simpl; lia|].
    exists st'. split; [exact Hgen|]. apply Hthrow. vm_compute. reflexivity.
  - destruct (stale_schedule ["Kim"; "Lee"; "Park"; "Choi"]%string
                (mkAppState 2026 3 [] None) 1)
      as (st' & Hgen & _ & _ & _ & Hthrow); [unfold usable; simpl; lia..|].
    exists st'. split; [exact Hgen|]. intros Hexp. apply Hthrow in Hexp.
    vm_compute in Hexp. discriminate Hexp.
Defined.

(** X21. For a usable month [renderCalendar] raises nothing on the schedule
    that [generateSchedule] returns, and builds a cell for every date of
    the month, with its day of the week; a cell lists the workers on the
    shifts 7, 9 and 13, in this order, and then the worker off, each with
    [state.names] of the worker. *)
Theorem calendar_cells_list_shifts year month names :
  usable year month →
  ∃ schedule cells,
    generateSchedule year month = Normal schedule ∧
    renderCalendar year month names schedule = Normal cells ∧
    c_date <$> cells = seqZ 1 (monthLength month (InLeapYear (fullYear year))) ∧
    ∀ cell, cell ∈ cells →
      ∃ ds a b c dow,
        schedule !! c_date cell = Some ds ∧
        shifts ds !! a = Some 7 ∧ shifts ds !! b = Some 9 ∧
        shifts ds !! c = Some 13 ∧
        c_lines cell =
          [(Some 7, at_index names a); (Some 9, at_index names b);
           (Some 13, at_index names c); (None, at_index names (off ds))] ∧
        c_dow cell = Some dow ∧ 0 <= dow <= 6.
Proof.
  intros Hu.
  destruct (generateSchedule_Normal year month) as (schedule & Hgen & _ & Hentries).
  pose proof (generated_dates year month schedule) as Hdom.
  destruct (calendarCells_complete year month names schedule (monthDates year month))
    as (cells & Hcells & Hdates & Hcell).
  { intros (d & ds & w & _ & Hd & Hw)%calendarCells_throws.
    destruct (Hentries d ds Hd) as (wi & day & Hwi & Hentry).
    assert (off ds = -1) as Ho
      by (apply (entry_without_shift wi day ds Hwi Hentry); by exists w).
    destruct (generated_dayInvariant _ _ schedule d ds Hu Hgen Hd) as [Hoff _]. lia. }
  exists schedule, cells. split; [done|]. split; [done|].
  rewrite <- monthDates_usable by done. split; [done|].
  intros cell Hin. destruct (Hcell cell Hin) as [Hdow Hlines].
  assert (c_date cell ∈ monthDates year month) as Hdate
    by (rewrite <- Hdates; apply list_elem_of_fmap; by exists cell).
  rewrite monthDates_usable in Hdate by done. apply elem_of_seqZ in Hdate.
  destruct (proj2 (Hdom (c_date cell) Hu Hgen)) as [ds Hds]; [lia|].
  rewrite Hds in Hlines.
  destruct (calendarLines_invariant names ds) as (a & b & c & Ha & Hb & Hc & Hnormal).
  { by apply (generated_dayInvariant year month schedule (c_date cell)). }
  rewrite Hnormal in Hlines. injection Hlines as Hlines. symmetry in Hlines.
  destruct (getDay_usable year month (c_date cell) Hu) as (dow & Hgd & Hrange); [lia|].
  exists ds, a, b, c, dow. rewrite Hdow. split_and!; (done || lia).
Qed.

Lemma calendar_cells_list_shifts_witness :
  ∃ schedule cells,
    generateSchedule 2026 2 = Normal schedule ∧
    renderCalendar 2026 2 ["Kim"; "Lee"; "Park"; "Choi"]%string schedule
      = Normal cells ∧
    c_date <$> cells = seqZ 1 28.
Proof.
  destruct (calendar_cells_list_shifts 2026 2 ["Kim"; "Lee"; "Park"; "Choi"]%string
    usable_2026_02) as (schedule & cells & Hgen & Hcells & Hdates & _).
  exists schedule, cells. split; [exact Hgen|]. split; [exact Hcells|exact Hdates].
Defined.

(** X15. When the schedule has an entry at every date of the month, the
    second sheet of [exportToExcel] holds, for four names, what
    [renderSummary] computes: the name, the work days, the days off, the
    hours and the three counts of shifts of each worker. *)
Theorem exportSummary_summaryStats year month names schedule :
  length names = 4%nat →
  Forall (λ d, is_Some (schedule !! d)) (monthDates year month) →
  exportSummary year month names schedule [0; 1; 2; 3] =
    Normal ((λ s, mkSummaryRow (stats_name s) (stats_workDays s) (stats_offDays s)
                    (stats_hours s) (stats_shift7 s) (stats_shift9 s)
                    (stats_shift13 s))
            <$> summaryStats year month names schedule).
Proof.
  intros Hlen Hall. rewrite Forall_forall in Hall.
  rewrite exportSummary_complete by done.
  by destruct names as [|n0 [|n1 [|n2 [|n3 [|]]]]].
Qed.

Lemma exportSummary_summaryStats_witness :
  let names := ["Kim"; "Lee"; "Park"; "Choi"]%string in
  let schedule : gmap Z DaySchedule :=
    list_to_map ((λ d, (d, mkDaySchedule (d mod 4) ∅)) <$> seqZ 1 28) in
  Forall (λ d, is_Some (schedule !! d)) (monthDates 2026 2) ∧
  exportSummary 2026 2 names schedule [0; 1; 2; 3] =
    Normal ((λ s, mkSummaryRow (stats_name s) (stats_workDays s) (stats_offDays s)
                    (stats_hours s) (stats_shift7 s) (stats_shift9 s)
                    (stats_shift13 s))
            <$> summaryStats 2026 2 names schedule).
Proof.
  intros names schedule.
  assert (Forall (λ d, is_Some (schedule !! d)) (monthDates 2026 2)) as Hall
    by (apply (bool_decide_unpack _); by vm_compute).
  split; [exact Hall|].
  exact (exportSummary_summaryStats 2026 2 names schedule eq_refl Hall).
Defined.

(** ** The statistics of a generated month *)

Section Statistics.

(** The run for a usable month is the run for its shape, and the
    statistics of [renderSummary] are those of the shape. *)
Lemma generated_stats year month :
  usable year month →
  ∃ dow0 n shiftCounts schedule,
    0 <= dow0 <= 6 ∧ 28 <= n <= 31 ∧
    n = monthLength month (InLeapYear (fullYear year)) ∧
    monthDates year month = seqZ 1 n ∧
    assignWeeks 0 (groupWeeks (buildDays year month) [] []) (initialCounts, ∅)
      = Normal (shiftCounts, schedule) ∧
    generateSchedule year month = Normal schedule ∧
    monthStats dow0 n =
      Normal (shiftCounts,
              (λ w, statsOfDates schedule (seqZ 1 n) w None) <$> [0; 1; 2; 3]).
Proof.
  intros Hu.
  destruct (buildDays_usable year month Hu) as (dow0 & n & Hdow0 & Hn & Hdim & Hdays).
  destruct (assignWeeks_Normal year month) as (shiftCounts & schedule & Hrun & _ & _).
  exists dow0, n, shiftCounts, schedule. split; [done|]. split; [done|]. split.
  { rewrite daysInMonth_usable in Hdim by done. by injection Hdim. }
  split; [unfold monthDates; by rewrite Hdim|]. split; [done|]. split.
  - unfold generateSchedule. cbv zeta. by rewrite Hrun.
  - unfold monthStats, monthRun. by rewrite <- Hdays, Hrun, bind_Normal.
Qed.

Lemma tally_shapes dow0 n :
  0 <= dow0 <= 6 → 28 <= n <= 31 → tallyAgrees dow0 n = true.
Proof. apply month_shapes. vm_compute. reflexivity. Qed.

Lemma balanced_shapes dow0 n :
  0 <= dow0 <= 6 → 28 <= n <= 31 → shiftsBalanced dow0 n = true.
Proof. apply month_shapes. vm_compute. reflexivity. Qed.

Lemma rests_shapes dow0 n :
  0 <= dow0 <= 6 → 28 <= n <= 31 → restsBounded dow0 n = true.
Proof. apply month_shapes. vm_compute. reflexivity. Qed.

Lemma totals_shapes dow0 n :
  0 <= dow0 <= 6 → 28 <= n <= 31 → totalsAgree dow0 n = true.
Proof. apply month_shapes. vm_compute. reflexivity. Qed.

Variable schedule : gmap Z DaySchedule.
Variable dates : list Z.

Lemma at_index_workers {A} (g : Z → A) w :
  0 <= w <= 3 → at_index (g <$> [0; 1; 2; 3]) w = Some (g w).
Proof.
  intros Hw. assert (w = 0 ∨ w = 1 ∨ w = 2 ∨ w = 3) as ? by lia.
  by destruct_or!; subst w.
Qed.

Lemma forallb_workers {A} (check : A → bool) (g : Z → A) w :
  0 <= w <= 3 → forallb check (g <$> [0; 1; 2; 3]) = true → check (g w) = true.
Proof.
  intros Hw Hall. rewrite forallb_forall in Hall. apply Hall.
  apply list_elem_of_In, list_elem_of_fmap. exists w. split; [done|].
  rewrite !elem_of_cons. lia.
Qed.

Lemma statsOfDates_shifts w name :
  let s := statsOfDates schedule dates w name in
  let s0 := statsOfDates schedule dates w None in
  [stats_shift7 s; stats_shift9 s; stats_shift13 s]
  = [stats_shift7 s0; stats_shift9 s0; stats_shift13 s0].
Proof. reflexivity. Qed.

Lemma statsOfDates_balanced w name :
  balancedStats (statsOfDates schedule dates w None) = true →
  let s := statsOfDates schedule dates w name in
  stats_shift7 s + stats_shift9 s + stats_shift13 s = stats_workDays s ∧
  7 <= stats_shift7 s <= 9 ∧ 7 <= stats_shift9 s <= 9 ∧
  7 <= stats_shift13 s <= 9 ∧
  Z.abs (stats_shift7 s - stats_shift9 s) <= 2 ∧
  Z.abs (stats_shift7 s - stats_shift13 s) <= 2 ∧
  Z.abs (stats_shift9 s - stats_shift13 s) <= 2.
Proof.
  unfold balancedStats, statsOfDates.
  cbn [stats_workDays stats_shift7 stats_shift9 stats_shift13]. cbv zeta.
  rewrite !andb_true_iff, !Z.leb_le, Z.eqb_eq. lia.
Qed.

Lemma statsOfDates_bounded n w name :
  boundedStats n (statsOfDates schedule dates w None) = true →
  let s := statsOfDates schedule dates w name in
  stats_workDays s + stats_offDays s = n ∧
  7 <= stats_offDays s <= 10 ∧ 21 <= stats_workDays s <= 24 ∧
  168 <= stats_hours s <= 192 ∧
  2 <= stats_maxStreak s <= 3 ∧ 2 <= stats_consecutivePairs s.
Proof.
  unfold boundedStats, statsOfDates.
  cbn [stats_workDays stats_offDays stats_hours stats_maxStreak
       stats_consecutivePairs]. cbv zeta.
  rewrite !andb_true_iff, !Z.leb_le, Z.eqb_eq. lia.
Qed.

Lemma total_names (f : Stats → Z) n0 n1 n2 n3 :
  (∀ w name, f (statsOfDates schedule dates w name)
             = f (statsOfDates schedule dates w None)) →
  total f (imap (λ (idx : nat) (name : string),
                   statsOfDates schedule dates (Z.of_nat idx) (Some name))
             [n0; n1; n2; n3])
  = total f ((λ w, statsOfDates schedule dates w None) <$> [0; 1; 2; 3]).
Proof.
  intros Hf. unfold total. cbn [imap fmap list_fmap foldr compose].
  rewrite (Hf _ (Some n0)), (Hf _ (Some n1)), (Hf _ (Some n2)), (Hf _ (Some n3)).
  reflexivity.
Qed.

End Statistics.

(** X16. In a usable month the tally [shiftCounts] that [generateSchedule]
    keeps ends, for each worker, at the three counts of shifts that
    [renderSummary] computes from the schedule. *)
Theorem shiftCounts_tally year month :
  usable year month →
  ∃ shiftCounts schedule,
    assignWeeks 0 (groupWeeks (buildDays year month) [] []) (initialCounts, ∅)
      = Normal (shiftCounts, schedule) ∧
    generateSchedule year month = Normal schedule ∧
    ∀ w name, 0 <= w <= 3 →
      let s := workerStats year month schedule w name in
      at_index shiftCounts w
        = Some [stats_shift7 s; stats_shift9 s; stats_shift13 s].
Proof.
  intros Hu.
  destruct (generated_stats year month Hu)
    as (dow0 & n & shiftCounts & schedule & Hdow0 & Hn & _ & Hdates & Hrun & Hgen
        & Hstats).
  exists shiftCounts, schedule. split; [done|]. split; [done|].
  pose proof (tally_shapes dow0 n Hdow0 Hn) as Hcheck.
  unfold tallyAgrees in Hcheck. rewrite Hstats in Hcheck.
  apply bool_decide_eq_true in Hcheck. rewrite Hcheck.
  intros w name Hw. cbv zeta. unfold workerStats. rewrite Hdates.
  rewrite <- list_fmap_compose, at_index_workers by done.
  by rewrite (statsOfDates_shifts schedule (seqZ 1 n) w name).
Qed.

Lemma shiftCounts_tally_witness :
  ∃ shiftCounts schedule,
    generateSchedule 2026 2 = Normal schedule ∧
    at_index shiftCounts 0 =
      Some [stats_shift7 (workerStats 2026 2 schedule 0 None);
            stats_shift9 (workerStats 2026 2 schedule 0 None);
            stats_shift13 (workerStats 2026 2 schedule 0 None)].
Proof.
  destruct (shiftCounts_tally 2026 2 usable_2026_02)
    as (shiftCounts & schedule & _ & Hgen & Htally).
  exists shiftCounts, schedule. split; [exact Hgen|].
  apply (Htally 0 None). lia.
Defined.

(** X17. In the schedule of a usable month every work day of a worker has
    one of the three shifts; the worker holds each shift 7 to 9 times, and
    no two of the three counts differ by more than 2. *)
Theorem shifts_balanced year month :
  usable year month →
  ∃ schedule,
    generateSchedule year month = Normal schedule ∧
    ∀ w name, 0 <= w <= 3 →
      let s := workerStats year month schedule w name in
      stats_shift7 s + stats_shift9 s + stats_shift13 s = stats_workDays s ∧
      7 <= stats_shift7 s <= 9 ∧ 7 <= stats_shift9 s <= 9 ∧
      7 <= stats_shift13 s <= 9 ∧
      Z.abs (stats_shift7 s - stats_shift9 s) <= 2 ∧
      Z.abs (stats_shift7 s - stats_shift13 s) <= 2 ∧
      Z.abs (stats_shift9 s - stats_shift13 s) <= 2.
Proof.
  intros Hu.
  destruct (generated_stats year month Hu)
    as (dow0 & n & shiftCounts & schedule & Hdow0 & Hn & _ & Hdates & _ & Hgen
        & Hstats).
  exists schedule. split; [done|].
  pose proof (balanced_shapes dow0 n Hdow0 Hn) as Hcheck.
  unfold shiftsBalanced in Hcheck. rewrite Hstats in Hcheck.
  intros w name Hw. unfold workerStats. rewrite Hdates.
  apply statsOfDates_balanced.
  by apply (forallb_workers balancedStats
              (λ w, statsOfDates schedule (seqZ 1 n) w None)).
Qed.

Lemma shifts_balanced_witness :
  ∃ schedule,
    generateSchedule 2026 2 = Normal schedule ∧
    7 <= stats_shift7 (workerStats 2026 2 schedule 3 None) <= 9.
Proof.
  destruct (shifts_balanced 2026 2 usable_2026_02) as (schedule & Hgen & Hbal).
  exists schedule. split; [exact Hgen|].
  destruct (Hbal 3 None) as (_ & H7 & _); [lia|exact H7].
Defined.

(** X18. In the schedule of a usable month every worker has 7 to 10 days
    off and 21 to 24 work days, which add up to the days of the month, so
    168 to 192 hours; the longest rest is of 2 or 3 days, and there are at
    least two rests of 2 days or more. *)
Theorem rests_bounded year month :
  usable year month →
  ∃ schedule,
    generateSchedule year month = Normal schedule ∧
    ∀ w name, 0 <= w <= 3 →
      let s := workerStats year month schedule w name in
      stats_workDays s + stats_offDays s
        = monthLength month (InLeapYear (fullYear year)) ∧
      7 <= stats_offDays s <= 10 ∧ 21 <= stats_workDays s <= 24 ∧
      168 <= stats_hours s <= 192 ∧
      2 <= stats_maxStreak s <= 3 ∧ 2 <= stats_consecutivePairs s.
Proof.
  intros Hu.
  destruct (generated_stats year month Hu)
    as (dow0 & n & shiftCounts & schedule & Hdow0 & Hn & Hlen & Hdates & _ & Hgen
        & Hstats).
  exists schedule. split; [done|]. rewrite <- Hlen.
  pose proof (rests_shapes dow0 n Hdow0 Hn) as Hcheck.
  unfold restsBounded in Hcheck. rewrite Hstats in Hcheck.
  intros w name Hw. unfold workerStats. rewrite Hdates.
  apply statsOfDates_bounded.
  by apply (forallb_workers (boundedStats n)
              (λ w, statsOfDates schedule (seqZ 1 n) w None)).
Qed.

Lemma rests_bounded_witness :
  ∃ schedule,
    generateSchedule 2026 2 = Normal schedule ∧
    stats_workDays (workerStats 2026 2 schedule 1 None)
    + stats_offDays (workerStats 2026 2 schedule 1 None) = 28.
Proof.
  destruct (rests_bounded 2026 2 usable_2026_02) as (schedule & Hgen & Hrest).
  exists schedule. split; [exact Hgen|].
  destruct (Hrest 1 None) as (Hsum & _); [lia|exact Hsum].
Defined.

(** X19. Over the four workers of the summary of a usable month, the days
    off add up to the days of the month and so does each count of shifts:
    every day one worker is off and each shift is held once. *)
Theorem totals_agree year month names :
  usable year month → length names = 4%nat →
  ∃ schedule,
    generateSchedule year month = Normal schedule ∧
    let stats := summaryStats year month names schedule in
    let n := monthLength month (InLeapYear (fullYear year)) in
    total stats_offDays stats = n ∧ total stats_shift7 stats = n ∧
    total stats_shift9 stats = n ∧ total stats_shift13 stats = n ∧
    total stats_workDays stats = 3 * n.
Proof.
  intros Hu Hnames.
  destruct (generated_stats year month Hu)
    as (dow0 & n & shiftCounts & schedule & Hdow0 & Hn & Hlen & Hdates & _ & Hgen
        & Hstats).
  exists schedule. split; [done|]. cbv zeta. rewrite <- Hlen.
  pose proof (totals_shapes dow0 n Hdow0 Hn) as Hcheck.
  unfold totalsAgree in Hcheck. rewrite Hstats in Hcheck.
  rewrite !andb_true_iff, !Z.eqb_eq in Hcheck.
  destruct names as [|n0 [|n1 [|n2 [|n3 [|]]]]]; try done.
  unfold summaryStats, workerStats. rewrite Hdates.
  rewrite !(total_names schedule (seqZ 1 n)) by done. tauto.
Qed.

Lemma totals_agree_witness :
  ∃ schedule,
    generateSchedule 2026 2 = Normal schedule ∧
    total stats_offDays
      (summaryStats 2026 2 ["Kim"; "Lee"; "Park"; "Choi"]%string schedule) = 28.
Proof.
  destruct (totals_agree 2026 2 ["Kim"; "Lee"; "Park"; "Choi"]%string
    usable_2026_02 eq_refl) as (schedule & Hgen & Htotal & _).
  exists schedule. split; [exact Hgen|exact Htotal].
Defined.

(** ** [generateSchedule] on the store *)

Section Store.

Lemma Eff_bind_Normal {A B} (m : Heap.Eff A) (k : A → Heap.Eff B) σ a σ' :
  m σ = (Normal a, σ') → (m ≫= k) σ = k a σ'.
Proof. intros Hm. unfold mbind, Heap.Eff_bind. by rewrite Hm. Qed.

Lemma lift_bind {A B} (c : completion A) (k : A → Heap.Eff B) σ :
  (Heap.lift c ≫= k) σ = match c with Normal a => k a σ | Throw => (Throw, σ) end.
Proof. unfold mbind, Heap.Eff_bind, Heap.lift. by destruct c. Qed.

Lemma holdsCounts_lookup σ shiftCounts counts w :
  holdsCounts σ shiftCounts counts →
  match at_index shiftCounts w, at_index counts w with
  | Some l, Some row => σ !! l = Some (Heap.Numbers row)
  | None, None => True
  | _, _ => False
  end.
Proof.
  intros [_ Hrows]. unfold at_index.
  pose proof (Forall2_length _ _ _ Hrows) as Hlen.
  destruct (0 <=? w); [|done].
  destruct (shiftCounts !! Z.to_nat w) as [l|] eqn:Hl.
  - destruct (Forall2_lookup_l _ _ _ _ _ Hrows Hl) as (row & -> & Hrow). done.
  - apply lookup_ge_None in Hl. rewrite Hlen in Hl.
    apply lookup_ge_None in Hl. by rewrite Hl.
Qed.

(** Reading the rows in the store is reading [counts]. *)
Lemma countsRow_store σ shiftCounts counts perm s :
  holdsCounts σ shiftCounts counts →
  Heap.countsRow shiftCounts perm s σ = (countsRow counts perm s, σ).
Proof.
  intros Hrows. unfold Heap.countsRow, countsRow. rewrite lift_bind.
  destruct (perm !! s) as [w|]; [|done]. cbn [defined]. rewrite bind_Normal, lift_bind.
  pose proof (holdsCounts_lookup σ shiftCounts counts w Hrows) as Hw.
  destruct (at_index shiftCounts w) as [l|], (at_index counts w) as [row|];
    try done.
  cbn [defined]. unfold Heap.readNumbers. by rewrite Hw.
Qed.

Lemma addCounts_store σ shiftCounts counts perm ss score :
  holdsCounts σ shiftCounts counts →
  Heap.addCounts shiftCounts perm ss score σ = (addCounts counts perm ss score, σ).
Proof.
  intros Hrows. revert score. induction ss as [|s ss IH]; intros score; [done|].
  cbn [Heap.addCounts addCounts].
  pose proof (countsRow_store σ shiftCounts counts perm s Hrows) as Hrow.
  destruct (countsRow counts perm s) as [row|].
  - rewrite (Eff_bind_Normal _ _ _ _ _ Hrow), bind_Normal. apply IH.
  - unfold mbind at 1, Heap.Eff_bind. by rewrite Hrow.
Qed.

Lemma addSpreads_store σ shiftCounts counts perm ss score :
  holdsCounts σ shiftCounts counts →
  Heap.addSpreads shiftCounts perm ss score σ = (addSpreads counts perm ss score, σ).
Proof.
  intros Hrows. revert score. induction ss as [|s ss IH]; intros score; [done|].
  cbn [Heap.addSpreads addSpreads].
  pose proof (countsRow_store σ shiftCounts counts perm s Hrows) as Hrow.
  destruct (countsRow counts perm s) as [row|].
  - rewrite (Eff_bind_Normal _ _ _ _ _ Hrow), bind_Normal. apply IH.
  - unfold mbind at 1, Heap.Eff_bind. by rewrite Hrow.
Qed.

Lemma scorePerm_store σ shiftCounts counts perm :
  holdsCounts σ shiftCounts counts →
  Heap.scorePerm shiftCounts perm σ = (scorePerm counts perm, σ).
Proof.
  intros Hrows. unfold Heap.scorePerm, scorePerm.
  pose proof (addCounts_store σ shiftCounts counts perm [0; 1; 2]%nat zero Hrows)
    as Hc.
  destruct (addCounts counts perm [0; 1; 2]%nat zero) as [score|].
  - rewrite (Eff_bind_Normal _ _ _ _ _ Hc), bind_Normal. by apply addSpreads_store.
  - unfold mbind at 1, Heap.Eff_bind. by rewrite Hc.
Qed.

(** The loop over the orderings reads the store and leaves it as it is. *)
Lemma pickBest_store σ shiftCounts counts perms bestPerm bestScore :
  holdsCounts σ shiftCounts counts →
  Heap.pickBest shiftCounts perms bestPerm bestScore σ
  = (pickBest counts perms bestPerm bestScore, σ).
Proof.
  intros Hrows. revert bestPerm bestScore.
  induction perms as [|perm perms IH]; intros bestPerm bestScore; [done|].
  cbn [Heap.pickBest pickBest].
  pose proof (scorePerm_store σ shiftCounts counts perm Hrows) as Hs.
  destruct (scorePerm counts perm) as [score|].
  - rewrite (Eff_bind_Normal _ _ _ _ _ Hs), bind_Normal.
    destruct (ltb score bestScore); apply IH.
  - unfold mbind at 1, Heap.Eff_bind. by rewrite Hs.
Qed.

(** A row changed in place: the other rows and the other objects stay. *)
Lemma holdsCounts_increment σ shiftCounts counts w l row (s : nat) :
  holdsCounts σ shiftCounts counts →
  at_index shiftCounts w = Some l → at_index counts w = Some row →
  holdsCounts (<[l := Heap.Numbers (alter Z.succ s row)]> σ) shiftCounts
    (<[Z.to_nat w := alter Z.succ s row]> counts).
Proof.
  intros [Hnd Hrows] Hl Hrow. split; [done|].
  unfold at_index in Hl, Hrow. destruct (0 <=? w); [|done].
  apply Forall2_lookup. intros i.
  destruct (decide (i = Z.to_nat w)) as [-> | Hne].
  - rewrite Hl, list_lookup_insert_eq by (by eapply lookup_lt_Some).
    constructor. apply lookup_insert_eq.
  - rewrite list_lookup_insert_ne by done.
    pose proof (proj1 (Forall2_lookup _ _ _) Hrows i) as Hi.
    destruct (shiftCounts !! i) as [l'|] eqn:Hl'; inversion Hi as [? row' Hσ|];
      constructor.
    rewrite lookup_insert_ne; [done|].
    intros <-. apply Hne. by apply (NoDup_lookup shiftCounts _ _ l).
Qed.

(** The commit changes the rows in the store as it changes [counts]. *)
Lemma commit_store σ shiftCounts counts bestPerm ss shifts shifts' counts' :
  holdsCounts σ shiftCounts counts →
  commit bestPerm ss shifts counts = Normal (shifts', counts') →
  ∃ σ', Heap.commit bestPerm ss shifts shiftCounts σ = (Normal shifts', σ') ∧
        holdsCounts σ' shiftCounts counts' ∧
        ∀ l, l ∉ shiftCounts → σ' !! l = σ !! l.
Proof.
  revert σ shifts counts. induction ss as [|s ss IH]; intros σ shifts counts Hrows.
  - intros [= <- <-]. by exists σ.
  - cbn [Heap.commit commit]. rewrite lift_bind.
    destruct bestPerm as [perm|]; [|done]. cbn [defined]. rewrite bind_Normal, lift_bind.
    destruct (SHIFTS !! s) as [id|]; [|done]. cbn [defined]. rewrite bind_Normal, lift_bind.
    destruct (perm !! s) as [w|]; [|done]. cbn [defined]. rewrite bind_Normal, lift_bind.
    pose proof (holdsCounts_lookup σ shiftCounts counts w Hrows) as Hw.
    destruct (at_index shiftCounts w) as [l|] eqn:Hl,
      (at_index counts w) as [row|] eqn:Hrow; try done.
    cbn [defined]. rewrite bind_Normal. intros Hcommit.
    assert (Heap.increment l s σ = (Normal tt, <[l := Heap.Numbers (alter Z.succ s row)]> σ))
      as Hincr by (unfold Heap.increment; by rewrite Hw).
    rewrite (Eff_bind_Normal _ _ _ _ _ Hincr).
    destruct (IH _ _ _ (holdsCounts_increment σ shiftCounts counts w l row s
                          Hrows Hl Hrow) Hcommit) as (σ' & Hrun & Hrows' & Hframe).
    exists σ'. split; [done|]. split; [done|].
    intros l' Hl'. rewrite Hframe by done. apply lookup_insert_ne.
    intros <-. apply Hl'. unfold at_index in Hl. destruct (0 <=? w); [|done].
    by eapply list_elem_of_lookup_2.
Qed.

Lemma holdsCounts_frame σ σ' shiftCounts counts :
  holdsCounts σ shiftCounts counts →
  (∀ l, l ∈ shiftCounts → σ' !! l = σ !! l) →
  holdsCounts σ' shiftCounts counts.
Proof.
  intros [Hnd Hrows] Hsame. split; [done|].
  apply Forall2_lookup. intros i.
  pose proof (proj1 (Forall2_lookup _ _ _) Hrows i) as Hi.
  destruct (shiftCounts !! i) as [l|] eqn:Hl; inversion Hi as [? row Hσ|];
    constructor.
  rewrite Hsame; [done|]. by eapply list_elem_of_lookup_2.
Qed.

Lemma assignDay_store σ shiftCounts schedule wi day st st' :
  holdsState σ shiftCounts schedule st →
  assignDay wi day st = Normal st' →
  ∃ σ', Heap.assignDay wi day shiftCounts schedule σ = (Normal tt, σ') ∧
        holdsState σ' shiftCounts schedule st' ∧
        ∀ l, l ∉ schedule :: shiftCounts → σ' !! l = σ !! l.
Proof.
  destruct st as [counts entries]. intros (Hrows & Hfresh & Hsched).
  cbn [fst snd] in *. unfold Heap.assignDay, assignDay. rewrite lift_bind.
  destruct (findOffWorker wi (dayOfWeek day)) as [o|]; [|done].
  rewrite bind_Normal. cbv zeta.
  set (perms := permutations (filter (λ w, w ≠ o) [0; 1; 2; 3])).
  pose proof (pickBest_store σ shiftCounts counts perms (perms !! 0%nat) Infinity
    Hrows) as Hpick.
  destruct (pickBest counts perms (perms !! 0%nat) Infinity) as [bestPerm|]; [|done].
  rewrite (Eff_bind_Normal _ _ _ _ _ Hpick), bind_Normal.
  destruct (commit bestPerm [0; 1; 2]%nat ∅ counts) as [[shifts counts']|] eqn:Hcommit;
    [|done].
  rewrite bind_Normal. intros [= <-].
  destruct (commit_store σ shiftCounts counts bestPerm _ _ _ _ Hrows Hcommit)
    as (σ1 & Hrun & Hrows1 & Hframe1).
  rewrite (Eff_bind_Normal _ _ _ _ _ Hrun).
  assert (σ1 !! schedule = Some (Heap.Entries entries)) as Hsched1
    by (by rewrite Hframe1).
  unfold Heap.setEntry. rewrite Hsched1. eexists. split; [reflexivity|]. split.
  - split_and!; [|done|apply lookup_insert_eq].
    apply (holdsCounts_frame σ1); [done|].
    intros l Hl. apply lookup_insert_ne. by intros <-.
  - intros l [Hls Hl]%not_elem_of_cons.
    rewrite lookup_insert_ne by done. by apply Hframe1.
Qed.

Lemma assignWeek_store σ shiftCounts schedule wi week st st' :
  holdsState σ shiftCounts schedule st →
  assignWeek wi week st = Normal st' →
  ∃ σ', Heap.assignWeek wi week shiftCounts schedule σ = (Normal tt, σ') ∧
        holdsState σ' shiftCounts schedule st' ∧
        ∀ l, l ∉ schedule :: shiftCounts → σ' !! l = σ !! l.
Proof.
  revert σ st. induction week as [|day week IH]; intros σ st Hst.
  - intros [= <-]. by exists σ.
  - cbn [Heap.assignWeek assignWeek].
    destruct (assignDay wi day st) as [st1|] eqn:Hday; [|done].
    rewrite bind_Normal. intros Hweek.
    destruct (assignDay_store σ shiftCounts schedule wi day st st1 Hst Hday)
      as (σ1 & Hrun1 & Hst1 & Hframe1).
    destruct (IH σ1 st1 Hst1 Hweek) as (σ' & Hrun & Hst' & Hframe).
    exists σ'. rewrite (Eff_bind_Normal _ _ _ _ _ Hrun1).
    split; [done|]. split; [done|].
    intros l Hl. rewrite Hframe by done. by apply Hframe1.
Qed.

Lemma assignWeeks_store σ shiftCounts schedule wi weeks st st' :
  holdsState σ shiftCounts schedule st →
  assignWeeks wi weeks st = Normal st' →
  ∃ σ', Heap.assignWeeks wi weeks shiftCounts schedule σ = (Normal tt, σ') ∧
        holdsState σ' shiftCounts schedule st' ∧
        ∀ l, l ∉ schedule :: shiftCounts → σ' !! l = σ !! l.
Proof.
  revert σ wi st. induction weeks as [|week weeks IH]; intros σ wi st Hst.
  - intros [= <-]. by exists σ.
  - cbn [Heap.assignWeeks assignWeeks].
    destruct (assignWeek wi week st) as [st1|] eqn:Hweek; [|done].
    rewrite bind_Normal. intros Hweeks.
    destruct (assignWeek_store σ shiftCounts schedule wi week st st1 Hst Hweek)
      as (σ1 & Hrun1 & Hst1 & Hframe1).
    destruct (IH σ1 (wi + 1) st1 Hst1 Hweeks) as (σ' & Hrun & Hst' & Hframe).
    exists σ'. rewrite (Eff_bind_Normal _ _ _ _ _ Hrun1).
    split; [done|]. split; [done|].
    intros l Hl. rewrite Hframe by done. by apply Hframe1.
Qed.

(** A new object is none of those of the store. *)
Lemma alloc_fresh c σ :
  ∃ l, Heap.alloc c σ = (Normal l, <[l := c]> σ) ∧ σ !! l = None.
Proof.
  exists (fresh (dom σ)). split; [done|].
  apply not_elem_of_dom, is_fresh.
Qed.

(** The call on the store: it returns a new object that holds the schedule
    of [generateSchedule], and leaves the objects of the store as they
    were. *)
Lemma generateSchedule_store year month σ :
  ∃ l σ' schedule,
    Heap.generateSchedule year month σ = (Normal l, σ') ∧
    generateSchedule year month = Normal schedule ∧
    σ !! l = None ∧ σ' !! l = Some (Heap.Entries schedule) ∧
    ∀ l', is_Some (σ !! l') → σ' !! l' = σ !! l'.
Proof.
  destruct (assignWeeks_Normal year month) as (counts & schedule & Hrun & _).
  unfold Heap.generateSchedule. cbv zeta.
  destruct (alloc_fresh (Heap.Entries ∅) σ) as (ls & Hs & Hfs).
  set (σs := <[ls := Heap.Entries ∅]> σ) in *.
  destruct (alloc_fresh (Heap.Numbers [0; 0; 0]) σs) as (l0 & H0 & Hf0).
  set (σ0 := <[l0 := Heap.Numbers [0; 0; 0]]> σs) in *.
  destruct (alloc_fresh (Heap.Numbers [0; 0; 0]) σ0) as (l1 & H1 & Hf1).
  set (σ1 := <[l1 := Heap.Numbers [0; 0; 0]]> σ0) in *.
  destruct (alloc_fresh (Heap.Numbers [0; 0; 0]) σ1) as (l2 & H2 & Hf2).
  set (σ2 := <[l2 := Heap.Numbers [0; 0; 0]]> σ1) in *.
  destruct (alloc_fresh (Heap.Numbers [0; 0; 0]) σ2) as (l3 & H3 & Hf3).
  set (σ3 := <[l3 := Heap.Numbers [0; 0; 0]]> σ2) in *.
  rewrite (Eff_bind_Normal _ _ _ _ _ Hs), (Eff_bind_Normal _ _ _ _ _ H0),
    (Eff_bind_Normal _ _ _ _ _ H1), (Eff_bind_Normal _ _ _ _ _ H2),
    (Eff_bind_Normal _ _ _ _ _ H3).
  (* the five new objects are distinct, and none is in [σ] *)
  unfold σ2 in Hf3. unfold σ1 in Hf2, Hf3. unfold σ0 in Hf1, Hf2, Hf3.
  unfold σs in Hf0, Hf1, Hf2, Hf3.
  repeat match goal with
         | H : <[_ := _]> _ !! _ = None |- _ =>
             apply lookup_insert_None in H as [H ?]
         end.
  assert (holdsState σ3 [l0; l1; l2; l3] ls (initialCounts, ∅)) as Hst.
  { split_and!.
    - split.
      + repeat constructor; rewrite ?elem_of_cons, ?elem_of_nil; intuition congruence.
      + unfold σ3, σ2, σ1, σ0. repeat constructor; cbn [fst].
        all: by rewrite ?lookup_insert_eq, ?lookup_insert_ne by congruence;
                rewrite ?lookup_insert_eq.
    - rewrite !elem_of_cons, elem_of_nil. intuition congruence.
    - unfold σ3, σ2, σ1, σ0, σs.
      by rewrite !lookup_insert_ne, lookup_insert_eq by congruence. }
  destruct (assignWeeks_store σ3 [l0; l1; l2; l3] ls 0 _ _ _ Hst Hrun)
    as (σ' & Hweeks & (_ & _ & Hsched) & Hframe).
  rewrite (Eff_bind_Normal _ _ _ _ _ Hweeks).
  exists ls, σ', schedule. split; [done|]. split.
  { unfold generateSchedule. cbv zeta. by rewrite Hrun. }
  split; [done|]. split; [done|].
  intros l' Hl'. rewrite Hframe.
  - unfold σ3, σ2, σ1, σ0, σs. rewrite !lookup_insert_ne; [done|..];
      intros <-; destruct Hl' as [? Hl']; congruence.
  - rewrite !elem_of_cons, elem_of_nil.
    intros Hin. destruct Hl' as [? Hl'].
    destruct Hin as [-> | [-> | [-> | [-> | [-> | []]]]]]; congruence.
Qed.

End Store.

(** C8. Two calls of [generateSchedule] with the same year and month return
    identical schedules, whatever the store each call starts from: another
    store, or the store that the first call left, with the schedule and the
    rows of [shiftCounts] of that call in it. The rows and the schedule of
    a call are new objects: the second call returns another object than the
    first, leaves the schedule of the first as it is, and no object that
    was in the store before the calls is changed. The schedule is the one
    of [generateSchedule] above. *)
Theorem generateSchedule_deterministic year month (σ σ' : Heap.store) :
  ∃ l1 σ1 l2 σ2 l3 σ3 schedule,
    Heap.generateSchedule year month σ = (Normal l1, σ1) ∧
    Heap.generateSchedule year month σ1 = (Normal l2, σ2) ∧
    Heap.generateSchedule year month σ' = (Normal l3, σ3) ∧
    σ1 !! l1 = Some (Heap.Entries schedule) ∧
    σ2 !! l2 = Some (Heap.Entries schedule) ∧
    σ3 !! l3 = Some (Heap.Entries schedule) ∧
    generateSchedule year month = Normal schedule ∧
    l2 ≠ l1 ∧ σ2 !! l1 = Some (Heap.Entries schedule) ∧
    (∀ l, is_Some (σ !! l) → σ1 !! l = σ !! l ∧ σ2 !! l = σ !! l).
Proof.
  destruct (generateSchedule_store year month σ)
    as (l1 & σ1 & schedule & Hrun1 & Hgen & Hnew1 & Hl1 & Hframe1).
  destruct (generateSchedule_store year month σ1)
    as (l2 & σ2 & schedule2 & Hrun2 & Hgen2 & Hnew2 & Hl2 & Hframe2).
  destruct (generateSchedule_store year month σ')
    as (l3 & σ3 & schedule3 & Hrun3 & Hgen3 & _ & Hl3 & _).
  rewrite Hgen in Hgen2, Hgen3. injection Hgen2 as <-. injection Hgen3 as <-.
  exists l1, σ1, l2, σ2, l3, σ3, schedule. do 7 (split; [done|]).
  split; [intros ->; by rewrite Hl1 in Hnew2|].
  split; [rewrite Hframe2; [done|by rewrite Hl1]|].
  intros l Hl. split; [by apply Hframe1|].
  rewrite Hframe2; [by apply Hframe1|]. by rewrite Hframe1.
Qed.

(** Two calls for January 2026 from the empty store: the first returns
    the object 1 and works on the rows 2 to 5, the second returns the
    object 6 and works on the rows 7 to 10; the rows of the first call are
    still in the store, as that call left them. *)
Example two_calls_2026_01 :
  let run1 := Heap.generateSchedule 2026 1 ∅ in
  let run2 := Heap.generateSchedule 2026 1 run1.2 in
  run1.1 = Normal 1%positive ∧ run2.1 = Normal 6%positive ∧
  (λ l, run2.2 !! l) <$> [2; 3; 4; 5]%positive =
    (λ row, Some (Heap.Numbers row)) <$> [[8; 8; 8]; [8; 8; 8]; [8; 7; 7]; [7; 8; 8]] ∧
  (λ l, run2.2 !! l) <$> [7; 8; 9; 10]%positive =
    (λ row, Some (Heap.Numbers row)) <$> [[8; 8; 8]; [8; 8; 8]; [8; 7; 7]; [7; 8; 8]] ∧
  run2.2 !! 1%positive = run2.2 !! 6%positive ∧
  size run2.2 = 10%nat.
Proof. split_and!; vm_compute; reflexivity. Qed.

(** Fresh counts matter: were the counts that a call leaves carried into
    the next, the loops would give another schedule for January 2026, with
    worker 0 on shift 9 on day 1 in place of shift 7. *)
Example carried_counts_change_schedule :
  let weeks := groupWeeks (buildDays 2026 1) [] [] in
  let counts := [[8; 8; 8]; [8; 8; 8]; [8; 7; 7]; [7; 8; 8]] in
  let shiftOn1 (st : list (list Z) * gmap Z DaySchedule) :=
    st.2 !! 1 ≫= λ ds, shifts ds !! 0 in
  (assignWeeks 0 weeks (initialCounts, ∅) ≫= λ st, Normal (st.1, shiftOn1 st))
    = Normal (counts, Some 7) ∧
  (assignWeeks 0 weeks (counts, ∅) ≫= λ st, Normal (shiftOn1 st))
    = Normal (Some 9).
Proof. split; vm_compute; reflexivity. Qed.
